(** * linkedu: campaign orchestration, verified against the Python sources

    A shallow embedding of the parts of [linkedin_automation] that carry
    state or a non-trivial algorithm:

    - [utils/decorators.py]   : the [retry] decorator            (Module Retry)
    - [utils/helpers.py]      : [get_adjusted_sleep_range]       (Module Throttle)
    - [features/jobs.py]      : label matching, profile growth,
                                the job campaign loop            (Module Jobs)
    - [features/connections.py]: tabs, quota, the campaign loop  (Module Connections)

    Python integers are [Z]; Python [str] is [string] restricted to ASCII;
    a [dict] whose iteration order matters is an association list kept in
    insertion order.  Selenium and the pages it drives are an explicit
    environment ("world") that fixes the outcome of every interaction, so
    that a theorem quantified over worlds covers every behaviour of the
    browser that the model can express. *)

From Stdlib Require Import ZArith QArith Qminmax Lia Lqa List Bool Ascii String.
Import ListNotations.

(* ===================================================================== *)
(** ** [utils/decorators.py]: [retry]                                     *)
(* ===================================================================== *)

Module Retry.

Section Decorator.

(** [V] is what the decorated function returns, [E] what it raises
    (instances of [Exception]). *)
Variables V E : Type.

Inductive outcome : Type :=
| Returned (v : V)
| Raised (e : E).

(** The decorated function may depend on hidden state (a page that is
    still loading): its outcome is given per invocation, numbered from 0. *)
Definition operation := nat -> outcome.

(** What a call of [wrapper] yields: the value of [func], the exception
    re-raised by the bare [raise], or [None] when the [while] loop is
    left without ever returning. *)
Inductive result : Type :=
| Ret (v : V)
| RetNone
| Exc (e : E).

Record run : Type := mkRun {
  outcome_of : result;
  calls : nat;        (* invocations of [func] *)
  sleeps : nat        (* calls of [time.sleep(delay_seconds)] *)
}.

(** [while attempts < max_attempts: try: return func(...) except ...].
    [fuel] bounds the number of iterations; [None] is "out of fuel". *)
Fixpoint loop (fuel : nat) (func : operation) (max_attempts attempts : Z)
         (ncalls nsleeps : nat) : option run :=
  match fuel with
  | O => None
  | S fuel' =>
      if attempts <? max_attempts then
        match func ncalls with
        | Returned v => Some (mkRun (Ret v) (S ncalls) nsleeps)
        | Raised e =>
            let attempts := attempts + 1 in
            if attempts >=? max_attempts
            then Some (mkRun (Exc e) (S ncalls) nsleeps)
            else loop fuel' func max_attempts attempts (S ncalls) (S nsleeps)
        end
      else Some (mkRun RetNone ncalls nsleeps)
  end%Z.

(** The [wrapper] built by [retry(max_attempts)]: [attempts = 0], then the
    loop. *)
Definition wrapper (max_attempts : Z) (func : operation) (fuel : nat)
  : option run :=
  loop fuel func max_attempts 0 0 0.

(** The first [n] invocations counted from [from] all raise. *)
Definition all_raise (func : operation) (from n : nat) : Prop :=
  forall i, (i < n)%nat -> exists e, func (from + i)%nat = Raised e.

End Decorator.

Arguments Returned {V E} v.
Arguments Raised {V E} e.
Arguments Ret {V E} v.
Arguments RetNone {V E}.
Arguments Exc {V E} e.
Arguments mkRun {V E}.
Arguments outcome_of {V E}.
Arguments calls {V E}.
Arguments sleeps {V E}.
Arguments loop {V E}.
Arguments wrapper {V E}.
Arguments all_raise {V E}.

(** A page element that is stale twice and then clickable. *)
Definition flaky_click : operation bool nat :=
  fun i => if (i <? 2)%nat then Raised i else Returned true.

(** An element that never becomes clickable; the exception carries the
    number of the invocation that raised it. *)
Definition never_clickable : operation bool nat := fun i => Raised i.

End Retry.

(* ===================================================================== *)
(** ** [utils/helpers.py]: [get_adjusted_sleep_range]                     *)
(* ===================================================================== *)

(** Durations are Python floats in the source.  They are modelled by exact
    rationals: the thresholds and the shape of the reduction are kept, IEEE
    rounding is not. *)

Module Throttle.

Local Open Scope Q_scope.

Definition wait_range : Type := (Q * Q)%type.

(** [config/settings.py] *)
Definition DEFAULT_WAIT_RANGE : wait_range := (1, 3).
Definition PAGE_LOAD_WAIT_RANGE : wait_range := (3, 6).

(** [(call_count - 50) / 200] *)
Definition ramp (call_count : Z) : Q := inject_Z (call_count - 50) / 200.

(** [min(0.7, (call_count - 50) / 200)] *)
Definition reduction_factor (call_count : Z) : Q :=
  Qmin (7 # 10) (ramp call_count).

Definition get_adjusted_sleep_range (min_max : wait_range) (call_count : Z)
  : wait_range :=
  if (call_count >? 50)%Z then
    let reduction_factor := reduction_factor call_count in
    let adjusted_min := fst min_max * (1 - reduction_factor) in
    let adjusted_max := snd min_max * (1 - reduction_factor) in
    (adjusted_min, adjusted_max)
  else min_max.

End Throttle.

(* ===================================================================== *)
(** ** Python strings and ordered dictionaries                            *)
(* ===================================================================== *)

Module Py.

Local Open Scope string_scope.

(** [str.lower()] on ASCII text. *)
Definition lower_ascii (c : ascii) : ascii :=
  let n := nat_of_ascii c in
  if ((65 <=? n) && (n <=? 90))%nat then ascii_of_nat (n + 32) else c.

Fixpoint lower (s : string) : string :=
  match s with
  | EmptyString => EmptyString
  | String c s' => String (lower_ascii c) (lower s')
  end.

(** [p in s] for two strings. *)
Fixpoint str_in (p s : string) : bool :=
  prefix p s ||
  match s with
  | EmptyString => false
  | String _ s' => str_in p s'
  end.

(** [s.replace(a, b)] for single characters. *)
Fixpoint replace_char (a b : ascii) (s : string) : string :=
  match s with
  | EmptyString => EmptyString
  | String c s' =>
      String (if Ascii.eqb c a then b else c) (replace_char a b s')
  end.

(** The characters [str.isspace()] accepts in ASCII. *)
Definition is_space (c : ascii) : bool :=
  let n := nat_of_ascii c in
  ((9 <=? n) && (n <=? 13) || (28 <=? n) && (n <=? 32))%nat.

Fixpoint lstrip (s : string) : string :=
  match s with
  | EmptyString => EmptyString
  | String c s' => if is_space c then lstrip s' else s
  end.

Fixpoint rstrip (s : string) : string :=
  match s with
  | EmptyString => EmptyString
  | String c s' =>
      match rstrip s' with
      | EmptyString => if is_space c then EmptyString else String c EmptyString
      | t => String c t
      end
  end.

Definition strip (s : string) : string := rstrip (lstrip s).

Fixpoint filter_chars (keep : ascii -> bool) (s : string) : string :=
  match s with
  | EmptyString => EmptyString
  | String c s' =>
      if keep c then String c (filter_chars keep s') else filter_chars keep s'
  end.

(** Truth value of a [str]. *)
Definition nonempty (s : string) : bool :=
  match s with EmptyString => false | _ => true end.

(** A [dict] from [str] to [str], in insertion order, keys unique. *)
Definition dict : Type := list (string * string).

Fixpoint get (d : dict) (k : string) : option string :=
  match d with
  | [] => None
  | (k', v) :: d' => if String.eqb k' k then Some v else get d' k
  end.

(** [k in d] *)
Definition contains (d : dict) (k : string) : bool :=
  match get d k with Some _ => true | None => false end.

(** [d[k] = v]: overwrite in place, or append a new key. *)
Fixpoint set (d : dict) (k v : string) : dict :=
  match d with
  | [] => [(k, v)]
  | (k', v') :: d' =>
      if String.eqb k' k then (k', v) :: d' else (k', v') :: set d' k v
  end.

Definition keys (d : dict) : list string := map fst d.

(** Truth value of [d.get(k)]: the key is present and its value non-empty. *)
Definition get_truthy (d : dict) (k : string) : bool :=
  match get d k with Some v => nonempty v | None => false end.

(** How many entries of [d] carry the key [k]. *)
Definition occurrences (d : dict) (k : string) : nat :=
  List.length (filter (fun e => String.eqb (fst e) k) d).

End Py.

(* ===================================================================== *)
(** ** [features/jobs.py]                                                 *)
(* ===================================================================== *)

Module Jobs.

Import Py.
Local Open Scope string_scope.

(** *** Label matching in [_fill_form_inputs] *)

(** The [field_mappings] literal, in source order (a [dict] literal is
    iterated in the order it is written). *)
Definition field_mappings : list (string * string) :=
  [ ("name", "full_name");
    ("first name", "full_name");
    ("last name", "full_name");
    ("phone", "phone");
    ("email", "email");
    ("address", "location");
    ("city", "location");
    ("years of experience", "years_of_experience");
    ("linkedin", "linkedin_profile");
    ("website", "linkedin_profile");
    ("salary", "expected_salary");
    ("notice period", "notice_period");
    ("university", "school");
    ("college", "school");
    ("institution", "school");
    ("gpa", "gpa");
    ("graduation date", "graduation_date");
    ("company", "current_company");
    ("job title", "current_job_title");
    ("years", "total_years_experience") ].

(** [label_pattern in field_label and profile_data.get(profile_key)] *)
Definition rule_applies (field_label : string) (profile_data : dict)
           (rule : string * string) : bool :=
  str_in (fst rule) field_label && get_truthy profile_data (snd rule).

(** [for label_pattern, profile_key in field_mappings.items(): ... break] *)
Fixpoint walk_mappings (mappings : list (string * string))
         (field_label : string) (profile_data : dict) : option string :=
  match mappings with
  | [] => None
  | rule :: rest =>
      if rule_applies field_label profile_data rule
      then Some (snd rule)
      else walk_mappings rest field_label profile_data
  end.

(** [for profile_key in profile_data: if profile_key.replace("_", " ") in
    field_label and profile_data.get(profile_key): ... break] *)
Fixpoint walk_profile_keys (ks : list string) (field_label : string)
         (profile_data : dict) : option string :=
  match ks with
  | [] => None
  | profile_key :: rest =>
      if str_in (replace_char "_" " " profile_key) field_label
         && get_truthy profile_data profile_key
      then Some profile_key
      else walk_profile_keys rest field_label profile_data
  end.

(** Truth value of [matched_key]: [None] and the empty string are false. *)
Definition key_truthy (matched_key : option string) : bool :=
  match matched_key with Some k => nonempty k | None => false end.

(** The value of [matched_key] after both loops, for a label as read from
    the page (before [.lower()]). *)
Definition resolve_input_label (field_label : string) (profile_data : dict)
  : option string :=
  let field_label := lower field_label in
  let matched_key := walk_mappings field_mappings field_label profile_data in
  if key_truthy matched_key then matched_key
  else walk_profile_keys (keys profile_data) field_label profile_data.

(** *** [_add_missing_field_to_config] *)

(** [config.toml] on disk: absent, present but not loadable, or parsed
    (its [profile] table may be missing). *)
Inductive config_file : Type :=
| NoFile
| Unreadable
| TomlFile (profile : option dict).

(** [CONFIG] in memory, reduced to its ["profile"] section, and the file. *)
Record config : Type := mkConfig {
  CONFIG_profile : option dict;
  CONFIG_FILE : config_file
}.

Definition profile_or_empty (p : option dict) : dict :=
  match p with Some d => d | None => [] end.

(** [re.sub(r'[^a-z0-9_]', '', field_key)] keeps exactly these. *)
Definition is_key_char (c : ascii) : bool :=
  let n := nat_of_ascii c in
  ((97 <=? n) && (n <=? 122) || (48 <=? n) && (n <=? 57) || (n =? 95))%nat.

Definition normalize_key (field_label : string) : string :=
  let field_key := strip (lower field_label) in
  let field_key := replace_char "-" "_" (replace_char " " "_" field_key) in
  filter_chars is_key_char field_key.

Definition _add_missing_field_to_config (field_label : string) (c : config)
  : config :=
  if (String.length field_label <? 3)%nat then c
  else
    let field_key := normalize_key field_label in
    if match CONFIG_profile c with
       | Some profile => contains profile field_key
       | None => false
       end
    then c
    else
      let in_memory := set (profile_or_empty (CONFIG_profile c)) field_key EmptyString in
      let on_disk :=
        match CONFIG_FILE c with
        | TomlFile profile =>
            TomlFile (Some (set (profile_or_empty profile) field_key EmptyString))
        | other => other
        end in
      mkConfig (Some in_memory) on_disk.

(** *** One text field of [_fill_form_inputs] *)

Inductive fill_action : Type :=
| Skipped                          (* no label: [continue] *)
| Filled (key value : string)      (* [send_keys(profile_data[matched_key])] *)
| NoData.                          (* handed to [_add_missing_field_to_config] *)

(** [profile_data] is [CONFIG.get("profile", {})]: the very dictionary held
    by [CONFIG] when the section exists, so additions made to [CONFIG] are
    seen through it; a fresh empty one otherwise. *)
Definition fill_input_field (aliased : bool) (raw_label : option string)
           (c : config) : fill_action * config :=
  let profile_data :=
    if aliased then profile_or_empty (CONFIG_profile c) else [] in
  match raw_label with
  | None => (Skipped, c)
  | Some EmptyString => (Skipped, c)
  | Some label =>
      let field_label := lower label in
      match resolve_input_label label profile_data with
      | Some matched_key =>
          match get profile_data matched_key with
          | Some value =>
              if nonempty matched_key && nonempty value
              then (Filled matched_key value, c)
              else (NoData, _add_missing_field_to_config field_label c)
          | None => (NoData, _add_missing_field_to_config field_label c)
          end
      | None => (NoData, _add_missing_field_to_config field_label c)
      end
  end.

(** The [for input_field in input_fields] loop, over the labels read from
    the page; returns what was done to each field. *)
Fixpoint fill_input_fields (aliased : bool) (labels : list (option string))
         (c : config) : list fill_action * config :=
  match labels with
  | [] => ([], c)
  | l :: rest =>
      let '(a, c1) := fill_input_field aliased l c in
      let '(acts, c2) := fill_input_fields aliased rest c1 in
      (a :: acts, c2)
  end.

Definition _fill_form_inputs (labels : list (option string)) (c : config)
  : list fill_action * config :=
  fill_input_fields (match CONFIG_profile c with Some _ => true | None => false end)
                    labels c.

(** *** The job campaign loop *)

(** What [apply_to_job(job_card)] does with one card.  Its body catches
    every [Exception], so the [retry] wrapper returns after one call. *)
Inductive job_card : Type :=
| Applied           (* success message found: both counters grow *)
| ViewedOnly        (* card opened, application not confirmed *)
| NotOpened.        (* [job_card.click()] raised *)

Record job_page : Type := mkJobPage {
  listings : list job_card;      (* [find_job_listings()]; [[]] also for [None] *)
  job_next_ok : bool             (* the 'Next' button is found and clicked *)
}.

Definition job_world : Type := nat -> job_page.

Record job_manager : Type := mkJobManager {
  application_count : Z;
  viewed_jobs_count : Z;
  max_applications : Z;
  job_results_page : nat
}.

(** [self.max_applications > 0 and
     self.application_count >= self.max_applications] *)
Definition limit_reached (m : job_manager) : bool :=
  ((max_applications m >? 0) && (application_count m >=? max_applications m))%Z.

Definition apply_to_job (card : job_card) (m : job_manager) : job_manager :=
  match card with
  | Applied =>
      mkJobManager (application_count m + 1) (viewed_jobs_count m + 1)
                   (max_applications m) (job_results_page m)
  | ViewedOnly =>
      mkJobManager (application_count m) (viewed_jobs_count m + 1)
                   (max_applications m) (job_results_page m)
  | NotOpened => m
  end.

(** [for job_card in job_cards: if <limit>: break; apply_to_job(job_card)] *)
Fixpoint apply_to_cards (cards : list job_card) (m : job_manager)
  : job_manager :=
  match cards with
  | [] => m
  | card :: rest =>
      if limit_reached m then m
      else apply_to_cards rest (apply_to_job card m)
  end.

Definition go_to_next_page (w : job_world) (m : job_manager)
  : job_manager * bool :=
  if job_next_ok (w (job_results_page m))
  then (mkJobManager (application_count m) (viewed_jobs_count m)
                     (max_applications m) (S (job_results_page m)), true)
  else (m, false).

(** The [while True] loop of [run_job_campaign]; [None] is "out of fuel". *)
Fixpoint campaign_loop (fuel : nat) (w : job_world) (m : job_manager)
  : option job_manager :=
  match fuel with
  | O => None
  | S fuel' =>
      if limit_reached m then Some m
      else
        match listings (w (job_results_page m)) with
        | [] =>
            let '(m1, ok) := go_to_next_page w m in
            if ok then campaign_loop fuel' w m1 else Some m1
        | job_cards =>
            let m1 := apply_to_cards job_cards m in
            let '(m2, ok) := go_to_next_page w m1 in
            if ok then campaign_loop fuel' w m2 else Some m2
        end
  end.

Record job_stats : Type := mkJobStats {
  successful_applications : Z;
  viewed_jobs : Z;
  stats_max_applications : Z
}.

(** [JobApplicationManager(browser)]: the only place where the two
    counters are set to 0. *)
Definition new_job_manager (MAX_APPLICATIONS : Z) : job_manager :=
  mkJobManager 0 0 MAX_APPLICATIONS 0.

(** [run_job_campaign] called on the manager [m].  The limit is replaced;
    [self.application_count] and [self.viewed_jobs_count] go on from where
    earlier calls left them; the search shows its first page.  [has_start]
    says whether a search URL or a keywords/location pair was given (without
    one the dictionary returned carries the literals 0 and 0);
    [MAX_APPLICATIONS] is the configured default, used when
    [max_applications] is [None]. *)
Definition run_job_campaign (MAX_APPLICATIONS : Z) (has_start : bool)
           (max_applications : option Z) (w : job_world) (fuel : nat)
           (m : job_manager)
  : option job_stats :=
  let limit := match max_applications with
               | Some n => n
               | None => MAX_APPLICATIONS
               end in
  if has_start then
    match campaign_loop fuel w
            (mkJobManager (application_count m) (viewed_jobs_count m) limit 0)
    with
    | Some m' => Some (mkJobStats (application_count m') (viewed_jobs_count m')
                                  (Jobs.max_applications m'))
    | None => None
    end
  else Some (mkJobStats 0 0 limit).

(** Three result pages with one job each that is applied to. *)
Definition three_job_pages : job_world :=
  fun p => nth p [mkJobPage [Applied] true; mkJobPage [Applied] true]
               (mkJobPage [Applied] false).

End Jobs.

(* ===================================================================== *)
(** ** [features/connections.py]                                          *)
(* ===================================================================== *)

Module Connections.

Local Open Scope Z_scope.

(** *** The Selenium driver, reduced to its windows *)

(** Window handles are opaque identifiers.  Windows appear and disappear
    only through the commands below.  A profile tab may still refuse to be
    entered (its page crashed, or it is being torn down): the environment
    decides that, see [tab_enterable] below. *)
Definition handle : Type := nat.

(** The exceptions that the modelled code tells apart; all derive from
    [Exception]. *)
Inductive exn : Type :=
| StaleElementReferenceException
| NoSuchElementException
| NoSuchWindowException
| WebDriverException.

Record driver : Type := mkDriver {
  window_handles : list handle;   (* open windows and tabs *)
  current : handle;               (* the window commands are sent to *)
  next_handle : handle;           (* supply of handles for new tabs *)
  results_window : handle;        (* the window showing the search results *)
  results_page : nat              (* which results page that window shows *)
}.

Definition is_open (h : handle) (d : driver) : bool :=
  existsb (Nat.eqb h) (window_handles d).

(** [driver.current_window_handle]: raises when the window is gone. *)
Definition current_window_handle (d : driver) : option handle :=
  if is_open (current d) d then Some (current d) else None.

(** [driver.switch_to.window(h)]: raises when [h] is not open. *)
Definition switch_to_window (h : handle) (d : driver) : option driver :=
  if is_open h d
  then Some (mkDriver (window_handles d) h (next_handle d)
                      (results_window d) (results_page d))
  else None.

(** [driver.close()]: closes the current window; the driver keeps pointing
    at the closed handle until it is switched. *)
Definition close (d : driver) : option driver :=
  if is_open (current d) d
  then Some (mkDriver (filter (fun h => negb (Nat.eqb h (current d)))
                              (window_handles d))
                      (current d) (next_handle d)
                      (results_window d) (results_page d))
  else None.

(** [execute_script("window.open(url, '_blank')")]: a new tab appears.
    [takes_focus] lets the environment decide whether the driver ends up
    pointing at the new tab. *)
Definition window_open (takes_focus : bool) (d : driver) : driver :=
  let h := next_handle d in
  mkDriver (window_handles d ++ [h])
           (if takes_focus then h else current d)
           (S h) (results_window d) (results_page d).

(** Commands that look for elements of the results page find them only
    when the driver points at the open results window. *)
Definition on_results (d : driver) : bool :=
  Nat.eqb (current d) (results_window d) && is_open (current d) d.

(** *** The pages *)

Inductive click_outcome : Type :=
| Clicked
| ClickStale        (* [StaleElementReferenceException] *)
| ClickError.       (* any other [Exception] *)

(** What happens when a 'Follow' button's profile is opened in a tab. *)
Inductive open_outcome : Type :=
| LinkMissing                    (* the ancestor or the profile link is not found *)
| Opened (takes_focus : bool).

Inductive button : Type :=
| FollowButton (o : open_outcome)
| ConnectButton (click : click_outcome) (sent : bool)
    (* [sent]: [send_connection_request()] returns [True] *)
| StaleButton       (* reading [button.text] raises the stale exception *)
| BrokenButton      (* reading [button.text] raises another exception *)
| OtherButton.      (* a text that is neither 'Follow' nor 'Connect' *)

Record page : Type := mkPage {
  found_first : list button;   (* first [find_connection_buttons()] *)
  found_retry : list button;   (* the same after the longer wait *)
  next_ok : bool               (* the 'Next' button is found and clicked *)
}.

(** One run of the body of [connect_in_profile_tab]. *)
Inductive attempt : Type :=
| Sent          (* request sent: returns [True], the counter grows *)
| NotSent       (* returns [False] *)
| Stale.        (* [StaleElementReferenceException] is re-raised *)

Record world : Type := mkWorld {
  pages : nat -> page;
  profile_attempt : handle -> nat -> attempt;
  tab_enterable : handle -> bool
    (* [false]: [switch_to.window(tab)] raises for this profile tab *)
}.

(** *** The manager *)

(** The log lines that matter, in the order they are written. *)
Inductive event : Type :=
| EvSearch (p : nat)               (* "Searching for Connect/Follow buttons" *)
| EvNavigate (p : nat) (ok : bool) (* "Navigating to next page" from page p *)
| EvProfile (tab : handle)         (* "Attempting to connect with profile in current tab" *)
| EvSent (n : Z)                   (* "Connection request #n sent successfully" *)
| EvLimit.                         (* "Maximum connections limit reached" *)

Record manager : Type := mkManager {
  drv : driver;
  connection_count : Z;
  main_window : option handle;
  max_connections : Z;
  log : list event
}.

Definition with_driver (d : driver) (m : manager) : manager :=
  mkManager d (connection_count m) (main_window m) (max_connections m) (log m).

Definition with_main (h : handle) (m : manager) : manager :=
  mkManager (drv m) (connection_count m) (Some h) (max_connections m) (log m).

Definition logged (e : event) (m : manager) : manager :=
  mkManager (drv m) (connection_count m) (main_window m) (max_connections m)
            (log m ++ [e]).

(** [self.connection_count += 1] followed by its log line. *)
Definition count_sent (m : manager) : manager :=
  let n := connection_count m + 1 in
  mkManager (drv m) n (main_window m) (max_connections m) (log m ++ [EvSent n]).

(** The window [process_opened_tabs] takes for the main one:
    [self.main_window], or the current window while that is not set. *)
Definition main_of (m : manager) : handle :=
  match main_window m with
  | Some h => h
  | None => current (drv m)
  end.

(** [0 < self.max_connections <= self.connection_count] *)
Definition limit_reached (m : manager) : bool :=
  (0 <? max_connections m) && (max_connections m <=? connection_count m).

(** *** [_open_profile_in_new_tab] *)

Definition _open_profile_in_new_tab (o : open_outcome) (m : manager)
  : manager * bool :=
  match o with
  | LinkMissing => (m, false)
  | Opened takes_focus =>
      match current_window_handle (drv m) with
      | None => (m, false)
      | Some current_tab =>
          let d1 := window_open takes_focus (drv m) in
          match switch_to_window current_tab d1 with
          | Some d2 => (with_driver d2 m, true)
          | None => (with_driver d1 m, false)
          end
      end
  end.

(** *** [process_connection_buttons] *)

(** The [try] block of the loop body, with both [except] clauses
    ([continue] in either case). *)
Definition process_button (b : button) (m : manager) : manager :=
  match b with
  | FollowButton o => fst (_open_profile_in_new_tab o m)
  | ConnectButton Clicked true => count_sent m
  | ConnectButton _ _ => m
  | StaleButton | BrokenButton | OtherButton => m
  end.

Fixpoint process_buttons (button_list : list button) (m : manager)
  : manager * bool :=
  match button_list with
  | [] => (m, true)
  | b :: rest =>
      if limit_reached m then (logged EvLimit m, false)
      else process_buttons rest (process_button b m)
  end.

(** The result is [Some True], [Some False] or [None]: [@safe_operation]
    turns an escaping exception into [None]. *)
Definition process_connection_buttons (button_list : list button)
           (m : manager) : manager * option bool :=
  match button_list with
  | [] => (m, Some true)
  | _ =>
      match main_window m with
      | Some _ =>
          let '(m1, r) := process_buttons button_list m in (m1, Some r)
      | None =>
          match current_window_handle (drv m) with
          | Some h =>
              let '(m1, r) := process_buttons button_list (with_main h m) in
              (m1, Some r)
          | None => (m, None)
          end
      end
  end.

Definition truthy (r : option bool) : bool :=
  match r with Some b => b | None => false end.

(** *** [connect_in_profile_tab] and [process_opened_tabs] *)

(** The body of [connect_in_profile_tab] in tab [tab], seen by [retry]. *)
Definition profile_body (w : world) (tab : handle)
  : Retry.operation bool exn :=
  fun i =>
    match profile_attempt w tab i with
    | Sent => Retry.Returned true
    | NotSent => Retry.Returned false
    | Stale => Retry.Raised StaleElementReferenceException
    end.

Fixpoint logged_n (n : nat) (e : event) (m : manager) : manager :=
  match n with
  | O => m
  | S n' => logged_n n' e (logged e m)
  end.

(** [@retry(max_attempts=2)] around the body; three units of fuel cover
    the two iterations. *)
Definition connect_in_profile_tab (w : world) (m : manager)
  : manager * Retry.result bool exn :=
  let tab := current (drv m) in
  match Retry.wrapper 2 (profile_body w tab) 3 with
  | Some r =>
      let m1 := logged_n (Retry.calls r) (EvProfile tab) m in
      match Retry.outcome_of r with
      | Retry.Ret true => (count_sent m1, Retry.Ret true)
      | other => (m1, other)
      end
  | None => (m, Retry.RetNone)
  end.

(** [try: self.driver.close() except Exception: pass] *)
Definition close_quietly (m : manager) : manager :=
  match close (drv m) with
  | Some d => with_driver d m
  | None => m
  end.

(** [self.driver.switch_to.window(tab)] inside the loop of
    [process_opened_tabs]: raises when the tab is gone or cannot be
    entered. *)
Definition enter_tab (w : world) (tab : handle) (d : driver) : option driver :=
  if tab_enterable w tab then switch_to_window tab d else None.

(** One iteration of [for i, tab in enumerate(tabs_to_process, 1)].  When
    the switch raises, the [except] clause closes the window the driver is
    on at that moment. *)
Definition drain_tab (w : world) (m : manager) (tab : handle) : manager :=
  match enter_tab w tab (drv m) with
  | None => close_quietly m
  | Some d1 =>
      let '(m2, r) := connect_in_profile_tab w (with_driver d1 m) in
      match r with
      | Retry.Exc _ => close_quietly m2
      | _ =>
          match close (drv m2) with
          | Some d3 => with_driver d3 m2
          | None => close_quietly m2
          end
      end
  end.

(** The outer [except Exception] of [process_opened_tabs]. *)
Definition back_to_main_quietly (m : manager) : manager :=
  match main_window m with
  | Some mw =>
      match switch_to_window mw (drv m) with
      | Some d => with_driver d m
      | None => m
      end
  | None => m
  end.

Definition process_opened_tabs (w : world) (m : manager) : manager * Z :=
  let initial_count := connection_count m in
  let with_main_set :=
    match main_window m with
    | Some mw => Some (mw, m)
    | None =>
        match current_window_handle (drv m) with
        | Some h => Some (h, with_main h m)
        | None => None
        end
    end in
  match with_main_set with
  | None =>
      let m' := back_to_main_quietly m in
      (m', connection_count m' - initial_count)
  | Some (mw, m1) =>
      let all_tabs := window_handles (drv m1) in
      let tabs_to_process := filter (fun tab => negb (Nat.eqb tab mw)) all_tabs in
      let m2 := fold_left (drain_tab w) tabs_to_process m1 in
      match switch_to_window mw (drv m2) with
      | Some d => let m3 := with_driver d m2 in
                  (m3, connection_count m3 - initial_count)
      | None => let m3 := back_to_main_quietly m2 in
                (m3, connection_count m3 - initial_count)
      end
  end.

(** *** Paging and the campaign loop *)

(** [go_to_next_page]: its body catches every [Exception], so the [retry]
    wrapper returns after one call. *)
Definition go_to_next_page (w : world) (m : manager) : manager * bool :=
  let d := drv m in
  let p := results_page d in
  if on_results d && next_ok (pages w p)
  then (logged (EvNavigate p true)
          (with_driver (mkDriver (window_handles d) (current d) (next_handle d)
                                 (results_window d) (S p)) m),
        true)
  else (logged (EvNavigate p false) m, false).

(** [find_connection_buttons]; [None] and the empty list are both [[]]. *)
Definition find_connection_buttons (w : world) (second_try : bool)
           (m : manager) : manager * list button :=
  let d := drv m in
  let p := results_page d in
  let buttons :=
    if on_results d
    then if second_try then found_retry (pages w p) else found_first (pages w p)
    else [] in
  (logged (EvSearch p) m, buttons).

Definition find_and_process_buttons (w : world) (m : manager)
  : manager * bool :=
  let '(m1, buttons) := find_connection_buttons w false m in
  match buttons with
  | [] =>
      let '(m2, buttons) := find_connection_buttons w true m1 in
      match buttons with
      | [] => go_to_next_page w m2
      | _ => let '(m3, r) := process_connection_buttons buttons m2 in
             (m3, truthy r)
      end
  | _ => let '(m3, r) := process_connection_buttons buttons m1 in
         (m3, truthy r)
  end.

(** The [while True] loop of [run_connection_campaign]; [None] is "out of
    fuel". *)
Fixpoint campaign_loop (fuel : nat) (w : world) (max_tabs : Z) (m : manager)
  : option manager :=
  match fuel with
  | O => None
  | S fuel' =>
      let '(m1, continue) := find_and_process_buttons w m in
      if negb continue then Some m1
      else
        let tab_count := Z.of_nat (List.length (window_handles (drv m1))) - 1 in
        let m2 := if tab_count >=? max_tabs
                  then fst (process_opened_tabs w m1)
                  else m1 in
        let '(m3, more) := go_to_next_page w m2 in
        if more then campaign_loop fuel' w max_tabs m3 else Some m3
  end.

(** The [finally] clause. *)
Definition finally_drain (w : world) (m : manager) : manager :=
  back_to_main_quietly (fst (process_opened_tabs w m)).

Inductive campaign_result : Type :=
| Statistics (successful_connections max_connections : Z)
| Propagated (e : exn).

(** [ConnectionManager(browser)] *)
Definition new_manager (MAX_CONNECTIONS : Z) (d : driver) : manager :=
  mkManager d 0 None MAX_CONNECTIONS [].

(** [driver.get(search_url)]: the current window shows results page 0. *)
Definition get_search_url (d : driver) : driver :=
  mkDriver (window_handles d) (current d) (next_handle d) (current d) 0.

(** [run_connection_campaign(search_url, max_tabs, max_connections)].
    [MAX_TABS] and [MAX_CONNECTIONS] are the configured defaults. *)
Definition run_connection_campaign (MAX_TABS MAX_CONNECTIONS : Z)
           (max_tabs max_connections : option Z)
           (w : world) (fuel : nat) (m : manager)
  : option (manager * campaign_result) :=
  let max_tabs := match max_tabs with
                  | Some 0 | None => MAX_TABS
                  | Some n => n
                  end in
  let limit := match max_connections with
               | Some n => n
               | None => MAX_CONNECTIONS
               end in
  let m := mkManager (drv m) (connection_count m) (main_window m) limit (log m) in
  match current_window_handle (drv m) with
  | None => Some (m, Propagated NoSuchWindowException)
  | Some h =>
      let m := with_driver (get_search_url (drv m)) (with_main h m) in
      match campaign_loop fuel w max_tabs m with
      | None => None
      | Some m1 =>
          let m2 := finally_drain w m1 in
          Some (m2, Statistics (connection_count m2) (Connections.max_connections m2))
      end
  end.

(** Every tab of the list can be entered. *)
Definition enterable (w : world) (tabs : list handle) : Prop :=
  Forall (fun tab => tab_enterable w tab = true) tabs.

(** While a drain of tabs that can be entered is under way the main
    window stays open: a tab that is gone is only ever met after the
    driver has moved off the main window, so the [close()] of the error
    path hits a tab. *)
Definition draining (mw : handle) (m : manager) (tabs : list handle) : Prop :=
  is_open mw (drv m) = true
  /\ Forall (fun tab => tab <> mw) tabs
  /\ (current (drv m) = mw ->
      Forall (fun tab => is_open tab (drv m) = true) tabs).


(** The state the campaign keeps between its steps: the driver sits on
    the results window, that window is open, and it is the one recorded
    as main window. *)
Definition settled (m : manager) : Prop :=
  main_window m = Some (results_window (drv m))
  /\ current (drv m) = results_window (drv m)
  /\ is_open (current (drv m)) (drv m) = true.

(** *** Sample worlds *)

Definition last_page (buttons : list button) : page :=
  mkPage buttons buttons false.

Definition inner_page (buttons : list button) : page :=
  mkPage buttons buttons true.

Definition book (ps : list page) : nat -> page :=
  fun p => nth p ps (last_page []).

(** A browser with one window, handle 0. *)
Definition one_window : driver := mkDriver [0%nat] 0%nat 1%nat 0%nat 0%nat.

(** One results page: a 'Follow' profile, then a 'Connect' button that
    works; the profile opened in the tab accepts the request at once. *)
Definition follow_then_connect : world :=
  mkWorld (book [last_page [FollowButton (Opened false);
                            ConnectButton Clicked true]])
          (fun _ _ => Sent) (fun _ => true).

(** Three results pages: nothing found on the first, one working
    'Connect' button on the second, nothing on the third. *)
Definition empty_first_page : world :=
  mkWorld (book [inner_page []; inner_page [ConnectButton Clicked true];
                 last_page []])
          (fun _ _ => NotSent) (fun _ => true).


(** A window with two profile tabs; in the first the page stays stale. *)
Definition two_tabs : driver := mkDriver [0%nat; 1%nat; 2%nat] 0%nat 3%nat 0%nat 0%nat.

Definition stale_first_tab : world :=
  mkWorld (book [])
          (fun tab _ => if Nat.eqb tab 1 then Stale else Sent)
          (fun _ => true).

(** The same window; the first tab cannot be entered, the second accepts
    the request. *)
Definition dead_first_tab : world :=
  mkWorld (book []) (fun _ _ => Sent) (fun tab => negb (Nat.eqb tab 1)).

End Connections.

(* ===================================================================== *)
(** ** [features/jobs.py]: the other field categories                     *)
(* ===================================================================== *)

Module Forms.

Import Py Jobs.
Local Open Scope string_scope.

(** The [dropdown_mappings], [textarea_mappings] and [radio_mappings]
    literals, in source order. *)
Definition dropdown_mappings : list (string * string) :=
  [ ("education", "education_level");
    ("degree", "education_level");
    ("field of study", "field_of_study");
    ("major", "field_of_study");
    ("authorization", "work_authorization");
    ("sponsorship", "require_sponsorship");
    ("relocate", "willing_to_relocate");
    ("work location", "remote_preference");
    ("remote", "remote_preference");
    ("language", "languages") ].

Definition textarea_mappings : list (string * string) :=
  [ ("reason", "reason_for_leaving");
    ("leaving", "reason_for_leaving");
    ("skills", "technical_skills");
    ("technical", "technical_skills");
    ("soft skills", "soft_skills");
    ("experience", "total_years_experience");
    ("additional information", "additional_information") ].

Definition radio_mappings : list (string * string) :=
  [ ("relocate", "willing_to_relocate");
    ("work remotely", "remote_preference");
    ("authorized", "work_authorization");
    ("sponsorship", "require_sponsorship") ].

(** The two matching loops, shared by text inputs, dropdowns, textareas
    and radio groups; only the table differs. *)
Definition resolve_label (mappings : list (string * string))
           (field_label : string) (profile_data : dict) : option string :=
  let field_label := lower field_label in
  let matched_key := walk_mappings mappings field_label profile_data in
  if key_truthy matched_key then matched_key
  else walk_profile_keys (keys profile_data) field_label profile_data.

(** [field_mappings] without its rules for "first name" and "last name". *)
Definition field_mappings_short : list (string * string) :=
  [ ("name", "full_name");
    ("phone", "phone");
    ("email", "email");
    ("address", "location");
    ("city", "location");
    ("years of experience", "years_of_experience");
    ("linkedin", "linkedin_profile");
    ("website", "linkedin_profile");
    ("salary", "expected_salary");
    ("notice period", "notice_period");
    ("university", "school");
    ("college", "school");
    ("institution", "school");
    ("gpa", "gpa");
    ("graduation date", "graduation_date");
    ("company", "current_company");
    ("job title", "current_job_title");
    ("years", "total_years_experience") ].

(** Position of the first item whose lowercased text passes [test]:
    [for x in items: if test(x.text.lower()): ...; break]. *)
Fixpoint first_match (test : string -> bool) (items : list string)
  : option nat :=
  match items with
  | [] => None
  | item :: rest =>
      if test (lower item) then Some O
      else option_map S (first_match test rest)
  end.

(** *** [_fill_form_dropdowns] *)

(** [option_text in user_value or user_value in option_text] *)
Definition option_matches (user_value option_text : string) : bool :=
  str_in option_text user_value || str_in user_value option_text.

Inductive choice_action : Type :=
| ChoiceSkipped                        (* no label: [continue] *)
| Chosen (key : string) (index : nat)  (* the option or label clicked *)
| NoneFits (key : string)              (* a value, but nothing to click *)
| ChoiceNoData.                        (* handed to [_add_missing_field_to_config] *)

Definition fill_dropdown (aliased : bool) (raw_label : option string)
           (options : list string) (c : config) : choice_action * config :=
  let profile_data :=
    if aliased then profile_or_empty (CONFIG_profile c) else [] in
  match raw_label with
  | None => (ChoiceSkipped, c)
  | Some EmptyString => (ChoiceSkipped, c)
  | Some label =>
      let field_label := lower label in
      match resolve_label dropdown_mappings label profile_data with
      | Some matched_key =>
          match get profile_data matched_key with
          | Some value =>
              if nonempty matched_key && nonempty value
              then
                let user_value := lower value in
                match first_match (option_matches user_value) options with
                | Some i => (Chosen matched_key i, c)
                | None => (NoneFits matched_key, c)
                end
              else (ChoiceNoData, _add_missing_field_to_config field_label c)
          | None => (ChoiceNoData, _add_missing_field_to_config field_label c)
          end
      | None => (ChoiceNoData, _add_missing_field_to_config field_label c)
      end
  end.

(** *** [_fill_form_textareas] *)

(** One textarea; the text input of [_fill_form_inputs] with another
    table. *)
Definition fill_textarea (aliased : bool) (raw_label : option string)
           (c : config) : fill_action * config :=
  let profile_data :=
    if aliased then profile_or_empty (CONFIG_profile c) else [] in
  match raw_label with
  | None => (Skipped, c)
  | Some EmptyString => (Skipped, c)
  | Some label =>
      let field_label := lower label in
      match resolve_label textarea_mappings label profile_data with
      | Some matched_key =>
          match get profile_data matched_key with
          | Some value =>
              if nonempty matched_key && nonempty value
              then (Filled matched_key value, c)
              else (NoData, _add_missing_field_to_config field_label c)
          | None => (NoData, _add_missing_field_to_config field_label c)
          end
      | None => (NoData, _add_missing_field_to_config field_label c)
      end
  end.

(** *** [_fill_form_radio_buttons] *)

(** [user_value in label_text or (("yes" in user_value and "yes" in
    label_text) or ("no" in user_value and "no" in label_text))] *)
Definition radio_matches (user_value label_text : string) : bool :=
  str_in user_value label_text
  || ((str_in "yes" user_value && str_in "yes" label_text)
      || (str_in "no" user_value && str_in "no" label_text)).

(** One [fieldset]; [legend] is [None] when it has no [legend] element
    ([NoSuchElementException], [continue]).  An empty legend text is not
    skipped here. *)
Definition fill_radio_group (aliased : bool) (legend : option string)
           (labels : list string) (c : config) : choice_action * config :=
  let profile_data :=
    if aliased then profile_or_empty (CONFIG_profile c) else [] in
  match legend with
  | None => (ChoiceSkipped, c)
  | Some label =>
      let field_label := lower label in
      match resolve_label radio_mappings label profile_data with
      | Some matched_key =>
          match get profile_data matched_key with
          | Some value =>
              if nonempty matched_key && nonempty value
              then
                let user_value := lower value in
                match first_match (radio_matches user_value) labels with
                | Some i => (Chosen matched_key i, c)
                | None => (NoneFits matched_key, c)
                end
              else (ChoiceNoData, _add_missing_field_to_config field_label c)
          | None => (ChoiceNoData, _add_missing_field_to_config field_label c)
          end
      | None => (ChoiceNoData, _add_missing_field_to_config field_label c)
      end
  end.

(** *** [_fill_form_checkboxes] *)

(** [value in ["yes", "true", "1", "checked"]] for the lowercased value. *)
Definition should_check (value : string) : bool :=
  existsb (String.eqb (lower value)) ["yes"; "true"; "1"; "checked"].

(** [field_key = field_label.replace(" ", "_")] on the lowercased label. *)
Definition checkbox_key (label : string) : string :=
  replace_char " " "_" (lower label).

Inductive checkbox_action : Type :=
| BoxSkipped        (* no label: [continue] *)
| BoxLeft           (* already in the wanted state: no click *)
| BoxClicked        (* [checkbox.click()] went through *)
| BoxClickFailed    (* [checkbox.click()] raised: logged, [continue] *)
| BoxNoData.        (* handed to [_add_missing_field_to_config] *)

(** One checkbox.  [is_selected] is its state before, [click_ok] says
    whether a click, if one is made, goes through; the result carries the
    state after. *)
Definition fill_checkbox (aliased : bool) (raw_label : option string)
           (is_selected click_ok : bool) (c : config)
  : checkbox_action * bool * config :=
  let profile_data :=
    if aliased then profile_or_empty (CONFIG_profile c) else [] in
  match raw_label with
  | None => (BoxSkipped, is_selected, c)
  | Some EmptyString => (BoxSkipped, is_selected, c)
  | Some label =>
      let field_label := lower label in
      let field_key := checkbox_key label in
      match get profile_data field_key with
      | Some value =>
          if nonempty value then
            let should_check := should_check value in
            if Bool.eqb should_check is_selected
            then (BoxLeft, is_selected, c)
            else if click_ok
                 then (BoxClicked, negb is_selected, c)
                 else (BoxClickFailed, is_selected, c)
          else (BoxNoData, is_selected,
                _add_missing_field_to_config field_label c)
      | None => (BoxNoData, is_selected,
                 _add_missing_field_to_config field_label c)
      end
  end.

(** *** Notions used to state properties of the form pass *)

(** Some character of [s] passes [p]. *)
Fixpoint any_char (p : ascii -> bool) (s : string) : bool :=
  match s with
  | EmptyString => false
  | String c s' => p c || any_char p s'
  end.

(** A character that is neither a key character nor a space. *)
Definition odd_char (c : ascii) : bool :=
  negb (is_key_char c) && negb (Ascii.eqb c " ").

(** [d'] is [d] followed by new keys, all with the empty value. *)
Definition grown_by_empties (d d' : dict) : Prop :=
  exists e : dict,
    d' = (d ++ e)%list
    /\ Forall (fun kv => snd kv = EmptyString) e
    /\ forall k, In k (keys e) -> get d k = None.

(** What a form pass sees as [profile_data]: the dictionary held by
    [CONFIG] when the pass began with a profile section, a fresh empty one
    otherwise (as in [fill_input_field]). *)
Definition profile_view (aliased : bool) (c : config) : dict :=
  if aliased then profile_or_empty (CONFIG_profile c) else [].

(** The profile in memory and the one in [config.toml] are the same. *)
Definition in_sync (c : config) : Prop :=
  exists d : dict,
    CONFIG_profile c = Some d /\ CONFIG_FILE c = TomlFile (Some d).

(** *** Totals of the job campaign *)

Local Open Scope Z_scope.

(** Cards of a page whose application is confirmed, and cards that are
    opened at all. *)
Fixpoint applied_on (cards : list job_card) : Z :=
  match cards with
  | [] => 0
  | Applied :: rest => 1 + applied_on rest
  | _ :: rest => applied_on rest
  end.

Fixpoint viewed_on (cards : list job_card) : Z :=
  match cards with
  | [] => 0
  | NotOpened :: rest => viewed_on rest
  | _ :: rest => 1 + viewed_on rest
  end.


End Forms.

(* ===================================================================== *)
(** ** [features/connections.py]: the invitation dialog                   *)
(* ===================================================================== *)

Module Modal.

Inductive exception : Type :=
| NoSuchElementException
| StaleElementReferenceException
| ElementNotInteractableException
| TimeoutException
| OtherException.

Definition is_no_such_element (e : exception) : bool :=
  match e with NoSuchElementException => true | _ => false end.

(** What [self.wait.until(ec.element_to_be_clickable(element)).click()]
    does at each try: [None] when the click goes through, the exception
    otherwise. *)
Definition clicks : Type := nat -> option exception.

(** [driver.find_element(By.XPATH, ...)] *)
Inductive lookup : Type :=
| Found (c : clicks)
| LookupRaises (e : exception).

(** The body of [wait_to_click], seen by [retry]: it returns [True] or
    re-raises. *)
Definition click_body (c : clicks) : Retry.operation bool exception :=
  fun i =>
    match c i with
    | None => Retry.Returned true
    | Some e => Retry.Raised e
    end.

(** [@retry(max_attempts=2)] around it. *)
Definition wait_to_click (c : clicks) : Retry.result bool exception :=
  match Retry.wrapper 2 (click_body c) 3 with
  | Some r => Retry.outcome_of r
  | None => Retry.RetNone
  end.

(** [b = find_element(...); self.wait_to_click(b)]: the exception that
    leaves the pair of statements, if any.  The value returned by
    [wait_to_click] is not looked at. *)
Definition find_and_click (l : lookup) : option exception :=
  match l with
  | LookupRaises e => Some e
  | Found c =>
      match wait_to_click c with
      | Retry.Exc e => Some e
      | _ => None
      end
  end.

Record dialog : Type := mkDialog {
  send_without_note : lookup;     (* SEND_WITHOUT_NOTE_XPATH *)
  send : lookup;                  (* SEND_BUTTON_XPATH *)
  dismiss : lookup                (* DISMISS_BUTTON_XPATH *)
}.

Inductive control : Type := SendWithoutNote | Send | Dismiss.

(** [send_connection_request] under [@safe_operation]: the value returned
    ([None] when an exception escapes the body) and the controls that were
    clicked. *)
Definition send_connection_request (d : dialog) : option bool * list control :=
  match find_and_click (send_without_note d) with
  | None => (Some true, [SendWithoutNote])
  | Some e =>
      if is_no_such_element e then
        match find_and_click (send d) with
        | None => (Some true, [Send])
        | Some e' =>
            if is_no_such_element e' then (Some false, []) else (None, [])
        end
      else
        match find_and_click (dismiss d) with
        | None => (Some false, [Dismiss])
        | Some _ => (Some false, [])
        end
  end.

Definition is_send (c : control) : bool :=
  match c with Dismiss => false | _ => true end.

(** A button that is there and takes the click at once, one that is
    covered by an overlay, and none. *)
Definition clickable : lookup := Found (fun _ => None).
Definition covered : lookup := Found (fun _ => Some ElementNotInteractableException).
Definition absent : lookup := LookupRaises NoSuchElementException.

End Modal.

(* ===================================================================== *)
(** ** [utils/helpers.py]: [adaptive_sleep]                               *)
(* ===================================================================== *)

Module Sleep.

Import Throttle.
Local Open Scope Q_scope.

(** The module globals. *)
Record clock : Type := mkClock {
  _sleep_call_count : Z;
  _last_sleep_time : Q
}.

(** The ways [sleep] is called: no argument, one number, one pair (a
    tuple, as [PAGE_LOAD_WAIT_RANGE]), or two numbers. *)
Inductive arguments : Type :=
| NoArguments
| Fixed (seconds : Q)
| Range (r : wait_range)
| MinMax (min_seconds max_seconds : Q).

Definition chosen_range (args : arguments) : wait_range :=
  match args with
  | MinMax min_seconds max_seconds => (min_seconds, max_seconds)
  | Range r => r
  | Fixed min_seconds => (min_seconds, min_seconds)
  | NoArguments => DEFAULT_WAIT_RANGE
  end.

(** [random.uniform(a, b)] is [a + (b - a) * random()]; [u] is the value
    of [random()]. *)
Definition uniform (a b u : Q) : Q := a + (b - a) * u.

(** [time_since_last_sleep < 0.1] *)
Definition rapid (time_since_last_sleep : Q) : bool :=
  negb (Qle_bool (1 # 10) time_since_last_sleep).

(** [adaptive_sleep]: [now] is the reading of [time.time()]; the result
    is the new state of the globals and the duration handed to
    [time.sleep]. *)
Definition adaptive_sleep (args : arguments) (now u : Q) (st : clock)
  : clock * Q :=
  let wait_range := chosen_range args in
  let count := (_sleep_call_count st + 1)%Z in
  let time_since_last_sleep := now - _last_sleep_time st in
  let adjusted_range := get_adjusted_sleep_range wait_range count in
  let adjusted_range :=
    if rapid time_since_last_sleep
    then (fst adjusted_range * (1 # 2), snd adjusted_range * (1 # 2))
    else adjusted_range in
  let duration := uniform (fst adjusted_range) (snd adjusted_range) u in
  (mkClock count now, duration).

(** A run of calls, each with its arguments, clock reading and random
    draw; the durations slept, in order. *)
Fixpoint sleeps (calls : list (arguments * Q * Q)) (st : clock)
  : clock * list Q :=
  match calls with
  | [] => (st, [])
  | (args, now, u) :: rest =>
      let '(st1, d) := adaptive_sleep args now u st in
      let '(st2, ds) := sleeps rest st1 in
      (st2, d :: ds)
  end.

End Sleep.

(* ===================================================================== *)
(** ** Notions used to state properties of the connection campaign        *)
(* ===================================================================== *)

Module Tabs.

Import Connections.

(** The handles [process_opened_tabs] walks through. *)
Definition secondary_tabs (mw : handle) (d : driver) : list handle :=
  filter (fun tab => negb (Nat.eqb tab mw)) (window_handles d).

(** No window is open besides the results window. *)
Definition only_main (m : manager) : Prop :=
  forall h, is_open h (drv m) = true -> h = results_window (drv m).

(** A button whose handling opens a tab. *)
Definition opens_tab (b : button) : bool :=
  match b with
  | FollowButton (Opened _) => true
  | _ => false
  end.

(** No results page ever shows such a button. *)
Definition no_tab_opened (w : world) : Prop :=
  forall p,
    forallb (fun b => negb (opens_tab b)) (found_first (pages w p)) = true
    /\ forallb (fun b => negb (opens_tab b)) (found_retry (pages w p)) = true.

(** Buttons of a list whose request goes out when they are handled. *)
Fixpoint sendable (button_list : list button) : Z :=
  match button_list with
  | [] => 0
  | ConnectButton Clicked true :: rest => 1 + sendable rest
  | _ :: rest => sendable rest
  end%Z.

(** [m'] is a later state of the campaign that was in state [m]: still
    on the same, open results window, with the same limit and a counter
    that has not gone down. *)
Definition carries_on (m m' : manager) : Prop :=
  settled m'
  /\ results_window (drv m') = results_window (drv m)
  /\ max_connections m' = max_connections m
  /\ (connection_count m <= connection_count m')%Z.

(** The campaign is within the limit [L], with no window open besides
    the results window. *)
Definition within (L : Z) (m : manager) : Prop :=
  settled m /\ only_main m /\ max_connections m = L
  /\ (connection_count m <= L)%Z.

(** A book of 'Connect' buttons only. *)
Definition connect_only : world :=
  mkWorld (book [inner_page [ConnectButton Clicked true;
                             ConnectButton Clicked true];
                 last_page [ConnectButton Clicked true;
                            ConnectButton Clicked true]])
          (fun _ _ => Sent) (fun _ => true).

End Tabs.
(* ===================================================================== *)
(** * Properties                                                          *)
(* ===================================================================== *)

(** ** The [retry] wrapper *)

Module RetryFacts.

Import Retry.

Section Loop.

Context {V E : Type}.
Variable func : operation V E.
Variable max_attempts : Z.

Local Open Scope Z_scope.

(** The loop stops once the fuel exceeds the attempts still allowed. *)
Lemma loop_terminates (fuel : nat) :
  forall attempts c s,
    (Z.to_nat (max_attempts - attempts) < fuel)%nat ->
    exists r, loop fuel func max_attempts attempts c s = Some r.
Proof.
  induction fuel as [|fuel IH]; intros a c s Hf; [lia|].
  cbn [loop].
  destruct (a <? max_attempts) eqn:Hlt; [|eauto].
  apply Z.ltb_lt in Hlt.
  destruct (func c) as [v|e]; [eauto|].
  destruct (a + 1 >=? max_attempts) eqn:Hge; [eauto|].
  apply IH. lia.
Qed.

(** Every iteration that calls [func] uses up one allowed attempt. *)
Lemma loop_calls_bound (fuel : nat) :
  forall attempts c s r,
    loop fuel func max_attempts attempts c s = Some r ->
    Z.of_nat (calls r) <= Z.of_nat c + Z.max 0 (max_attempts - attempts).
Proof.
  induction fuel as [|fuel IH]; intros a c s r H; [discriminate|].
  cbn [loop] in H.
  destruct (a <? max_attempts) eqn:Hlt.
  - apply Z.ltb_lt in Hlt.
    destruct (func c) as [v|e].
    + inversion H; subst; cbn. lia.
    + destruct (a + 1 >=? max_attempts) eqn:Hge.
      * inversion H; subst; cbn. lia.
      * apply IH in H. lia.
  - inversion H; subst; cbn. lia.
Qed.

(** One sleep between two consecutive calls, none after the last. *)
Lemma loop_sleeps (fuel : nat) :
  forall attempts c s r,
    loop fuel func max_attempts attempts c s = Some r ->
    attempts < max_attempts ->
    (calls r + s = S (sleeps r) + c)%nat.
Proof.
  induction fuel as [|fuel IH]; intros a c s r H Ha; [discriminate|].
  cbn [loop] in H.
  apply Z.ltb_lt in Ha. rewrite Ha in H.
  destruct (func c) as [v|e].
  - inversion H; subst; cbn. lia.
  - destruct (a + 1 >=? max_attempts) eqn:Hge.
    + inversion H; subst; cbn. lia.
    + apply IH in H; [lia|].
      rewrite Z.geb_leb in Hge. apply Z.leb_gt in Hge. lia.
Qed.

(** [j] failures followed by a success, all within the budget. *)
Lemma loop_first_success (j : nat) :
  forall fuel attempts c s v,
    all_raise func c j ->
    func (c + j)%nat = Returned v ->
    attempts + Z.of_nat j < max_attempts ->
    (j < fuel)%nat ->
    loop fuel func max_attempts attempts c s
    = Some (mkRun (Ret v) (S (c + j)) (s + j)).
Proof.
  induction j as [|j IH]; intros fuel a c s v Hall Hv Hlt Hf;
    (destruct fuel as [|fuel]; [lia|]); cbn [loop].
  - replace (a <? max_attempts) with true by (symmetry; apply Z.ltb_lt; lia).
    rewrite Nat.add_0_r in Hv. rewrite Hv.
    now rewrite !Nat.add_0_r.
  - replace (a <? max_attempts) with true by (symmetry; apply Z.ltb_lt; lia).
    destruct (Hall 0%nat ltac:(lia)) as [e He].
    rewrite Nat.add_0_r in He. rewrite He.
    replace (a + 1 >=? max_attempts) with false
      by (symmetry; rewrite Z.geb_leb; apply Z.leb_gt; lia).
    rewrite (IH fuel (a + 1) (S c) (S s) v).
    + f_equal; f_equal; lia.
    + intros i Hi. destruct (Hall (S i) ltac:(lia)) as [e' He'].
      exists e'. now replace (S c + i)%nat with (c + S i)%nat by lia.
    + now replace (S c + j)%nat with (c + S j)%nat by lia.
    + lia.
    + lia.
Qed.

(** Failures on every allowed attempt: the last exception comes out. *)
Lemma loop_all_fail (n : nat) :
  forall fuel attempts c s e,
    all_raise func c (S n) ->
    func (c + n)%nat = Raised e ->
    attempts + Z.of_nat (S n) = max_attempts ->
    (n < fuel)%nat ->
    loop fuel func max_attempts attempts c s
    = Some (mkRun (Exc e) (S (c + n)) (s + n)).
Proof.
  induction n as [|n IH]; intros fuel a c s e Hall He Hmax Hf;
    (destruct fuel as [|fuel]; [lia|]); cbn [loop].
  - replace (a <? max_attempts) with true by (symmetry; apply Z.ltb_lt; lia).
    rewrite Nat.add_0_r in He. rewrite He.
    replace (a + 1 >=? max_attempts) with true
      by (symmetry; rewrite Z.geb_leb; apply Z.leb_le; lia).
    now rewrite !Nat.add_0_r.
  - replace (a <? max_attempts) with true by (symmetry; apply Z.ltb_lt; lia).
    destruct (Hall 0%nat ltac:(lia)) as [e0 He0].
    rewrite Nat.add_0_r in He0. rewrite He0.
    replace (a + 1 >=? max_attempts) with false
      by (symmetry; rewrite Z.geb_leb; apply Z.leb_gt; lia).
    rewrite (IH fuel (a + 1) (S c) (S s) e).
    + f_equal; f_equal; lia.
    + intros i Hi. destruct (Hall (S i) ltac:(lia)) as [e' He'].
      exists e'. now replace (S c + i)%nat with (c + S i)%nat by lia.
    + now replace (S c + n)%nat with (c + S n)%nat by lia.
    + lia.
    + lia.
Qed.

End Loop.

(** The wrapper around [connect_in_profile_tab], [wait_to_click] and
    [go_to_next_page] ([max_attempts=2]) never runs out of its three units
    of fuel. *)
Lemma wrapper_two_attempts {V E : Type} (func : operation V E) :
  exists r, wrapper 2 func 3 = Some r /\ outcome_of r <> RetNone.
Proof.
  unfold wrapper. cbn.
  destruct (func 0%nat); [eexists; split; [reflexivity|discriminate]|].
  destruct (func 1%nat); eexists; (split; [reflexivity|discriminate]).
Qed.

Local Open Scope Z_scope.

(** C3. With [max_attempts = N >= 1] the wrapper returns (given fuel for
    its [N] iterations) after at most [N] invocations of the operation,
    sleeping once between two invocations.  If invocation [k <= N] is the
    first that does not raise, the wrapper returns its value after exactly
    [k] invocations and raises nothing.  If all [N] invocations raise, the
    exception of the last one is re-raised after exactly [N] invocations. *)
Theorem retry_attempts_bounded {V E : Type} (func : operation V E)
        (N : Z) (fuel : nat) :
  1 <= N ->
  (Z.to_nat N < fuel)%nat ->
  exists r,
    wrapper N func fuel = Some r
    /\ Z.of_nat (calls r) <= N
    /\ calls r = S (sleeps r)
    /\ (forall (k : nat) (v : V),
           (1 <= k)%nat -> Z.of_nat k <= N ->
           all_raise func 0 (k - 1) ->
           func (k - 1)%nat = Returned v ->
           outcome_of r = Ret v /\ calls r = k)
    /\ (forall e : E,
           all_raise func 0 (Z.to_nat N) ->
           func (Z.to_nat N - 1)%nat = Raised e ->
           outcome_of r = Exc e /\ Z.of_nat (calls r) = N).
Proof.
  intros HN Hfuel. unfold wrapper.
  destruct (loop_terminates func N fuel 0 0%nat 0%nat) as [r Hr]; [lia|].
  exists r. split; [exact Hr|].
  split; [apply loop_calls_bound in Hr; lia|].
  split; [apply loop_sleeps in Hr; lia|].
  split.
  - intros k v Hk HkN Hall Hv.
    rewrite (loop_first_success func N (k - 1) fuel 0 0%nat 0%nat v) in Hr;
      try assumption; try lia.
    inversion Hr; subst; cbn. split; [reflexivity|lia].
  - intros e Hall He.
    rewrite (loop_all_fail func N (Z.to_nat N - 1) fuel 0 0%nat 0%nat e) in Hr.
    + inversion Hr; subst; cbn. split; [reflexivity|lia].
    + now replace (S (Z.to_nat N - 1)) with (Z.to_nat N) by lia.
    + exact He.
    + lia.
    + lia.
Qed.

(** C3 at a concrete operation: stale twice, clickable on the third of
    three allowed attempts. *)
Lemma retry_attempts_bounded_witness :
  exists r,
    wrapper 3 flaky_click 4 = Some r
    /\ Z.of_nat (calls r) <= 3
    /\ calls r = S (sleeps r)
    /\ (forall (k : nat) (v : bool),
           (1 <= k)%nat -> Z.of_nat k <= 3 ->
           all_raise flaky_click 0 (k - 1) ->
           flaky_click (k - 1)%nat = Returned v ->
           outcome_of r = Ret v /\ calls r = k)
    /\ (forall e : nat,
           all_raise flaky_click 0 (Z.to_nat 3) ->
           flaky_click (Z.to_nat 3 - 1)%nat = Raised e ->
           outcome_of r = Exc e /\ Z.of_nat (calls r) = 3).
Proof.
  apply (retry_attempts_bounded flaky_click 3 4); [lia | cbn; lia].
Defined.

(** C10. With [max_attempts <= 0] the loop body is never entered: the
    wrapper returns [None] without calling the operation, without sleeping
    and without raising. *)
Theorem retry_nonpositive_returns_none {V E : Type} (func : operation V E)
        (N : Z) (fuel : nat) :
  N <= 0 ->
  (0 < fuel)%nat ->
  wrapper N func fuel = Some (mkRun RetNone 0 0).
Proof.
  intros HN Hfuel. unfold wrapper.
  destruct fuel as [|fuel]; [lia|]. cbn [loop].
  replace (0 <? N) with false by (symmetry; apply Z.ltb_ge; lia).
  reflexivity.
Qed.

Lemma retry_nonpositive_returns_none_witness :
  wrapper 0 never_clickable 1 = Some (mkRun RetNone 0 0).
Proof.
  apply (retry_nonpositive_returns_none never_clickable 0 1); lia.
Defined.

(** Scenario D: two stale failures, success on attempt 3 of 3. *)
Example retry_scenario_D :
  wrapper 3 flaky_click 4 = Some (mkRun (Ret true) 3 2).
Proof. reflexivity. Qed.

(** Three failures out of three: the third exception is re-raised. *)
Example retry_exhausted :
  wrapper 3 never_clickable 4 = Some (mkRun (Exc 2%nat) 3 2).
Proof. reflexivity. Qed.

End RetryFacts.

(** ** The adaptive wait range *)

Module ThrottleFacts.

Import Throttle.
Local Open Scope Q_scope.

Lemma ramp_le (c c' : Z) : (c <= c')%Z -> ramp c <= ramp c'.
Proof.
  intros H. unfold ramp, Qle, Qdiv, Qmult, Qinv, inject_Z. cbn. lia.
Qed.

Lemma ramp_pos (c : Z) : (50 < c)%Z -> 0 < ramp c.
Proof.
  intros H. unfold ramp, Qlt, Qdiv, Qmult, Qinv, inject_Z. cbn. lia.
Qed.

Lemma ramp_cap (c : Z) : (190 <= c)%Z -> 7 # 10 <= ramp c.
Proof.
  intros H. unfold ramp, Qle, Qdiv, Qmult, Qinv, inject_Z. cbn. lia.
Qed.

Lemma reduction_factor_le_cap (c : Z) : reduction_factor c <= 7 # 10.
Proof. apply Q.le_min_l. Qed.

Lemma reduction_factor_pos (c : Z) : (50 < c)%Z -> 0 < reduction_factor c.
Proof.
  intros H. unfold reduction_factor.
  apply Q.min_glb_lt; [reflexivity | now apply ramp_pos].
Qed.

Lemma reduction_factor_mono (c c' : Z) :
  (c <= c')%Z -> reduction_factor c <= reduction_factor c'.
Proof.
  intros H. unfold reduction_factor.
  apply Q.min_le_compat_l. now apply ramp_le.
Qed.

Lemma reduction_factor_saturated (c : Z) :
  (190 <= c)%Z -> reduction_factor c == 7 # 10.
Proof.
  intros H. unfold reduction_factor.
  apply Q.min_l. now apply ramp_cap.
Qed.

(** Shrinking a non-negative bound by a factor of at most 0.7 leaves at
    least 30% of it. *)
Lemma shrink_floor (x f : Q) : 0 <= x -> f <= 7 # 10 -> (3 # 10) * x <= x * (1 - f).
Proof. intros Hx Hf. nra. Qed.

(** C7. Up to 50 calls the range is returned unchanged.  Beyond 50 calls
    both bounds are multiplied by [1 - f], where the factor
    [f = min(0.7, (c - 50) / 200)] is positive, never above 0.7, grows
    with the call count, starts from 0 at 50 calls and has its full value
    0.7 at 250 calls (it has reached it at 190 already).  A bound that is
    not negative therefore keeps at least 30% of its value, at every call
    count. *)
Theorem adjusted_range_keeps_30_percent (lo hi : Q) (c : Z) :
  let adjusted := get_adjusted_sleep_range (lo, hi) c in
  let f := reduction_factor c in
  ((c <= 50)%Z -> adjusted = (lo, hi))
  /\ ((50 < c)%Z ->
      0 < f /\ f <= 7 # 10
      /\ fst adjusted == lo * (1 - f) /\ snd adjusted == hi * (1 - f))
  /\ (forall c' : Z, (c <= c')%Z -> f <= reduction_factor c')
  /\ reduction_factor 50 == 0
  /\ reduction_factor 250 == 7 # 10
  /\ ((190 <= c)%Z -> f == 7 # 10)
  /\ (0 <= lo -> (3 # 10) * lo <= fst adjusted)
  /\ (0 <= hi -> (3 # 10) * hi <= snd adjusted).
Proof.
  cbv zeta. unfold get_adjusted_sleep_range.
  split; [|split; [|split; [|split; [|split; [|split; [|split]]]]]].
  - intros Hc.
    now replace (c >? 50)%Z with false
      by (symmetry; rewrite Z.gtb_ltb; apply Z.ltb_ge; lia).
  - intros Hc.
    replace (c >? 50)%Z with true
      by (symmetry; rewrite Z.gtb_ltb; apply Z.ltb_lt; lia).
    cbn [fst snd].
    split; [now apply reduction_factor_pos|].
    split; [apply reduction_factor_le_cap|].
    split; reflexivity.
  - intros c' Hc. now apply reduction_factor_mono.
  - reflexivity.
  - reflexivity.
  - apply reduction_factor_saturated.
  - intros Hlo. destruct (c >? 50)%Z; cbn [fst].
    + apply shrink_floor; [exact Hlo | apply reduction_factor_le_cap].
    + nra.
  - intros Hhi. destruct (c >? 50)%Z; cbn [snd].
    + apply shrink_floor; [exact Hhi | apply reduction_factor_le_cap].
    + nra.
Qed.

(** C7 at the default range, after 50 and after 250 calls. *)
Lemma adjusted_range_keeps_30_percent_witness :
  get_adjusted_sleep_range DEFAULT_WAIT_RANGE 50 = DEFAULT_WAIT_RANGE
  /\ reduction_factor 250 <= 7 # 10
  /\ reduction_factor 250 <= reduction_factor 1000
  /\ (3 # 10) * 1 <= fst (get_adjusted_sleep_range DEFAULT_WAIT_RANGE 250)
  /\ (3 # 10) * 3 <= snd (get_adjusted_sleep_range DEFAULT_WAIT_RANGE 250).
Proof.
  pose proof (adjusted_range_keeps_30_percent 1 3 50) as H50.
  pose proof (adjusted_range_keeps_30_percent 1 3 250) as H250.
  cbv zeta in H50, H250.
  destruct H50 as (Hsame & _).
  destruct H250 as (_ & Hshrunk & Hmono & _ & _ & _ & H1 & H2).
  split; [apply Hsame; lia|].
  split; [apply Hshrunk; lia|].
  split; [apply Hmono; lia|].
  split; [apply H1 | apply H2]; unfold Qle; cbn; lia.
Defined.

(** The two configured ranges after 250 calls. *)
Example default_range_at_250 :
  get_adjusted_sleep_range DEFAULT_WAIT_RANGE 250 = (1 * (1 - (7 # 10)), 3 * (1 - (7 # 10))).
Proof. reflexivity. Qed.

Example default_range_at_50 :
  get_adjusted_sleep_range DEFAULT_WAIT_RANGE 50 = DEFAULT_WAIT_RANGE.
Proof. reflexivity. Qed.

End ThrottleFacts.

(** ** Dictionaries *)

Module PyFacts.

Import Py.

Lemma get_set_same (d : dict) (k v : string) : get (set d k v) k = Some v.
Proof.
  induction d as [|[k' v'] d IH]; cbn.
  - now rewrite String.eqb_refl.
  - destruct (String.eqb k' k) eqn:Hk; cbn; rewrite Hk; [reflexivity | exact IH].
Qed.

Lemma get_set_other (d : dict) (k v k0 : string) :
  k0 <> k -> get (set d k v) k0 = get d k0.
Proof.
  intros Hne. induction d as [|[k' v'] d IH]; cbn.
  - destruct (String.eqb k k0) eqn:Hk; [|reflexivity].
    apply String.eqb_eq in Hk. congruence.
  - destruct (String.eqb k' k) eqn:Hk; cbn.
    + apply String.eqb_eq in Hk. subst k'.
      destruct (String.eqb k k0) eqn:Hk0; [|reflexivity].
      apply String.eqb_eq in Hk0. congruence.
    + now rewrite IH.
Qed.

Lemma get_none_not_in (d : dict) (k : string) :
  get d k = None <-> ~ In k (keys d).
Proof.
  induction d as [|[k' v'] d IH]; cbn; [tauto|].
  destruct (String.eqb k' k) eqn:Hk.
  - apply String.eqb_eq in Hk. split; [discriminate | intros H; exfalso; apply H; now left].
  - apply String.eqb_neq in Hk. rewrite IH. tauto.
Qed.

(** Assigning to a key that is absent appends it. *)
Lemma set_absent (d : dict) (k v : string) :
  get d k = None -> set d k v = d ++ [(k, v)].
Proof.
  induction d as [|[k' v'] d IH]; cbn; [reflexivity|].
  destruct (String.eqb k' k); [discriminate|].
  intros H. now rewrite IH.
Qed.

Lemma set_absent_nodup (d : dict) (k v : string) :
  get d k = None -> NoDup (keys d) -> NoDup (keys (set d k v)).
Proof.
  intros Hnone Hnd. rewrite set_absent by exact Hnone.
  unfold keys. rewrite map_app. cbn.
  apply NoDup_app; [exact Hnd | repeat constructor; intros [] |].
  intros x Hx [Hk|[]]. subst x.
  now apply get_none_not_in in Hnone.
Qed.

Lemma contains_false_get (d : dict) (k : string) :
  contains d k = false -> get d k = None.
Proof. unfold contains. now destruct (get d k). Qed.

Lemma occurrences_absent (d : dict) (k : string) :
  get d k = None -> occurrences d k = 0%nat.
Proof.
  unfold occurrences.
  induction d as [|[k' v'] d IH]; cbn; [reflexivity|].
  destruct (String.eqb k' k); [discriminate | exact IH].
Qed.

Lemma occurrences_app (d1 d2 : dict) (k : string) :
  occurrences (d1 ++ d2) k = (occurrences d1 k + occurrences d2 k)%nat.
Proof. unfold occurrences. now rewrite filter_app, length_app. Qed.

End PyFacts.

(** ** Field resolution and profile growth *)

Module JobsFacts.

Import Py PyFacts Jobs.
Local Open Scope string_scope.

(** The loop over a rule table stops at the first rule that applies. *)
Lemma walk_mappings_first (before after : list (string * string))
      (rule : string * string) (field_label : string) (profile_data : dict) :
  Forall (fun r => rule_applies field_label profile_data r = false) before ->
  rule_applies field_label profile_data rule = true ->
  walk_mappings (before ++ rule :: after) field_label profile_data
  = Some (snd rule).
Proof.
  intros Hbefore Hrule.
  induction Hbefore as [|r before Hr _ IH]; cbn.
  - now rewrite Hrule.
  - now rewrite Hr.
Qed.

(** It yields nothing exactly when no rule applies. *)
Lemma walk_mappings_none (mappings : list (string * string))
      (field_label : string) (profile_data : dict) :
  walk_mappings mappings field_label profile_data = None
  <-> Forall (fun r => rule_applies field_label profile_data r = false) mappings.
Proof.
  induction mappings as [|r rest IH]; cbn.
  - split; [constructor | reflexivity].
  - destruct (rule_applies field_label profile_data r) eqn:Hr.
    + split; [discriminate | intros H; inversion H; congruence].
    + rewrite IH. split; [now constructor | intros H; now inversion H].
Qed.

(** No rule of the table targets the empty key. *)
Lemma field_mappings_keys_nonempty :
  Forall (fun r => nonempty (snd r) = true) field_mappings.
Proof. unfold field_mappings. repeat constructor. Qed.

(** Resolution at a rule that is the first to apply. *)
Lemma resolve_at_first_rule (label : string) (profile_data : dict)
      (before after : list (string * string)) (pattern key : string) :
  field_mappings = (before ++ (pattern, key) :: after)%list ->
  Forall (fun r => str_in (fst r) (lower label)
                   && get_truthy profile_data (snd r) = false) before ->
  str_in pattern (lower label) = true ->
  get_truthy profile_data key = true ->
  resolve_input_label label profile_data = Some key.
Proof.
  intros Hsplit Hbefore Hpat Hval.
  unfold resolve_input_label. rewrite Hsplit.
  rewrite (walk_mappings_first before after (pattern, key)).
  - cbn [snd key_truthy].
    assert (Hne : nonempty key = true).
    { pose proof field_mappings_keys_nonempty as Hall.
      rewrite Hsplit in Hall. apply Forall_app in Hall.
      destruct Hall as [_ Hall]. now inversion Hall. }
    now rewrite Hne.
  - exact Hbefore.
  - unfold rule_applies. cbn [fst snd]. now rewrite Hpat, Hval.
Qed.

(** C4. For every label and every profile: when the table splits into
    rules that do not apply, then a rule [(pattern, key)] whose pattern
    occurs in the lowercased label and whose key has a non-empty value,
    the resolution yields that [key].  In particular the label "Years of
    Experience" resolves to [years_of_experience] whenever that key has a
    non-empty value. *)
Theorem resolve_first_matching_rule (label : string) (profile_data : dict) :
  (forall (before after : list (string * string)) (pattern key : string),
      field_mappings = (before ++ (pattern, key) :: after)%list ->
      Forall (fun r => str_in (fst r) (lower label)
                       && get_truthy profile_data (snd r) = false) before ->
      str_in pattern (lower label) = true ->
      get_truthy profile_data key = true ->
      resolve_input_label label profile_data = Some key)
  /\ (get_truthy profile_data "years_of_experience" = true ->
      resolve_input_label "Years of Experience" profile_data
      = Some "years_of_experience").
Proof.
  split.
  - intros before after pattern key. apply resolve_at_first_rule.
  - intros Hval.
    apply (resolve_at_first_rule _ _
             [ ("name", "full_name"); ("first name", "full_name");
               ("last name", "full_name"); ("phone", "phone");
               ("email", "email"); ("address", "location");
               ("city", "location") ]
             (skipn 8 field_mappings)
             "years of experience").
    + reflexivity.
    + repeat constructor.
    + reflexivity.
    + exact Hval.
Qed.

(** C4 on two labels.  "Email Address" contains the patterns of two
    rules whose keys are both filled: the earlier one, ["email"], decides.
    "Years of Experience" goes to [years_of_experience] although the key
    of the later, shorter rule ["years"] is filled as well. *)
Lemma resolve_first_matching_rule_witness :
  resolve_input_label "Email Address"
    [ ("location", "Lisbon"); ("email", "ed@example.org") ]
  = Some "email"
  /\ resolve_input_label "Years of Experience"
       [ ("total_years_experience", "7"); ("years_of_experience", "5") ]
     = Some "years_of_experience".
Proof.
  split.
  - apply (proj1 (resolve_first_matching_rule
                    "Email Address"
                    [ ("location", "Lisbon"); ("email", "ed@example.org") ])
             [ ("name", "full_name"); ("first name", "full_name");
               ("last name", "full_name"); ("phone", "phone") ]
             (skipn 5 field_mappings) "email" "email").
    + reflexivity.
    + repeat constructor.
    + reflexivity.
    + reflexivity.
  - apply (proj2 (resolve_first_matching_rule
                    "Years of Experience"
                    [ ("total_years_experience", "7");
                      ("years_of_experience", "5") ])).
    reflexivity.
Defined.

(** What [_add_missing_field_to_config] does when it does something. *)
Lemma add_missing_field_cases (field_label : string) (c : config) :
  let key := normalize_key field_label in
  let before := profile_or_empty (CONFIG_profile c) in
  _add_missing_field_to_config field_label c = c
  \/ (get before key = None
      /\ CONFIG_profile (_add_missing_field_to_config field_label c)
         = Some (set before key EmptyString)).
Proof.
  cbv zeta. unfold _add_missing_field_to_config.
  destruct (String.length field_label <? 3)%nat; [now left|].
  destruct (CONFIG_profile c) as [profile|] eqn:Hp; cbn [profile_or_empty].
  - destruct (contains profile (normalize_key field_label)) eqn:Hc; [now left|].
    right. split; [now apply contains_false_get | reflexivity].
  - right. split; reflexivity.
Qed.

(** C5. Observing a label a second time changes nothing, neither in
    memory nor on disk.  The first observation adds the normalized key at
    most once: a profile without duplicate keys stays without duplicates
    and grows by at most one entry, which carries the empty value; and
    every entry that was there keeps its value. *)
Theorem add_missing_field_idempotent (field_label : string) (c : config) :
  let c1 := _add_missing_field_to_config field_label c in
  let key := normalize_key field_label in
  let before := profile_or_empty (CONFIG_profile c) in
  let after := profile_or_empty (CONFIG_profile c1) in
  _add_missing_field_to_config field_label c1 = c1
  /\ (NoDup (keys before) -> NoDup (keys after))
  /\ (List.length after <= S (List.length before))%nat
  /\ (occurrences after key <= Nat.max 1 (occurrences before key))%nat
  /\ (forall k v, get before k = Some v -> get after k = Some v)
  /\ (get before key = None -> c1 <> c -> get after key = Some EmptyString).
Proof.
  cbv zeta.
  destruct (add_missing_field_cases field_label c) as [Hsame|[Hnone Hadd]].
  - rewrite !Hsame. repeat split; try tauto; lia.
  - rewrite Hadd. cbn [profile_or_empty].
    split; [|split; [|split; [|split; [|split]]]].
    + unfold _add_missing_field_to_config at 1.
      destruct (String.length field_label <? 3)%nat; [reflexivity|].
      rewrite Hadd. unfold contains. now rewrite get_set_same.
    + intros Hnd. now apply set_absent_nodup.
    + rewrite set_absent by exact Hnone. rewrite length_app. cbn. lia.
    + rewrite set_absent by exact Hnone. rewrite occurrences_app.
      rewrite (occurrences_absent _ _ Hnone).
      unfold occurrences. cbn. rewrite String.eqb_refl. cbn. lia.
    + intros k v Hk.
      rewrite get_set_other; [exact Hk|]. intros ->. congruence.
    + intros _ _. apply get_set_same.
Qed.

(** C5 on Scenario F: "Favorite Color" against a profile with one filled
    key. *)
Lemma add_missing_field_idempotent_witness :
  let c := mkConfig (Some [("full_name", "Ed")])
                    (TomlFile (Some [("full_name", "Ed")])) in
  let c1 := _add_missing_field_to_config "favorite color" c in
  NoDup (keys (profile_or_empty (CONFIG_profile c1)))
  /\ get (profile_or_empty (CONFIG_profile c1)) "full_name" = Some "Ed"
  /\ get (profile_or_empty (CONFIG_profile c1)) "favorite_color" = Some EmptyString.
Proof.
  cbv zeta.
  pose proof (add_missing_field_idempotent "favorite color"
                (mkConfig (Some [("full_name", "Ed")])
                          (TomlFile (Some [("full_name", "Ed")])))) as H.
  cbv zeta in H.
  destruct H as (_ & Hnd & _ & _ & Hkeep & Hnew).
  split; [|split].
  - apply Hnd. cbn. repeat constructor. intros [].
  - apply Hkeep. reflexivity.
  - apply Hnew; [reflexivity | discriminate].
Defined.

(** The copy on disk keeps its values as well, as long as every key it
    holds is also known in memory (true after [load_config], and kept true
    by every addition). *)
Lemma add_missing_field_file_kept (field_label : string) (c : config)
      (on_disk : dict) :
  CONFIG_FILE c = TomlFile (Some on_disk) ->
  (forall k, get (profile_or_empty (CONFIG_profile c)) k = None ->
             get on_disk k = None) ->
  exists on_disk',
    CONFIG_FILE (_add_missing_field_to_config field_label c)
    = TomlFile (Some on_disk')
    /\ (forall k v, get on_disk k = Some v -> get on_disk' k = Some v)
    /\ (forall k, get (profile_or_empty
                         (CONFIG_profile
                            (_add_missing_field_to_config field_label c))) k
                  = None ->
                  get on_disk' k = None).
Proof.
  intros Hfile Hsub.
  unfold _add_missing_field_to_config.
  destruct (String.length field_label <? 3)%nat; [now exists on_disk|].
  set (key := normalize_key field_label).
  assert (Hadd : forall k, get (set (profile_or_empty (CONFIG_profile c)) key EmptyString) k = None ->
                           get (set on_disk key EmptyString) k = None).
  { intros k Hk. destruct (String.eqb_spec k key) as [->|Hne].
    - now rewrite get_set_same in Hk.
    - rewrite get_set_other in * by exact Hne. now apply Hsub. }
  assert (Hkeep : get (profile_or_empty (CONFIG_profile c)) key = None ->
                  forall k v, get on_disk k = Some v ->
                              get (set on_disk key EmptyString) k = Some v).
  { intros Hnone k v Hk. rewrite get_set_other; [exact Hk|].
    intros ->. rewrite (Hsub _ Hnone) in Hk. discriminate. }
  destruct (CONFIG_profile c) as [profile|] eqn:Hp; cbn [profile_or_empty] in *.
  - destruct (contains profile key) eqn:Hc.
    + exists on_disk. rewrite Hp. cbn [profile_or_empty]. now repeat split.
    + cbn [CONFIG_FILE CONFIG_profile]. rewrite Hfile. cbn [profile_or_empty].
      exists (set on_disk key EmptyString). split; [reflexivity|].
      split; [apply Hkeep; now apply contains_false_get | exact Hadd].
  - cbn [CONFIG_FILE CONFIG_profile]. rewrite Hfile. cbn [profile_or_empty].
    exists (set on_disk key EmptyString). split; [reflexivity|].
    split; [now apply Hkeep | exact Hadd].
Qed.

(** Scenario F, end to end: two fields with the same unknown label. *)
Example favorite_color_twice :
  _fill_form_inputs
    [Some "Favorite Color"; Some "Favorite Color"]
    (mkConfig (Some [("full_name", "Ed")]) (TomlFile (Some [("full_name", "Ed")])))
  = ([NoData; NoData],
     mkConfig (Some [("full_name", "Ed"); ("favorite_color", EmptyString)])
              (TomlFile (Some [("full_name", "Ed"); ("favorite_color", EmptyString)]))).
Proof. reflexivity. Qed.

(** *** The job campaign without a limit *)

Local Open Scope Z_scope.

Lemma apply_to_job_frame (card : job_card) (m : job_manager) :
  max_applications (apply_to_job card m) = max_applications m
  /\ job_results_page (apply_to_job card m) = job_results_page m.
Proof. now destruct card. Qed.

Lemma apply_to_cards_frame (cards : list job_card) :
  forall m,
    max_applications (apply_to_cards cards m) = max_applications m
    /\ job_results_page (apply_to_cards cards m) = job_results_page m.
Proof.
  induction cards as [|card rest IH]; intros m; cbn; [tauto|].
  destruct (limit_reached m); [tauto|].
  destruct (IH (apply_to_job card m)) as [H1 H2].
  destruct (apply_to_job_frame card m) as [H3 H4].
  split; congruence.
Qed.

(** With limit 0 the check never fires, whatever the count. *)
Lemma job_limit_never_reached (m : job_manager) :
  max_applications m = 0 -> limit_reached m = false.
Proof. unfold limit_reached. now intros ->. Qed.

(** With limit 0 every card of the page is tried. *)
Lemma apply_to_cards_unlimited (cards : list job_card) :
  forall m,
    max_applications m = 0 ->
    apply_to_cards cards m = fold_left (fun acc card => apply_to_job card acc) cards m.
Proof.
  induction cards as [|card rest IH]; intros m Hm; cbn; [reflexivity|].
  rewrite (job_limit_never_reached m Hm).
  apply IH. now rewrite (proj1 (apply_to_job_frame card m)).
Qed.



End JobsFacts.

(** ** Tabs and focus *)

Module ConnectionsFacts.

Import Connections.
Local Open Scope Z_scope.

(** *** The driver *)

Lemma is_open_window_open (h : handle) (takes_focus : bool) (d : driver) :
  is_open h d = true -> is_open h (window_open takes_focus d) = true.
Proof.
  unfold is_open, window_open. cbn [window_handles]. rewrite existsb_app.
  intros H. apply orb_true_iff. left. exact H.
Qed.

Lemma current_window_handle_some (d : driver) (h : handle) :
  current_window_handle d = Some h -> h = current d /\ is_open h d = true.
Proof.
  unfold current_window_handle.
  destruct (is_open (current d) d) eqn:Hopen; [|discriminate].
  intros H; inversion H; subst. now split.
Qed.

Lemma switch_to_window_open (h : handle) (d : driver) :
  is_open h d = true ->
  switch_to_window h d
  = Some (mkDriver (window_handles d) h (next_handle d)
                   (results_window d) (results_page d)).
Proof. unfold switch_to_window. now intros ->. Qed.

Lemma is_open_after_close (h : handle) (d d' : driver) :
  close d = Some d' -> h <> current d -> is_open h d = true ->
  is_open h d' = true.
Proof.
  unfold close. destruct (is_open (current d) d); [|discriminate].
  intros H Hne Hopen. inversion H; subst; clear H.
  unfold is_open in *. cbn.
  apply existsb_exists in Hopen. destruct Hopen as [x [Hin Hx]].
  apply Nat.eqb_eq in Hx. subst x.
  apply existsb_exists. exists h. split; [|apply Nat.eqb_refl].
  apply filter_In. split; [exact Hin|].
  apply negb_true_iff, Nat.eqb_neq. exact Hne.
Qed.

Lemma close_frame (d d' : driver) :
  close d = Some d' ->
  current d' = current d
  /\ results_window d' = results_window d
  /\ results_page d' = results_page d.
Proof.
  unfold close. destruct (is_open (current d) d); [|discriminate].
  intros H. inversion H; subst. now cbn.
Qed.

(** *** [_open_profile_in_new_tab] *)

(** Whatever the outcome, the manager differs from the old one at most in
    the set of open windows, which can only grow. *)
Lemma open_profile_frame (o : open_outcome) (m : manager) :
  let m' := fst (_open_profile_in_new_tab o m) in
  current (drv m') = current (drv m)
  /\ results_window (drv m') = results_window (drv m)
  /\ results_page (drv m') = results_page (drv m)
  /\ connection_count m' = connection_count m
  /\ main_window m' = main_window m
  /\ max_connections m' = max_connections m
  /\ (forall h, is_open h (drv m) = true -> is_open h (drv m') = true).
Proof.
  cbv zeta. unfold _open_profile_in_new_tab.
  destruct o as [|takes_focus]; [cbn; tauto|].
  destruct (current_window_handle (drv m)) as [current_tab|] eqn:Hcur;
    [|cbn; tauto].
  apply current_window_handle_some in Hcur. destruct Hcur as [-> Hopen].
  rewrite switch_to_window_open by now apply is_open_window_open.
  cbn. repeat split; try reflexivity.
  intros h Hh. rewrite existsb_app. apply orb_true_iff. left. exact Hh.
Qed.

(** C8. Opening the profile of a 'Follow' target in a new tab never
    moves the driver: the current window handle after
    [_open_profile_in_new_tab] is the one before it, whether the link is
    found or not and whether or not the new tab grabbed the focus. *)
Theorem open_profile_keeps_focus (o : open_outcome) (m : manager) :
  current (drv (fst (_open_profile_in_new_tab o m))) = current (drv m).
Proof. exact (proj1 (open_profile_frame o m)). Qed.

(** A tab that takes the focus when it opens: the call still ends on the
    window it started from, with the new tab 1 open behind it. *)
Example open_profile_focus_taken :
  let m' := fst (_open_profile_in_new_tab (Opened true) (new_manager 60 one_window)) in
  current (drv m') = 0%nat /\ window_handles (drv m') = [0%nat; 1%nat].
Proof. split; reflexivity. Qed.

(** *** [connect_in_profile_tab] *)

Lemma logged_n_frame (n : nat) (e : event) :
  forall m,
    drv (logged_n n e m) = drv m
    /\ connection_count (logged_n n e m) = connection_count m
    /\ main_window (logged_n n e m) = main_window m
    /\ max_connections (logged_n n e m) = max_connections m.
Proof.
  induction n as [|n IH]; intros m; cbn; [tauto|].
  destruct (IH (logged e m)) as (H1 & H2 & H3 & H4).
  now rewrite H1, H2, H3, H4.
Qed.

(** The profile page is worked on in place: no window is opened, closed
    or switched to. *)
Lemma connect_in_profile_tab_frame (w : world) (m : manager) :
  let m' := fst (connect_in_profile_tab w m) in
  drv m' = drv m
  /\ main_window m' = main_window m
  /\ max_connections m' = max_connections m
  /\ connection_count m <= connection_count m' <= connection_count m + 1.
Proof.
  cbv zeta. unfold connect_in_profile_tab.
  destruct (Retry.wrapper 2 (profile_body w (current (drv m))) 3) as [r|];
    [|cbn; repeat split; lia].
  destruct (logged_n_frame (Retry.calls r) (EvProfile (current (drv m))) m)
    as (H1 & H2 & H3 & H4).
  destruct (Retry.outcome_of r) as [[|]| |]; cbn;
    rewrite ?H1, ?H2, ?H3, ?H4; repeat split; lia.
Qed.

(** *** [process_opened_tabs] *)

Lemma close_quietly_frame (m : manager) :
  current (drv (close_quietly m)) = current (drv m)
  /\ results_window (drv (close_quietly m)) = results_window (drv m)
  /\ results_page (drv (close_quietly m)) = results_page (drv m)
  /\ main_window (close_quietly m) = main_window m
  /\ max_connections (close_quietly m) = max_connections m
  /\ connection_count (close_quietly m) = connection_count m
  /\ (forall h, h <> current (drv m) -> is_open h (drv m) = true ->
                is_open h (drv (close_quietly m)) = true).
Proof.
  unfold close_quietly.
  destruct (close (drv m)) as [d|] eqn:Hclose; [|cbn; tauto].
  destruct (close_frame _ _ Hclose) as (H1 & H2 & H3).
  cbn. repeat split; try assumption.
  intros h Hne Hopen. now apply (is_open_after_close h (drv m)).
Qed.

Lemma drain_tab_keeps_main (w : world) (mw tab : handle) (m : manager)
      (rest : list handle) :
  tab_enterable w tab = true ->
  draining mw m (tab :: rest) ->
  draining mw (drain_tab w m tab) rest
  /\ current (drv (drain_tab w m tab)) <> mw
  /\ results_window (drv (drain_tab w m tab)) = results_window (drv m)
  /\ results_page (drv (drain_tab w m tab)) = results_page (drv m)
  /\ main_window (drain_tab w m tab) = main_window m
  /\ max_connections (drain_tab w m tab) = max_connections m
  /\ connection_count m <= connection_count (drain_tab w m tab).
Proof.
  intros Hent (Hmain & Htabs & Hfirst).
  inversion Htabs as [|? ? Htab Hrest]; subst.
  unfold drain_tab, enter_tab. rewrite Hent.
  destruct (is_open tab (drv m)) eqn:Hopen.
  - (* the tab is entered *)
    rewrite (switch_to_window_open tab (drv m) Hopen).
    set (m1 := with_driver _ m).
    destruct (connect_in_profile_tab w m1) as [m2 r] eqn:Hconnect.
    pose proof (connect_in_profile_tab_frame w m1) as Hframe.
    rewrite Hconnect in Hframe. cbn [fst] in Hframe.
    destruct Hframe as (Hd & Hmw & Hmax & Hcount).
    assert (Hcur2 : current (drv m2) = tab) by now rewrite Hd.
    assert (Hopen2 : is_open mw (drv m2) = true) by now rewrite Hd.
    assert (Hquiet :
              draining mw (close_quietly m2) rest
              /\ current (drv (close_quietly m2)) <> mw
              /\ results_window (drv (close_quietly m2)) = results_window (drv m)
              /\ results_page (drv (close_quietly m2)) = results_page (drv m)
              /\ main_window (close_quietly m2) = main_window m
              /\ max_connections (close_quietly m2) = max_connections m
              /\ connection_count m <= connection_count (close_quietly m2)).
    { destruct (close_quietly_frame m2) as (C1 & C2 & C3 & C4 & C5 & C6 & C7).
      rewrite C1, C2, C3, C4, C5, C6, Hcur2, Hd, Hmw, Hmax.
      repeat split; try assumption; try reflexivity.
      - apply C7; [congruence | exact Hopen2].
      - intros Heq. congruence.
      - cbn in Hcount. lia. }
    destruct r as [v| |e]; try exact Hquiet;
      (destruct (close (drv m2)) as [d3|] eqn:Hclose; [|exact Hquiet]);
      unfold close_quietly in Hquiet; rewrite Hclose in Hquiet; exact Hquiet.
  - (* the tab is gone: the driver is not on the main window *)
    unfold switch_to_window. rewrite Hopen.
    assert (Hoff : current (drv m) <> mw).
    { intros Heq. specialize (Hfirst Heq).
      inversion Hfirst; subst. congruence. }
    destruct (close_quietly_frame m) as (C1 & C2 & C3 & C4 & C5 & C6 & C7).
    rewrite C1, C2, C3, C4, C5, C6.
    repeat split; try assumption; try reflexivity; try lia.
    apply C7; [congruence | exact Hmain].
Qed.

Lemma drain_keeps_main (w : world) (mw : handle) (tabs : list handle) :
  forall m,
    enterable w tabs ->
    draining mw m tabs ->
    let m' := fold_left (drain_tab w) tabs m in
    is_open mw (drv m') = true
    /\ results_window (drv m') = results_window (drv m)
    /\ results_page (drv m') = results_page (drv m)
    /\ main_window m' = main_window m
    /\ max_connections m' = max_connections m
    /\ connection_count m <= connection_count m'.
Proof.
  induction tabs as [|tab rest IH]; intros m Hent Hinv; cbn.
  - destruct Hinv as (Hmain & _). repeat split; try assumption; lia.
  - inversion Hent as [|? ? Htab Hrest]; subst.
    destruct (drain_tab_keeps_main w mw tab m rest Htab Hinv)
      as (Hnext & _ & H1 & H2 & H3 & H4 & H5).
    specialize (IH _ Hrest Hnext). cbv zeta in IH.
    destruct IH as (I0 & I1 & I2 & I3 & I4 & I5).
    repeat split; try congruence. lia.
Qed.

(** The tabs picked by [process_opened_tabs] are open and are not the
    main window. *)
Lemma tabs_to_process_draining (mw : handle) (m : manager) :
  is_open mw (drv m) = true ->
  draining mw m
    (filter (fun tab => negb (Nat.eqb tab mw)) (window_handles (drv m))).
Proof.
  intros Hmain. repeat split; [exact Hmain| |intros _]; apply Forall_forall;
    intros tab Hin; apply filter_In in Hin; destruct Hin as [Hin Hne].
  - now apply negb_true_iff, Nat.eqb_neq in Hne.
  - unfold is_open. apply existsb_exists. exists tab.
    split; [exact Hin | apply Nat.eqb_refl].
Qed.

Lemma enterable_all (w : world) (tabs : list handle) :
  (forall tab, tab_enterable w tab = true) -> enterable w tabs.
Proof. intros H. apply Forall_forall. intros tab _. apply H. Qed.

(** What a drain leaves behind when the main window is open and every
    tab it walks through can be entered. *)
Lemma process_opened_tabs_main (w : world) (m : manager) :
  is_open (main_of m) (drv m) = true ->
  enterable w (filter (fun tab => negb (Nat.eqb tab (main_of m)))
                      (window_handles (drv m))) ->
  let m' := fst (process_opened_tabs w m) in
  current (drv m') = main_of m
  /\ is_open (main_of m) (drv m') = true
  /\ main_window m' = Some (main_of m)
  /\ results_window (drv m') = results_window (drv m)
  /\ results_page (drv m') = results_page (drv m)
  /\ max_connections m' = max_connections m
  /\ connection_count m <= connection_count m'.
Proof.
  intros Hmain Hent. cbv zeta. unfold process_opened_tabs.
  set (mw := main_of m) in *.
  assert (Hset : match main_window m with
                 | Some mw0 => Some (mw0, m)
                 | None =>
                     match current_window_handle (drv m) with
                     | Some h => Some (h, with_main h m)
                     | None => None
                     end
                 end
                 = Some (mw, match main_window m with
                             | Some _ => m
                             | None => with_main mw m
                             end)).
  { subst mw. unfold main_of in *.
    destruct (main_window m); [reflexivity|].
    unfold current_window_handle. now rewrite Hmain. }
  rewrite Hset. clear Hset.
  set (m1 := match main_window m with Some _ => m | None => with_main mw m end).
  assert (Hm1 : drv m1 = drv m /\ main_window m1 = Some mw
                 /\ max_connections m1 = max_connections m
                 /\ connection_count m1 = connection_count m).
  { subst m1 mw. unfold main_of. destruct (main_window m) eqn:E; cbn; tauto. }
  destruct Hm1 as (Hd1 & Hmw1 & Hmax1 & Hc1).
  assert (Hopen1 : is_open mw (drv m1) = true) by now rewrite Hd1.
  assert (Hent1 : enterable w (filter (fun tab => negb (Nat.eqb tab mw))
                                      (window_handles (drv m1))))
    by now rewrite Hd1.
  pose proof (drain_keeps_main w mw _ m1 Hent1
                               (tabs_to_process_draining mw m1 Hopen1))
    as Hdrain.
  cbv zeta in Hdrain.
  set (m2 := fold_left (drain_tab w) _ m1) in *.
  destruct Hdrain as (D0 & D1 & D2 & D3 & D4 & D5).
  rewrite (switch_to_window_open mw (drv m2) D0). cbn.
  repeat split; try congruence; try lia.
  exact D0.
Qed.

(** When the main window is open and every tab can be entered, the
    drain returns with the driver on the main window, whatever happens
    inside the tabs. *)
Lemma drain_ends_on_main_when_entered (w : world) (m : manager) :
  is_open (main_of m) (drv m) = true ->
  enterable w (filter (fun tab => negb (Nat.eqb tab (main_of m)))
                      (window_handles (drv m))) ->
  let m' := fst (process_opened_tabs w m) in
  current (drv m') = main_of m
  /\ is_open (current (drv m')) (drv m') = true
  /\ main_window m' = Some (current (drv m')).
Proof.
  intros Hmain Hent. cbv zeta.
  destruct (process_opened_tabs_main w m Hmain Hent) as (H1 & H2 & H3 & _).
  rewrite H1. now repeat split.
Qed.

(** C2. [process_opened_tabs] does not always end on the main window.
    The driver is on the open main window 0, tabs 1 and 2 are open, and
    [switch_to.window] raises for tab 1.  The handler of the loop closes
    the window the driver is on, which is the main window; tab 2 is then
    entered, its request is sent, and it is closed.  Both attempts to
    switch back to the main window raise and are swallowed: the call
    returns 1 with the main window closed and the driver left on the
    handle of tab 2. *)
Theorem drain_closes_main_window :
  let m := mkManager two_tabs 0 (Some 0%nat) 0 [] in
  let '(m', made) := process_opened_tabs dead_first_tab m in
  current (drv m) = 0%nat
  /\ is_open 0%nat (drv m) = true
  /\ main_window m' = Some 0%nat
  /\ is_open 0%nat (drv m') = false
  /\ current (drv m') = 2%nat
  /\ current (drv m') <> 0%nat
  /\ window_handles (drv m') = [1%nat]
  /\ made = 1
  /\ log m' = [EvProfile 2%nat; EvSent 1].
Proof. cbv zeta. vm_compute. repeat split; try reflexivity; discriminate. Qed.

(** Where the handler raises inside the first of two tabs that can both
    be entered, the drain does end on the main window. *)
Example drain_ends_on_main_after_stale_tab :
  let m' := fst (process_opened_tabs stale_first_tab (new_manager 60 two_tabs)) in
  current (drv m') = 0%nat
  /\ is_open (current (drv m')) (drv m') = true
  /\ main_window m' = Some (current (drv m')).
Proof.
  apply (drain_ends_on_main_when_entered stale_first_tab (new_manager 60 two_tabs)).
  - reflexivity.
  - repeat constructor.
Qed.

(** In that run both tabs are closed and the second one's request counts. *)
Example drain_after_stale_tab :
  let '(m', made) := process_opened_tabs stale_first_tab (new_manager 60 two_tabs) in
  window_handles (drv m') = [0%nat] /\ made = 1
  /\ log m' = [EvProfile 1%nat; EvProfile 1%nat; EvProfile 2%nat; EvSent 1].
Proof. repeat split; reflexivity. Qed.

(** *** The campaign keeps the driver on the results window *)

(** Splits conjunctions, leaving [settled] folded. *)
Ltac split_ands := repeat match goal with |- _ /\ _ => split end.

Lemma settled_logged (e : event) (m : manager) :
  settled m -> settled (logged e m).
Proof. unfold settled, logged. now cbn. Qed.

Lemma process_button_settled (b : button) (m : manager) :
  settled m ->
  settled (process_button b m)
  /\ results_page (drv (process_button b m)) = results_page (drv m)
  /\ max_connections (process_button b m) = max_connections m
  /\ connection_count m <= connection_count (process_button b m)
     <= connection_count m + 1.
Proof.
  intros Hs.
  destruct b as [o|click sent| | |]; cbn [process_button];
    try (split_ands; try assumption; try reflexivity; lia).
  - destruct (open_profile_frame o m) as (F1 & F2 & F3 & F4 & F5 & F6 & F7).
    destruct Hs as (Hmw & Hcur & Hopen).
    unfold settled. rewrite F1, F2, F3, F4, F5, F6.
    split_ands; try assumption; try reflexivity; try lia.
    apply F7. exact Hopen.
  - destruct click, sent;
      try (split_ands; try assumption; try reflexivity; lia).
    destruct Hs as (Hmw & Hcur & Hopen).
    unfold settled, count_sent. cbn.
    split_ands; try assumption; try reflexivity; lia.
Qed.

(** The inline path keeps to a positive limit. *)
Lemma process_buttons_within_limit (button_list : list button) :
  forall m,
    settled m ->
    0 < max_connections m ->
    connection_count m <= max_connections m ->
    connection_count (fst (process_buttons button_list m)) <= max_connections m.
Proof.
  induction button_list as [|b rest IH]; intros m Hs Hpos Hle;
    cbn [process_buttons]; [exact Hle|].
  destruct (limit_reached m) eqn:Hlim; [exact Hle|].
  destruct (process_button_settled b m Hs) as (Hs' & _ & Hmax & Hcount).
  specialize (IH (process_button b m) Hs').
  rewrite Hmax in IH. apply IH; [exact Hpos|].
  unfold limit_reached in Hlim.
  apply andb_false_iff in Hlim. destruct Hlim as [Hlim|Hlim].
  - apply Z.ltb_ge in Hlim. lia.
  - apply Z.leb_gt in Hlim. lia.
Qed.




Lemma on_results_settled (m : manager) : settled m -> on_results (drv m) = true.
Proof.
  intros (_ & Hcur & Hopen). unfold on_results.
  rewrite Hopen, Hcur. now rewrite Nat.eqb_refl.
Qed.



Lemma process_opened_tabs_settled (w : world) (m : manager) :
  settled m ->
  enterable w (filter (fun tab => negb (Nat.eqb tab (main_of m)))
                      (window_handles (drv m))) ->
  settled (fst (process_opened_tabs w m))
  /\ results_page (drv (fst (process_opened_tabs w m))) = results_page (drv m)
  /\ max_connections (fst (process_opened_tabs w m)) = max_connections m.
Proof.
  intros (Hmw & Hcur & Hopen) Hent.
  assert (Hmain : main_of m = results_window (drv m))
    by (unfold main_of; now rewrite Hmw).
  assert (Hin : is_open (main_of m) (drv m) = true)
    by (rewrite Hmain, <- Hcur; exact Hopen).
  destruct (process_opened_tabs_main w m Hin Hent)
    as (H1 & H2 & H3 & H4 & H5 & H6 & _).
  unfold settled. rewrite H1, H3, H4, H5, H6, Hmain.
  split_ands; try reflexivity.
  rewrite Hmain in H2. exact H2.
Qed.

Lemma finally_drain_settled (w : world) (m : manager) :
  settled m ->
  enterable w (filter (fun tab => negb (Nat.eqb tab (main_of m)))
                      (window_handles (drv m))) ->
  settled (finally_drain w m)
  /\ results_page (drv (finally_drain w m)) = results_page (drv m)
  /\ max_connections (finally_drain w m) = max_connections m.
Proof.
  intros Hs Hent. unfold finally_drain.
  destruct (process_opened_tabs_settled w m Hs Hent) as (Hs' & Hp & Hmax).
  set (m1 := fst (process_opened_tabs w m)) in *.
  unfold back_to_main_quietly.
  destruct Hs' as (Hmw & Hcur & Hopen). rewrite Hmw.
  rewrite switch_to_window_open by (rewrite <- Hcur; exact Hopen).
  unfold settled. cbn. rewrite <- Hcur.
  split_ands; try assumption; try reflexivity.
  now rewrite Hcur.
Qed.

(** *** What a drain does in any state *)

(** Closing never opens a window. *)
Lemma close_shrinks (d d' : driver) (h : handle) :
  close d = Some d' -> is_open h d' = true -> is_open h d = true.
Proof.
  unfold close. destruct (is_open (current d) d); [|discriminate].
  intros H. inversion H; subst; clear H. unfold is_open. cbn.
  rewrite !existsb_exists. intros [x [Hin Hx]].
  apply filter_In in Hin. exists x. tauto.
Qed.

Lemma close_quietly_shrinks (m : manager) (h : handle) :
  is_open h (drv (close_quietly m)) = true -> is_open h (drv m) = true.
Proof.
  unfold close_quietly. destruct (close (drv m)) as [d|] eqn:Hc; [|easy].
  cbn. now apply close_shrinks.
Qed.

(** One tab of the loop, entered or not: the results page, the recorded
    main window and the limit stay, and no window is opened. *)
Lemma drain_tab_frame (w : world) (m : manager) (tab : handle) :
  let m' := drain_tab w m tab in
  results_window (drv m') = results_window (drv m)
  /\ results_page (drv m') = results_page (drv m)
  /\ main_window m' = main_window m
  /\ max_connections m' = max_connections m
  /\ (forall h, is_open h (drv m') = true -> is_open h (drv m) = true).
Proof.
  cbv zeta.
  assert (Hquiet : forall m0,
             results_window (drv m0) = results_window (drv m) ->
             results_page (drv m0) = results_page (drv m) ->
             main_window m0 = main_window m ->
             max_connections m0 = max_connections m ->
             (forall h, is_open h (drv m0) = true -> is_open h (drv m) = true) ->
             results_window (drv (close_quietly m0)) = results_window (drv m)
             /\ results_page (drv (close_quietly m0)) = results_page (drv m)
             /\ main_window (close_quietly m0) = main_window m
             /\ max_connections (close_quietly m0) = max_connections m
             /\ (forall h, is_open h (drv (close_quietly m0)) = true ->
                           is_open h (drv m) = true)).
  { intros m0 H1 H2 H3 H4 H5.
    destruct (close_quietly_frame m0) as (_ & C2 & C3 & C4 & C5 & _).
    rewrite C2, C3, C4, C5. split_ands; try assumption.
    intros h Hh. apply H5. now apply close_quietly_shrinks. }
  unfold drain_tab, enter_tab.
  destruct (tab_enterable w tab); [|now apply Hquiet].
  unfold switch_to_window.
  destruct (is_open tab (drv m)); [|now apply Hquiet].
  set (m1 := with_driver _ m).
  destruct (connect_in_profile_tab w m1) as [m2 r] eqn:Hconnect.
  pose proof (connect_in_profile_tab_frame w m1) as Hframe.
  rewrite Hconnect in Hframe. cbn [fst] in Hframe.
  destruct Hframe as (Hd & Hmw & Hmax & _).
  assert (Hq : results_window (drv (close_quietly m2)) = results_window (drv m)
               /\ results_page (drv (close_quietly m2)) = results_page (drv m)
               /\ main_window (close_quietly m2) = main_window m
               /\ max_connections (close_quietly m2) = max_connections m
               /\ (forall h, is_open h (drv (close_quietly m2)) = true ->
                             is_open h (drv m) = true)).
  { apply Hquiet; rewrite ?Hd, ?Hmw, ?Hmax; try reflexivity.
    intros h Hh. exact Hh. }
  destruct r as [v| |e]; try exact Hq;
    (destruct (close (drv m2)) as [d3|] eqn:Hclose; [|exact Hq]);
    unfold close_quietly in Hq; rewrite Hclose in Hq; exact Hq.
Qed.

Lemma drain_frame (w : world) (tabs : list handle) :
  forall m,
    let m' := fold_left (drain_tab w) tabs m in
    results_window (drv m') = results_window (drv m)
    /\ results_page (drv m') = results_page (drv m)
    /\ main_window m' = main_window m
    /\ max_connections m' = max_connections m
    /\ (forall h, is_open h (drv m') = true -> is_open h (drv m) = true).
Proof.
  induction tabs as [|tab rest IH]; intros m; cbn [fold_left].
  - cbv zeta. split_ands; try reflexivity. tauto.
  - destruct (drain_tab_frame w m tab) as (H1 & H2 & H3 & H4 & H5).
    specialize (IH (drain_tab w m tab)). cbv zeta in IH.
    destruct IH as (I1 & I2 & I3 & I4 & I5).
    cbv zeta. split_ands; try congruence.
    intros h Hh. apply H5, I5, Hh.
Qed.

Lemma back_to_main_quietly_same (m : manager) :
  results_window (drv (back_to_main_quietly m)) = results_window (drv m)
  /\ results_page (drv (back_to_main_quietly m)) = results_page (drv m)
  /\ max_connections (back_to_main_quietly m) = max_connections m
  /\ window_handles (drv (back_to_main_quietly m)) = window_handles (drv m).
Proof.
  unfold back_to_main_quietly.
  destruct (main_window m) as [mw|]; [|now split_ands].
  unfold switch_to_window. destruct (is_open mw (drv m)); now split_ands.
Qed.





(** The second attempt of the [except] clause repeats the switch that has
    just failed: it never gets the driver anywhere. *)
Lemma back_to_main_quietly_idle (m : manager) (mw : handle) :
  main_window m = Some mw ->
  switch_to_window mw (drv m) = None ->
  back_to_main_quietly m = m.
Proof. intros Hmw Hfail. unfold back_to_main_quietly. now rewrite Hmw, Hfail. Qed.


End ConnectionsFacts.

(** ** The campaigns *)

Module CampaignFacts.

Import Connections ConnectionsFacts.
Local Open Scope Z_scope.



(** The state in which [run_connection_campaign] enters its loop. *)
Lemma campaign_start_settled (m : manager) (limit : Z) (h : handle) :
  current_window_handle (drv m) = Some h ->
  settled (with_driver (get_search_url (drv m))
             (with_main h
                (mkManager (drv m) (connection_count m) (main_window m)
                           limit (log m)))).
Proof.
  intros Hcur. apply current_window_handle_some in Hcur.
  destruct Hcur as [-> Hopen].
  unfold settled. cbn. split_ands; try reflexivity. exact Hopen.
Qed.



(** C1. A limit of 1, one results page with a 'Follow' target and a
    working 'Connect' button: the inline request reaches the limit, and
    the drain of the 'Follow' tab in the [finally] clause sends a second
    request.  The campaign reports 2 successes against a limit of 1. *)
Theorem drained_tab_exceeds_limit :
  exists m',
    run_connection_campaign 3 60 (Some 3) (Some 1) follow_then_connect 2
                            (new_manager 60 one_window)
    = Some (m', Statistics 2 1)
    /\ connection_count m' = 2
    /\ max_connections m' = 1
    /\ log m' = [EvSearch 0; EvSent 1; EvNavigate 0 false;
                 EvProfile 1%nat; EvSent 2].
Proof. eexists. repeat split; reflexivity. Qed.

(** C9. Three results pages, the first without buttons, no limit: after
    the second empty discovery on page 0 the 'Next' control is used twice
    in a row, and page 1, which holds a working 'Connect' button, is never
    searched.  The campaign ends on page 2 with no request sent. *)
Theorem empty_page_skips_next_page :
  exists m',
    run_connection_campaign 3 60 (Some 3) (Some 0) empty_first_page 3
                            (new_manager 60 one_window)
    = Some (m', Statistics 0 0)
    /\ log m' = [EvSearch 0; EvSearch 0; EvNavigate 0 true; EvNavigate 1 true;
                 EvSearch 2; EvSearch 2; EvNavigate 2 false]
    /\ ~ In (EvSearch 1) (log m')
    /\ found_first (pages empty_first_page 1) = [ConnectButton Clicked true].
Proof.
  eexists. split; [reflexivity|]. split; [reflexivity|].
  split; [|reflexivity].
  cbn. intros H. repeat (destruct H as [H|H]; [discriminate|]). exact H.
Qed.

(** The same book through the job campaign's loop, which [continue]s
    after turning an empty page: the card on page 1 is applied to. *)
Example job_campaign_visits_every_page :
  Jobs.run_job_campaign 10 true (Some 0)
    (fun p => nth p [Jobs.mkJobPage [] true;
                     Jobs.mkJobPage [Jobs.Applied] true]
                    (Jobs.mkJobPage [] false)) 4
    (Jobs.new_job_manager 10)
  = Some (Jobs.mkJobStats 1 1 0).
Proof. reflexivity. Qed.

End CampaignFacts.

(* ===================================================================== *)
(** * Further properties                                                  *)
(* ===================================================================== *)

(** ** The [retry] wrapper, call by call *)

Module RetryMore.

Import Retry.
Local Open Scope Z_scope.

Section Calls.

Context {V E : Type}.
Variable func : operation V E.
Variable max_attempts : Z.

(** Where the loop is entered with attempts left, it ends on a call of
    [func]: every call before that one raised, and what comes out is what
    that call gave; an exception comes out only when the budget is used
    up by it. *)
Lemma loop_ends_on_a_call (fuel : nat) :
  forall attempts c s r,
    attempts < max_attempts ->
    loop fuel func max_attempts attempts c s = Some r ->
    exists n : nat,
      calls r = S (c + n) /\ sleeps r = (s + n)%nat
      /\ all_raise func c n
      /\ attempts + Z.of_nat n < max_attempts
      /\ ((exists v, outcome_of r = Ret v /\ func (c + n)%nat = Returned v)
          \/ (exists e, outcome_of r = Exc e /\ func (c + n)%nat = Raised e
                        /\ attempts + Z.of_nat (S n) = max_attempts)).
Proof.
  induction fuel as [|fuel IH]; intros a c s r Ha H; [discriminate|].
  cbn [loop] in H.
  replace (a <? max_attempts) with true in H by (symmetry; apply Z.ltb_lt; lia).
  destruct (func c) as [v|e] eqn:Hc.
  - inversion H; subst; clear H. exists 0%nat. cbn.
    rewrite !Nat.add_0_r.
    split; [reflexivity|]. split; [reflexivity|].
    split; [intros i Hi; lia|]. split; [lia|].
    left. exists v. now split.
  - destruct (a + 1 >=? max_attempts) eqn:Hge.
    + rewrite Z.geb_leb in Hge. apply Z.leb_le in Hge.
      inversion H; subst; clear H. exists 0%nat. cbn.
      rewrite !Nat.add_0_r.
      split; [reflexivity|]. split; [reflexivity|].
      split; [intros i Hi; lia|]. split; [lia|].
      right. exists e. repeat split; [exact Hc | lia].
    + rewrite Z.geb_leb in Hge. apply Z.leb_gt in Hge.
      apply IH in H; [|lia].
      destruct H as (n & Hcalls & Hsleeps & Hall & Hlt & Hout).
      exists (S n).
      split; [rewrite Hcalls; lia|]. split; [rewrite Hsleeps; lia|].
      split.
      { intros i Hi. destruct i as [|i].
        - exists e. now rewrite Nat.add_0_r.
        - destruct (Hall i ltac:(lia)) as [e' He']. exists e'.
          now replace (c + S i)%nat with (S c + i)%nat by lia. }
      split; [lia|].
      replace (c + S n)%nat with (S c + n)%nat by lia.
      destruct Hout as [(v & Ho & Hf)|(e' & Ho & Hf & Hmax)].
      * left. exists v. now split.
      * right. exists e'. repeat split; try assumption. lia.
Qed.

End Calls.

(** X1. Whenever the wrapper returns, it either made no call at all
    (only for [max_attempts <= 0], and then it yields [None]), or it ended
    on its last call: all earlier calls raised, there was one sleep before
    each further call, the value or exception that comes out is the one of
    the last call, and an exception comes out only from call number
    [max_attempts].  So with [max_attempts >= 1] the wrapper never yields
    [None] by itself. *)
Theorem retry_outcome_is_last_call {V E : Type} (func : operation V E)
        (N : Z) (fuel : nat) (r : run V E) :
  wrapper N func fuel = Some r ->
  (N <= 0 /\ r = mkRun RetNone 0 0)
  \/ (1 <= N
      /\ exists n : nat,
          calls r = S n /\ sleeps r = n
          /\ all_raise func 0 n
          /\ Z.of_nat (S n) <= N
          /\ ((exists v, outcome_of r = Ret v /\ func n = Returned v)
              \/ (exists e, outcome_of r = Exc e /\ func n = Raised e
                            /\ Z.of_nat (S n) = N))).
Proof.
  intros H. unfold wrapper in H.
  destruct (Z.le_gt_cases N 0) as [Hle|Hgt].
  - left. split; [exact Hle|].
    destruct fuel as [|fuel]; [discriminate|]. cbn [loop] in H.
    replace (0 <? N) with false in H by (symmetry; apply Z.ltb_ge; lia).
    now inversion H.
  - right. split; [lia|].
    apply loop_ends_on_a_call in H; [|lia].
    destruct H as (n & Hcalls & Hsleeps & Hall & Hlt & Hout).
    exists n. cbn in Hcalls, Hsleeps, Hout.
    split; [exact Hcalls|]. split; [exact Hsleeps|].
    split; [exact Hall|]. split; [lia|].
    destruct Hout as [Hv|(e & Ho & Hf & Hmax)]; [now left|].
    right. exists e. repeat split; try assumption; lia.
Qed.

(** X1 on the element that is stale twice. *)
Lemma retry_outcome_is_last_call_witness :
  let r : run bool nat := mkRun (Ret true) 3 2 in
  (3 <= 0 /\ r = mkRun RetNone 0 0)
  \/ (1 <= 3
      /\ exists n : nat,
          calls r = S n /\ sleeps r = n
          /\ all_raise flaky_click 0 n
          /\ Z.of_nat (S n) <= 3
          /\ ((exists v, outcome_of r = Ret v /\ flaky_click n = Returned v)
              \/ (exists e, outcome_of r = Exc e /\ flaky_click n = Raised e
                            /\ Z.of_nat (S n) = 3))).
Proof.
  apply (retry_outcome_is_last_call flaky_click 3 4 (mkRun (Ret true) 3 2)).
  reflexivity.
Defined.

End RetryMore.

(** ** [adaptive_sleep] *)

Module SleepFacts.

Import Throttle Sleep ThrottleFacts.
Local Open Scope Q_scope.

Lemma uniform_between (a b u : Q) :
  a <= b -> 0 <= u -> u <= 1 -> a <= uniform a b u /\ uniform a b u <= b.
Proof. unfold uniform. intros Hab Hu0 Hu1. split; nra. Qed.

(** The adjusted range of a range that is not negative and not inverted
    is not inverted either, sits below the upper bound asked for and keeps
    30% of the lower one. *)
Lemma adjusted_range_ordered (lo hi : Q) (c : Z) :
  0 <= lo -> lo <= hi ->
  (3 # 10) * lo <= fst (get_adjusted_sleep_range (lo, hi) c)
  /\ fst (get_adjusted_sleep_range (lo, hi) c)
     <= snd (get_adjusted_sleep_range (lo, hi) c)
  /\ snd (get_adjusted_sleep_range (lo, hi) c) <= hi.
Proof.
  intros Hlo Hhi. unfold get_adjusted_sleep_range.
  destruct (c >? 50)%Z eqn:Hc; cbn [fst snd].
  - pose proof (reduction_factor_le_cap c) as Hcap.
    assert (Hpos : 0 < reduction_factor c).
    { apply reduction_factor_pos. rewrite Z.gtb_ltb in Hc.
      now apply Z.ltb_lt in Hc. }
    set (f := reduction_factor c) in *.
    repeat split; nra.
  - repeat split; nra.
Qed.

Lemma rapid_false (gap : Q) : 1 # 10 <= gap -> rapid gap = false.
Proof.
  intros H. unfold rapid. apply Qle_bool_iff in H. now rewrite H.
Qed.

(** X2. For a range that is not negative and not inverted and a draw in
    [0, 1], the duration slept is never longer than the upper bound asked
    for and never shorter than 15% of the lower bound, whatever the call
    count and the time since the last call; when less than 0.1 has passed
    since the last call it is at most half the upper bound.  The call
    counter grows by one and the clock reading is remembered. *)
Theorem sleep_duration_bounds (args : arguments) (now u : Q) (st : clock) :
  0 <= fst (chosen_range args) ->
  fst (chosen_range args) <= snd (chosen_range args) ->
  0 <= u -> u <= 1 ->
  let '(st', duration) := adaptive_sleep args now u st in
  (3 # 20) * fst (chosen_range args) <= duration
  /\ duration <= snd (chosen_range args)
  /\ (rapid (now - _last_sleep_time st) = true ->
      duration <= (1 # 2) * snd (chosen_range args))
  /\ _sleep_call_count st' = (_sleep_call_count st + 1)%Z
  /\ _last_sleep_time st' = now.
Proof.
  intros Hlo Hhi Hu0 Hu1. unfold adaptive_sleep. cbv zeta.
  destruct (chosen_range args) as [lo hi]. cbn [fst snd] in *.
  destruct (adjusted_range_ordered lo hi (_sleep_call_count st + 1) Hlo Hhi)
    as (Ha & Hab & Hb).
  destruct (get_adjusted_sleep_range (lo, hi) (_sleep_call_count st + 1))
    as [a b].
  cbn [fst snd] in *.
  destruct (rapid (now - _last_sleep_time st)); cbn [fst snd].
  - destruct (uniform_between (a * (1 # 2)) (b * (1 # 2)) u) as [H1 H2];
      [lra | exact Hu0 | exact Hu1 |].
    set (d := uniform (a * (1 # 2)) (b * (1 # 2)) u) in *. clearbody d.
    split; [lra|]. split; [lra|]. split; [intros _; lra|].
    split; reflexivity.
  - destruct (uniform_between a b u Hab Hu0 Hu1) as [H1 H2].
    set (d := uniform a b u) in *. clearbody d.
    split; [lra|]. split; [lra|]. split; [discriminate|].
    split; reflexivity.
Qed.

(** X2 on a page-load wait, call 300, a tenth of a second after the last
    sleep, with the draw in the middle. *)
Lemma sleep_duration_bounds_witness :
  let '(st', duration) :=
    adaptive_sleep (Range PAGE_LOAD_WAIT_RANGE) (5 # 1) (1 # 2)
                   (mkClock 299 (49 # 10)) in
  (3 # 20) * 3 <= duration
  /\ duration <= 6
  /\ (rapid ((5 # 1) - (49 # 10)) = true -> duration <= (1 # 2) * 6)
  /\ _sleep_call_count st' = 300%Z
  /\ _last_sleep_time st' = 5 # 1.
Proof.
  apply (sleep_duration_bounds (Range PAGE_LOAD_WAIT_RANGE) (5 # 1) (1 # 2)
                               (mkClock 299 (49 # 10)));
    unfold Qle; cbn; lia.
Defined.

(** X3. During the first 50 calls, and at least 0.1 after the previous
    call, the duration lies within the range asked for; with a single
    number as argument it is that number, and at any call count the draw
    has no influence on it. *)
Theorem sleep_early_calls_in_range (args : arguments) (now u : Q) (st : clock) :
  (_sleep_call_count st < 50)%Z ->
  1 # 10 <= now - _last_sleep_time st ->
  fst (chosen_range args) <= snd (chosen_range args) ->
  0 <= u -> u <= 1 ->
  fst (chosen_range args) <= snd (adaptive_sleep args now u st)
  /\ snd (adaptive_sleep args now u st) <= snd (chosen_range args)
  /\ (forall seconds, args = Fixed seconds ->
                      snd (adaptive_sleep args now u st) == seconds)
  /\ (forall seconds u' (st0 : clock),
         snd (adaptive_sleep (Fixed seconds) now u st0)
         == snd (adaptive_sleep (Fixed seconds) now u' st0)).
Proof.
  intros Hcount Hgap Hhi Hu0 Hu1.
  assert (Hsame : get_adjusted_sleep_range (chosen_range args)
                    (_sleep_call_count st + 1) = chosen_range args).
  { unfold get_adjusted_sleep_range.
    now replace (_sleep_call_count st + 1 >? 50)%Z with false
      by (symmetry; rewrite Z.gtb_ltb; apply Z.ltb_ge; lia). }
  unfold adaptive_sleep. cbn [snd].
  rewrite (rapid_false _ Hgap), Hsame.
  destruct (uniform_between _ _ u Hhi Hu0 Hu1) as [H1 H2].
  split; [exact H1|]. split; [exact H2|]. split.
  - intros seconds ->. cbn. unfold uniform. ring.
  - intros seconds u' st0. cbn [chosen_range].
    destruct (rapid (now - _last_sleep_time st0));
      unfold get_adjusted_sleep_range;
      destruct (_sleep_call_count st0 + 1 >? 50)%Z; cbn [fst snd];
      unfold uniform; ring.
Qed.

(** X3 on the very first call, one second after start-up. *)
Lemma sleep_early_calls_in_range_witness :
  1 <= snd (adaptive_sleep NoArguments 1 (1 # 2) (mkClock 0 0))
  /\ snd (adaptive_sleep NoArguments 1 (1 # 2) (mkClock 0 0)) <= 3.
Proof.
  assert (Hcount : (_sleep_call_count (mkClock 0 0) < 50)%Z) by (cbn; lia).
  assert (Hgap : 1 # 10 <= 1 - _last_sleep_time (mkClock 0 0))
    by (unfold Qle; cbn; lia).
  assert (Hrange : fst (chosen_range NoArguments) <= snd (chosen_range NoArguments))
    by (unfold Qle; cbn; lia).
  assert (Hu0 : 0 <= 1 # 2) by (unfold Qle; cbn; lia).
  assert (Hu1 : 1 # 2 <= 1) by (unfold Qle; cbn; lia).
  destruct (sleep_early_calls_in_range NoArguments 1 (1 # 2) (mkClock 0 0)
                                       Hcount Hgap Hrange Hu0 Hu1)
    as (H1 & H2 & _).
  split; [exact H1 | exact H2].
Defined.

End SleepFacts.

(** ** What a drain leaves open, and what it returns *)

Module TabsFacts.

Import Connections ConnectionsFacts Tabs.
Local Open Scope Z_scope.

Lemma is_open_In (h : handle) (d : driver) :
  is_open h d = true <-> In h (window_handles d).
Proof.
  unfold is_open. rewrite existsb_exists. split.
  - intros [x [Hin Hx]]. apply Nat.eqb_eq in Hx. now subst.
  - intros Hin. exists h. split; [exact Hin | apply Nat.eqb_refl].
Qed.

Lemma filter_twice {A : Type} (P Q : A -> bool) (l : list A) :
  filter P (filter Q l) = filter (fun x => Q x && P x) l.
Proof.
  induction l as [|x l IH]; cbn; [reflexivity|].
  destruct (Q x); cbn; [destruct (P x)|]; now rewrite IH.
Qed.

Lemma close_handles (d d' : driver) :
  close d = Some d' ->
  window_handles d'
  = filter (fun h => negb (Nat.eqb h (current d))) (window_handles d).
Proof.
  unfold close. destruct (is_open (current d) d); [|discriminate].
  intros H. now inversion H.
Qed.

(** [close_quietly] only ever removes handles. *)
Lemma close_quietly_handles (m : manager) :
  exists P, window_handles (drv (close_quietly m))
            = filter P (window_handles (drv m)).
Proof.
  unfold close_quietly. destruct (close (drv m)) as [d|] eqn:Hc.
  - eexists. cbn. exact (close_handles _ _ Hc).
  - exists (fun _ => true). cbn. clear Hc.
    induction (window_handles (drv m)) as [|x l IH]; cbn; [reflexivity|].
    now rewrite <- IH.
Qed.

(** A tab that is open and lets the driver in is entered and closed,
    whatever happens in it. *)
Lemma drain_tab_open (w : world) (m : manager) (tab : handle) :
  tab_enterable w tab = true ->
  is_open tab (drv m) = true ->
  window_handles (drv (drain_tab w m tab))
  = filter (fun h => negb (Nat.eqb h tab)) (window_handles (drv m)).
Proof.
  intros Hent Hopen. unfold drain_tab, enter_tab. rewrite Hent.
  rewrite (switch_to_window_open tab (drv m) Hopen).
  set (m1 := with_driver _ m).
  destruct (connect_in_profile_tab w m1) as [m2 r] eqn:Hconnect.
  pose proof (connect_in_profile_tab_frame w m1) as Hframe.
  rewrite Hconnect in Hframe. cbn [fst] in Hframe.
  destruct Hframe as (Hd & _).
  assert (Hclose : close (drv m2)
                   = Some (mkDriver
                             (filter (fun h => negb (Nat.eqb h tab))
                                     (window_handles (drv m)))
                             tab (next_handle (drv m))
                             (results_window (drv m)) (results_page (drv m)))).
  { rewrite Hd. subst m1. unfold close. cbn.
    unfold is_open in Hopen. now rewrite Hopen. }
  unfold close_quietly. rewrite Hclose.
  now destruct r.
Qed.

(** A tab that cannot be entered costs at most the window the driver is
    on. *)
Lemma drain_tab_gone (w : world) (m : manager) (tab : handle) :
  tab_enterable w tab = false \/ is_open tab (drv m) = false ->
  drain_tab w m tab = close_quietly m.
Proof.
  intros Hgone. unfold drain_tab, enter_tab, switch_to_window.
  destruct (tab_enterable w tab); [|reflexivity].
  destruct Hgone as [Hgone|Hgone]; [discriminate | now rewrite Hgone].
Qed.

Lemma drain_tab_handles (w : world) (m : manager) (tab : handle) :
  exists P,
    window_handles (drv (drain_tab w m tab)) = filter P (window_handles (drv m))
    /\ (tab_enterable w tab = true ->
        is_open tab (drv (drain_tab w m tab)) = false).
Proof.
  destruct (tab_enterable w tab) eqn:Hent.
  - destruct (is_open tab (drv m)) eqn:Hopen.
    + eexists. split; [exact (drain_tab_open w m tab Hent Hopen)|].
      intros _. apply not_true_is_false. intros Hstill.
      apply is_open_In in Hstill.
      rewrite (drain_tab_open w m tab Hent Hopen) in Hstill.
      apply filter_In in Hstill. destruct Hstill as [_ Hne].
      now rewrite Nat.eqb_refl in Hne.
    + rewrite (drain_tab_gone w m tab (or_intror Hopen)).
      destruct (close_quietly_handles m) as [P HP].
      exists P. split; [exact HP|].
      intros _. apply not_true_is_false. intros Hstill.
      apply is_open_In in Hstill. rewrite HP in Hstill.
      apply filter_In in Hstill. destruct Hstill as [Hin _].
      apply is_open_In in Hin. congruence.
  - rewrite (drain_tab_gone w m tab (or_introl Hent)).
    destruct (close_quietly_handles m) as [P HP].
    exists P. split; [exact HP | discriminate].
Qed.

(** After the loop every tab of the list that could be entered is
    closed, and nothing was opened. *)
Lemma drain_handles (w : world) (tabs : list handle) :
  forall m,
    exists P,
      window_handles (drv (fold_left (drain_tab w) tabs m))
      = filter P (window_handles (drv m))
      /\ forall tab, In tab tabs -> tab_enterable w tab = true ->
                     is_open tab (drv (fold_left (drain_tab w) tabs m)) = false.
Proof.
  induction tabs as [|tab rest IH]; intros m; cbn [fold_left].
  - exists (fun _ => true). split; [|intros tab []].
    induction (window_handles (drv m)) as [|x l IHl]; cbn; [reflexivity|].
    now rewrite <- IHl.
  - destruct (drain_tab_handles w m tab) as (P1 & H1 & Hclosed).
    destruct (IH (drain_tab w m tab)) as (P2 & H2 & Hrest).
    exists (fun x => P1 x && P2 x). split.
    + rewrite H2, H1. apply filter_twice.
    + intros t [->|Hin] Hent; [|now apply Hrest].
      specialize (Hclosed Hent).
      apply not_true_is_false. intros Hstill.
      apply is_open_In in Hstill. rewrite H2 in Hstill.
      apply filter_In in Hstill. destruct Hstill as [Hin _].
      apply is_open_In in Hin. congruence.
Qed.

Lemma drain_tab_count (w : world) (m : manager) (tab : handle) :
  connection_count m <= connection_count (drain_tab w m tab)
  <= connection_count m + 1.
Proof.
  assert (Hrefused : tab_enterable w tab = false \/ is_open tab (drv m) = false ->
                     connection_count m <= connection_count (drain_tab w m tab)
                     <= connection_count m + 1).
  { intros Hgone. rewrite (drain_tab_gone w m tab Hgone).
    destruct (close_quietly_frame m) as (_ & _ & _ & _ & _ & Hq & _).
    rewrite Hq. lia. }
  destruct (tab_enterable w tab) eqn:Hent; [|now apply Hrefused; left].
  destruct (is_open tab (drv m)) eqn:Hopen.
  - unfold drain_tab, enter_tab. rewrite Hent.
    rewrite (switch_to_window_open tab (drv m) Hopen).
    set (m1 := with_driver _ m).
    destruct (connect_in_profile_tab w m1) as [m2 r] eqn:Hconnect.
    pose proof (connect_in_profile_tab_frame w m1) as Hframe.
    rewrite Hconnect in Hframe. cbn [fst] in Hframe.
    destruct Hframe as (_ & _ & _ & Hcount).
    change (connection_count m1) with (connection_count m) in Hcount.
    destruct (close_quietly_frame m2) as (_ & _ & _ & _ & _ & Hq & _).
    assert (Hdone : connection_count (match close (drv m2) with
                                      | Some d3 => with_driver d3 m2
                                      | None => close_quietly m2
                                      end) = connection_count m2).
    { destruct (close (drv m2)); [reflexivity | exact Hq]. }
    destruct r; rewrite ?Hq, ?Hdone; exact Hcount.
  - apply Hrefused. now right.
Qed.

Lemma drain_count (w : world) (tabs : list handle) :
  forall m,
    connection_count m
    <= connection_count (fold_left (drain_tab w) tabs m)
    <= connection_count m + Z.of_nat (List.length tabs).
Proof.
  induction tabs as [|tab rest IH]; intros m; cbn [fold_left List.length].
  - lia.
  - pose proof (drain_tab_count w m tab).
    pose proof (IH (drain_tab w m tab)). lia.
Qed.

Lemma back_to_main_quietly_frame (m : manager) :
  connection_count (back_to_main_quietly m) = connection_count m
  /\ window_handles (drv (back_to_main_quietly m)) = window_handles (drv m).
Proof.
  unfold back_to_main_quietly.
  destruct (main_window m) as [mw|]; [|now split].
  unfold switch_to_window. destruct (is_open mw (drv m)); now split.
Qed.

Lemma process_opened_tabs_handles (w : world) (m : manager) :
  is_open (main_of m) (drv m) = true ->
  enterable w (secondary_tabs (main_of m) (drv m)) ->
  let m' := fst (process_opened_tabs w m) in
  window_handles (drv m')
  = filter (Nat.eqb (main_of m)) (window_handles (drv m))
  /\ secondary_tabs (main_of m) (drv m') = []
  /\ (forall h, is_open h (drv m') = true -> h = main_of m).
Proof.
  intros Hmain Hent. cbv zeta. unfold secondary_tabs in Hent.
  assert (Hlist : window_handles (drv (fst (process_opened_tabs w m)))
                  = filter (Nat.eqb (main_of m)) (window_handles (drv m))).
  { unfold process_opened_tabs.
    set (mw := main_of m) in *.
    assert (Hset : match main_window m with
                   | Some mw0 => Some (mw0, m)
                   | None =>
                       match current_window_handle (drv m) with
                       | Some h => Some (h, with_main h m)
                       | None => None
                       end
                   end
                   = Some (mw, match main_window m with
                               | Some _ => m
                               | None => with_main mw m
                               end)).
    { subst mw. unfold main_of in *.
      destruct (main_window m); [reflexivity|].
      unfold current_window_handle. now rewrite Hmain. }
    rewrite Hset. clear Hset.
    set (m1 := match main_window m with Some _ => m | None => with_main mw m end) in *.
    assert (Hd1 : drv m1 = drv m) by (subst m1; now destruct (main_window m)).
    assert (Hopen1 : is_open mw (drv m1) = true) by now rewrite Hd1.
    assert (Hent1 : enterable w (filter (fun tab => negb (Nat.eqb tab mw))
                                        (window_handles (drv m1))))
      by now rewrite Hd1.
    pose proof (drain_keeps_main w mw _ m1 Hent1
                                 (tabs_to_process_draining mw m1 Hopen1))
      as Hstill.
    cbv zeta in Hstill. destruct Hstill as (Hstill & _).
    destruct (drain_handles w (filter (fun tab => negb (Nat.eqb tab mw))
                                      (window_handles (drv m1))) m1)
      as (P & HP & Hclosed).
    set (m2 := fold_left (drain_tab w) _ m1) in *.
    assert (Hm3 : window_handles
                    (drv (fst (match switch_to_window mw (drv m2) with
                               | Some d =>
                                   (with_driver d m2,
                                    connection_count (with_driver d m2)
                                    - connection_count m)
                               | None =>
                                   (back_to_main_quietly m2,
                                    connection_count (back_to_main_quietly m2)
                                    - connection_count m)
                               end)))
                  = window_handles (drv m2)).
    { unfold switch_to_window. destruct (is_open mw (drv m2)); cbn [fst].
      - reflexivity.
      - apply back_to_main_quietly_frame. }
    rewrite Hm3. rewrite HP, Hd1 in *.
    apply filter_ext_in. intros h Hh.
    destruct (Nat.eqb_spec mw h) as [<-|Hne].
    - apply is_open_In in Hstill. rewrite HP in Hstill.
      apply filter_In in Hstill. tauto.
    - apply not_true_is_false. intros HPh.
      assert (Hin : In h (filter (fun tab => negb (Nat.eqb tab mw))
                                 (window_handles (drv m)))).
      { apply filter_In. split; [exact Hh|].
        apply negb_true_iff, Nat.eqb_neq. congruence. }
      assert (Hh_ent : tab_enterable w h = true).
      { unfold enterable in Hent. rewrite Forall_forall in Hent.
        now apply Hent. }
      specialize (Hclosed h Hin Hh_ent).
      assert (Hopen : is_open h (drv m2) = true).
      { apply is_open_In. rewrite HP. apply filter_In. now split. }
      congruence. }
  split; [exact Hlist|]. split.
  - unfold secondary_tabs. rewrite Hlist, filter_twice.
    clear. induction (window_handles (drv m)) as [|x l IH]; cbn; [reflexivity|].
    rewrite (Nat.eqb_sym x (main_of m)).
    destruct (Nat.eqb (main_of m) x); exact IH.
  - intros h Hh. apply is_open_In in Hh. rewrite Hlist in Hh.
    apply filter_In in Hh. destruct Hh as [_ Heq].
    apply Nat.eqb_eq in Heq. now symmetry.
Qed.

(** A tab that refuses the driver while it is on the main window costs
    the main window. *)
Lemma process_opened_tabs_main_lost (w : world) (m : manager)
      (tab : handle) (rest : list handle) :
  is_open (main_of m) (drv m) = true ->
  current (drv m) = main_of m ->
  secondary_tabs (main_of m) (drv m) = tab :: rest ->
  tab_enterable w tab = false ->
  is_open (main_of m) (drv (fst (process_opened_tabs w m))) = false.
Proof.
  intros Hmain Hcur Htabs Hdead.
  apply not_true_is_false. intros Hstill.
  unfold process_opened_tabs in Hstill. unfold secondary_tabs in Htabs.
  set (mw := main_of m) in *.
  assert (Hset : match main_window m with
                 | Some mw0 => Some (mw0, m)
                 | None =>
                     match current_window_handle (drv m) with
                     | Some h => Some (h, with_main h m)
                     | None => None
                     end
                 end
                 = Some (mw, match main_window m with
                             | Some _ => m
                             | None => with_main mw m
                             end)).
  { subst mw. unfold main_of in *.
    destruct (main_window m); [reflexivity|].
    unfold current_window_handle. now rewrite Hmain. }
  rewrite Hset in Hstill. clear Hset.
  set (m1 := match main_window m with Some _ => m | None => with_main mw m end) in *.
  assert (Hd1 : drv m1 = drv m) by (subst m1; now destruct (main_window m)).
  rewrite Hd1, Htabs in Hstill. cbn [fold_left] in Hstill.
  rewrite (drain_tab_gone w m1 tab (or_introl Hdead)) in Hstill.
  assert (Hclosed : is_open mw (drv (close_quietly m1)) = false).
  { unfold close_quietly, close. rewrite Hd1, Hcur, Hmain.
    apply not_true_is_false. intros Hopen. apply is_open_In in Hopen.
    cbn in Hopen. apply filter_In in Hopen. destruct Hopen as [_ Hne].
    now rewrite Nat.eqb_refl in Hne. }
  destruct (drain_frame w rest (close_quietly m1)) as (_ & _ & _ & _ & Hshrink).
  cbv zeta in Hshrink.
  set (m2 := fold_left (drain_tab w) rest (close_quietly m1)) in *.
  assert (Hgone : is_open mw (drv m2) = false).
  { apply not_true_is_false. intros Hopen. apply Hshrink in Hopen. congruence. }
  unfold switch_to_window in Hstill. rewrite Hgone in Hstill. cbn [fst] in Hstill.
  destruct (back_to_main_quietly_same m2) as (_ & _ & _ & Hsame).
  unfold is_open in Hstill, Hgone. rewrite Hsame in Hstill. congruence.
Qed.

(** X4. When the main window is open and every tab on the list can be
    entered, [process_opened_tabs] closes every other window: the handles
    left are exactly the main window's, so the campaign's tab count is
    back to zero, and no window was opened.  When the driver is on the
    main window and the first tab on the list cannot be entered, the main
    window itself is closed. *)
Theorem drain_closes_every_tab (w : world) (m : manager) :
  is_open (main_of m) (drv m) = true ->
  let m' := fst (process_opened_tabs w m) in
  (enterable w (secondary_tabs (main_of m) (drv m)) ->
   window_handles (drv m')
   = filter (Nat.eqb (main_of m)) (window_handles (drv m))
   /\ secondary_tabs (main_of m) (drv m') = []
   /\ (forall h, is_open h (drv m') = true -> h = main_of m))
  /\ (forall tab rest,
         current (drv m) = main_of m ->
         secondary_tabs (main_of m) (drv m) = tab :: rest ->
         tab_enterable w tab = false ->
         is_open (main_of m) (drv m') = false).
Proof.
  intros Hmain. cbv zeta. split.
  - exact (process_opened_tabs_handles w m Hmain).
  - intros tab rest. exact (process_opened_tabs_main_lost w m tab rest Hmain).
Qed.

(** X4 on the window with two profile tabs, where every tab can be
    entered. *)
Lemma drain_closes_every_tab_witness :
  let m' := fst (process_opened_tabs stale_first_tab (new_manager 60 two_tabs)) in
  window_handles (drv m') = filter (Nat.eqb 0%nat) [0%nat; 1%nat; 2%nat]
  /\ secondary_tabs 0%nat (drv m') = []
  /\ (forall h, is_open h (drv m') = true -> h = 0%nat).
Proof.
  apply (proj1 (drain_closes_every_tab stale_first_tab (new_manager 60 two_tabs)
                                       eq_refl)).
  repeat constructor.
Defined.

Lemma process_opened_tabs_made (w : world) (m : manager) :
  let '(m', made) := process_opened_tabs w m in
  made = connection_count m' - connection_count m
  /\ 0 <= made
     <= Z.of_nat (List.length (secondary_tabs (main_of m) (drv m))).
Proof.
  unfold process_opened_tabs, secondary_tabs, main_of.
  destruct (main_window m) as [mw|] eqn:Hmw.
  - pose proof (drain_count w (filter (fun tab => negb (Nat.eqb tab mw))
                                      (window_handles (drv m))) m) as Hc.
    set (m2 := fold_left (drain_tab w) _ m) in *.
    destruct (switch_to_window mw (drv m2)) as [d|].
    + split; [reflexivity|]. cbn. lia.
    + destruct (back_to_main_quietly_frame m2) as [Hb _].
      split; [reflexivity|]. rewrite Hb. lia.
  - unfold current_window_handle.
    destruct (is_open (current (drv m)) (drv m)).
    + pose proof (drain_count w (filter (fun tab => negb (Nat.eqb tab (current (drv m))))
                                        (window_handles (drv (with_main (current (drv m)) m))))
                              (with_main (current (drv m)) m)) as Hc.
      set (m2 := fold_left (drain_tab w) _ _) in *.
      change (connection_count (with_main (current (drv m)) m))
        with (connection_count m) in Hc.
      change (drv (with_main (current (drv m)) m)) with (drv m) in Hc.
      destruct (switch_to_window (current (drv m)) (drv m2)) as [d|].
      * split; [reflexivity|]. cbn. lia.
      * destruct (back_to_main_quietly_frame m2) as [Hb _].
        split; [reflexivity|]. rewrite Hb. lia.
    + destruct (back_to_main_quietly_frame m) as [Hb _].
      split; [reflexivity|]. rewrite Hb. lia.
Qed.

(** X5. The number [process_opened_tabs] returns is the growth of the
    request counter during the call; it is never negative and never more
    than the number of windows other than the main one, in every state,
    also when the main window is gone. *)
Theorem drain_result_bounds (w : world) (m : manager) :
  let '(m', made) := process_opened_tabs w m in
  made = connection_count m' - connection_count m
  /\ 0 <= made
     <= Z.of_nat (List.length (secondary_tabs (main_of m) (drv m))).
Proof. exact (process_opened_tabs_made w m). Qed.

End TabsFacts.

(** ** Counting requests, opening tabs, ending a campaign *)

Module CampaignMore.

Import Connections ConnectionsFacts Tabs TabsFacts.
Local Open Scope Z_scope.

Lemma sendable_nonneg (button_list : list button) : 0 <= sendable button_list.
Proof.
  induction button_list as [|b rest IH]; [cbn; lia|].
  destruct b as [o|[] []| | |]; cbn [sendable]; lia.
Qed.

(** One button: the counter grows by one exactly for a 'Connect' button
    that is clicked and whose request is sent. *)
Lemma process_button_accounting (b : button) (m : manager) :
  max_connections (process_button b m) = max_connections m
  /\ connection_count (process_button b m)
     = connection_count m + sendable [b].
Proof.
  destruct b as [o|click sent| | |]; cbn [process_button sendable];
    try (split; [reflexivity | lia]).
  - destruct (open_profile_frame o m) as (_ & _ & _ & F4 & _ & F6 & _).
    split; [exact F6 | rewrite F4; lia].
  - destruct click, sent; cbn; split; try reflexivity; lia.
Qed.

Lemma sendable_cons (b : button) (rest : list button) :
  sendable (b :: rest) = sendable [b] + sendable rest.
Proof. destruct b as [o|[] []| | |]; cbn [sendable]; lia. Qed.

Lemma process_buttons_accounting (button_list : list button) :
  forall m,
    let m' := fst (process_buttons button_list m) in
    let r := snd (process_buttons button_list m) in
    max_connections m' = max_connections m
    /\ connection_count m <= connection_count m'
       <= connection_count m + sendable button_list
    /\ (r = true ->
        connection_count m' = connection_count m + sendable button_list)
    /\ (r = false -> 0 < max_connections m <= connection_count m')
    /\ (0 < max_connections m ->
        connection_count m <= max_connections m ->
        connection_count m' <= max_connections m).
Proof.
  induction button_list as [|b rest IH]; intros m; cbv zeta;
    cbn [process_buttons].
  - cbn [fst snd sendable]. repeat split; try lia; try discriminate.
  - pose proof (sendable_nonneg (b :: rest)) as Hnn.
    destruct (limit_reached m) eqn:Hlim.
    + cbn [fst snd logged connection_count max_connections].
      unfold limit_reached in Hlim.
      apply andb_true_iff in Hlim. destruct Hlim as [H1 H2].
      apply Z.ltb_lt in H1. apply Z.leb_le in H2.
      repeat split; try lia; try discriminate.
    + destruct (process_button_accounting b m) as [Hmax Hcount].
      specialize (IH (process_button b m)). cbv zeta in IH.
      destruct IH as (I1 & I2 & I3 & I4 & I5).
      rewrite (sendable_cons b rest).
      pose proof (sendable_nonneg [b]) as Hb.
      assert (Hbelow : 0 < max_connections m ->
                       connection_count m < max_connections m).
      { intros Hpos. unfold limit_reached in Hlim.
        apply andb_false_iff in Hlim. destruct Hlim as [Hl|Hl].
        - apply Z.ltb_ge in Hl. lia.
        - apply Z.leb_gt in Hl. lia. }
      assert (Hone : sendable [b] <= 1)
        by (destruct b as [o|[] []| | |]; cbn; lia).
      rewrite Hmax in I1, I4, I5. rewrite Hcount in I2, I3, I5.
      split; [exact I1|]. split; [lia|].
      split; [intros Hr; specialize (I3 Hr); lia|].
      split; [intros Hr; specialize (I4 Hr); lia|].
      intros Hpos Hle. apply I5; [exact Hpos|].
      specialize (Hbelow Hpos). lia.
Qed.

(** X6. [process_connection_buttons] keeps the limit and accounts for
    every request: the counter never goes down and grows by at most the
    number of 'Connect' buttons that are clicked and sent; when [True] is
    returned every button was handled and it grew by exactly that number;
    [False] is returned only with a positive limit that the counter has
    reached; [None] only when nothing was done; and a counter within a
    positive limit stays within it. *)
Theorem inline_requests_accounting (button_list : list button) (m : manager) :
  let '(m', r) := process_connection_buttons button_list m in
  max_connections m' = max_connections m
  /\ connection_count m <= connection_count m'
     <= connection_count m + sendable button_list
  /\ (r = Some true ->
      connection_count m' = connection_count m + sendable button_list)
  /\ (r = Some false -> 0 < max_connections m <= connection_count m')
  /\ (r = None -> m' = m)
  /\ (0 < max_connections m ->
      connection_count m <= max_connections m ->
      connection_count m' <= max_connections m).
Proof.
  unfold process_connection_buttons.
  pose proof (sendable_nonneg button_list) as Hnn.
  destruct button_list as [|b rest].
  - cbn. repeat split; try lia; discriminate.
  - assert (Hcase : forall m0,
               max_connections m0 = max_connections m ->
               connection_count m0 = connection_count m ->
               let '(m', r) :=
                 (let '(m1, r) := process_buttons (b :: rest) m0 in (m1, Some r)) in
               max_connections m' = max_connections m
               /\ connection_count m <= connection_count m'
                  <= connection_count m + sendable (b :: rest)
               /\ (r = Some true ->
                   connection_count m' = connection_count m + sendable (b :: rest))
               /\ (r = Some false -> 0 < max_connections m <= connection_count m')
               /\ (r = None -> m' = m)
               /\ (0 < max_connections m ->
                   connection_count m <= max_connections m ->
                   connection_count m' <= max_connections m)).
    { intros m0 Hmax0 Hc0.
      pose proof (process_buttons_accounting (b :: rest) m0) as H.
      cbv zeta in H.
      destruct (process_buttons (b :: rest) m0) as [m1 r]. cbn [fst snd] in H.
      destruct H as (H1 & H2 & H3 & H4 & H5).
      rewrite Hmax0, Hc0 in *.
      split; [exact H1|]. split; [exact H2|].
      split; [intros Hr; apply H3; congruence|].
      split; [intros Hr; apply H4; congruence|].
      split; [discriminate | exact H5]. }
    destruct (main_window m) as [mw|].
    + apply (Hcase m); reflexivity.
    + destruct (current_window_handle (drv m)) as [h|].
      * apply (Hcase (with_main h m)); reflexivity.
      * repeat split; try lia; try discriminate.
Qed.

(** X6 on a limit of 1 and two buttons that both work: one request. *)
Lemma inline_requests_accounting_witness :
  connection_count
    (fst (process_connection_buttons
            [ConnectButton Clicked true; ConnectButton Clicked true]
            (mkManager one_window 0 None 1 [])))
  <= 1.
Proof.
  pose proof (inline_requests_accounting
                [ConnectButton Clicked true; ConnectButton Clicked true]
                (mkManager one_window 0 None 1 [])) as H.
  destruct (process_connection_buttons _ _) as [m' r].
  destruct H as (_ & _ & _ & _ & _ & H).
  apply H; cbn; lia.
Defined.

(** X7. [_open_profile_in_new_tab] returns [True] exactly when it opened
    a tab: then the profile link was found, the window it was called from
    is open, and one handle, a new one, was appended to the open windows.
    When it returns [False] the state is untouched. *)
Theorem open_profile_adds_one_tab (o : open_outcome) (m : manager) :
  let '(m', opened) := _open_profile_in_new_tab o m in
  if opened
  then window_handles (drv m')
       = window_handles (drv m) ++ [next_handle (drv m)]
       /\ next_handle (drv m') = S (next_handle (drv m))
       /\ is_open (current (drv m)) (drv m) = true
       /\ o <> LinkMissing
  else m' = m.
Proof.
  unfold _open_profile_in_new_tab.
  destruct o as [|takes_focus]; [reflexivity|].
  destruct (current_window_handle (drv m)) as [current_tab|] eqn:Hcur;
    [|reflexivity].
  apply current_window_handle_some in Hcur. destruct Hcur as [-> Hopen].
  rewrite switch_to_window_open by now apply is_open_window_open.
  cbn. repeat split; [exact Hopen | discriminate].
Qed.

(** *** Every step carries the campaign on *)

Lemma carries_on_refl (m : manager) : settled m -> carries_on m m.
Proof.
  intros Hs. unfold carries_on. split_ands; try reflexivity; try lia; exact Hs.
Qed.

Lemma carries_on_trans (m1 m2 m3 : manager) :
  carries_on m1 m2 -> carries_on m2 m3 -> carries_on m1 m3.
Proof.
  intros (_ & A2 & A3 & A4) (B1 & B2 & B3 & B4).
  unfold carries_on. split_ands; [exact B1 | congruence | congruence | lia].
Qed.

Lemma carries_on_logged (e : event) (m : manager) :
  settled m -> carries_on m (logged e m).
Proof.
  intros Hs. unfold carries_on.
  split_ands; try reflexivity; try (cbn; lia). now apply settled_logged.
Qed.

Lemma process_button_carries_on (b : button) (m : manager) :
  settled m -> carries_on m (process_button b m).
Proof.
  intros Hs.
  destruct (process_button_settled b m Hs) as (Hs' & _ & Hmax & Hcount).
  unfold carries_on. split_ands; [exact Hs' | | exact Hmax | lia].
  destruct b as [o|click sent| | |]; cbn [process_button]; try reflexivity.
  - now destruct (open_profile_frame o m) as (_ & F2 & _).
  - now destruct click, sent.
Qed.

Lemma process_buttons_carries_on (button_list : list button) :
  forall m, settled m -> carries_on m (fst (process_buttons button_list m)).
Proof.
  induction button_list as [|b rest IH]; intros m Hs; cbn [process_buttons].
  - now apply carries_on_refl.
  - destruct (limit_reached m); [now apply carries_on_logged|].
    pose proof (process_button_carries_on b m Hs) as H1.
    apply (carries_on_trans _ _ _ H1). apply IH. apply H1.
Qed.

Lemma process_connection_buttons_carries_on (button_list : list button)
      (m : manager) :
  settled m -> carries_on m (fst (process_connection_buttons button_list m)).
Proof.
  intros Hs. unfold process_connection_buttons.
  destruct button_list as [|b rest]; [now apply carries_on_refl|].
  pose proof (process_buttons_carries_on (b :: rest) m Hs) as H.
  destruct Hs as (Hmw & _). rewrite Hmw.
  now destruct (process_buttons (b :: rest) m).
Qed.

Lemma go_to_next_page_carries_on (w : world) (m : manager) :
  settled m -> carries_on m (fst (go_to_next_page w m)).
Proof.
  intros Hs. unfold go_to_next_page.
  destruct (on_results (drv m) && next_ok (pages w (results_page (drv m))));
    cbn [fst]; [|now apply carries_on_logged].
  destruct Hs as (Hmw & Hcur & Hopen).
  unfold carries_on, settled. cbn.
  split_ands; try assumption; try reflexivity; try lia.
Qed.

Lemma find_and_process_carries_on (w : world) (m : manager) :
  settled m -> carries_on m (fst (find_and_process_buttons w m)).
Proof.
  intros Hs. unfold find_and_process_buttons, find_connection_buttons.
  pose proof (carries_on_logged (EvSearch (results_page (drv m))) m Hs) as H1.
  set (m1 := logged (EvSearch (results_page (drv m))) m) in *.
  assert (Hbuttons : forall bs m0,
             carries_on m m0 ->
             carries_on m (fst (let '(m3, r) := process_connection_buttons bs m0
                                in (m3, truthy r)))).
  { intros bs m0 H0.
    pose proof (process_connection_buttons_carries_on bs m0 (proj1 H0)) as H.
    destruct (process_connection_buttons bs m0) as [m3 r]. cbn [fst] in *.
    exact (carries_on_trans _ _ _ H0 H). }
  destruct (if on_results (drv m)
            then found_first (pages w (results_page (drv m)))
            else []) as [|b bs].
  - change (drv m1) with (drv m).
    pose proof (carries_on_logged (EvSearch (results_page (drv m))) m1 (proj1 H1))
      as H2.
    set (m2 := logged (EvSearch (results_page (drv m))) m1) in *.
    pose proof (carries_on_trans _ _ _ H1 H2) as H12.
    destruct (if on_results (drv m)
              then found_retry (pages w (results_page (drv m)))
              else []) as [|b bs].
    + exact (carries_on_trans _ _ _ H12
               (go_to_next_page_carries_on w m2 (proj1 H2))).
    + now apply Hbuttons.
  - now apply Hbuttons.
Qed.

Lemma process_opened_tabs_carries_on (w : world) (m : manager) :
  settled m ->
  enterable w (secondary_tabs (main_of m) (drv m)) ->
  carries_on m (fst (process_opened_tabs w m)).
Proof.
  intros Hs Hent.
  destruct (process_opened_tabs_settled w m Hs Hent) as (Hs' & _ & Hmax).
  pose proof Hs as (Hmw & Hcur & Hopen).
  assert (Hin : is_open (main_of m) (drv m) = true).
  { unfold main_of. rewrite Hmw, <- Hcur. exact Hopen. }
  destruct (process_opened_tabs_main w m Hin Hent)
    as (_ & _ & _ & Hrw & _ & _ & Hcount).
  unfold carries_on. split_ands; assumption.
Qed.

Lemma finally_drain_carries_on (w : world) (m : manager) :
  settled m ->
  enterable w (secondary_tabs (main_of m) (drv m)) ->
  carries_on m (finally_drain w m).
Proof.
  intros Hs Hent. unfold finally_drain.
  pose proof (process_opened_tabs_carries_on w m Hs Hent) as H.
  apply (carries_on_trans _ _ _ H).
  set (m1 := fst (process_opened_tabs w m)) in *.
  destruct H as (Hs1 & _).
  unfold back_to_main_quietly.
  pose proof Hs1 as (Hmw & Hcur & Hopen). rewrite Hmw.
  rewrite switch_to_window_open by (rewrite <- Hcur; exact Hopen).
  unfold carries_on, settled. cbn. rewrite <- Hcur.
  split_ands; try assumption; try reflexivity; try lia.
  now rewrite Hcur.
Qed.

Lemma campaign_loop_carries_on (w : world) (max_tabs : Z) (fuel : nat) :
  (forall tab, tab_enterable w tab = true) ->
  forall m m',
    settled m ->
    campaign_loop fuel w max_tabs m = Some m' ->
    carries_on m m'.
Proof.
  intros Hent.
  induction fuel as [|fuel IH]; intros m m' Hs H; [discriminate|].
  cbn [campaign_loop] in H.
  pose proof (find_and_process_carries_on w m Hs) as H1.
  destruct (find_and_process_buttons w m) as [m1 continue]. cbn [fst] in H1.
  destruct continue; cbn [negb] in H; [|now inversion H; subst].
  set (m2 := if _ >=? max_tabs then fst (process_opened_tabs w m1) else m1) in H.
  assert (H2 : carries_on m1 m2).
  { subst m2. destruct (_ >=? max_tabs).
    - apply process_opened_tabs_carries_on;
        [apply H1 | now apply enterable_all].
    - apply carries_on_refl, H1. }
  pose proof (go_to_next_page_carries_on w m2 (proj1 H2)) as H3.
  destruct (go_to_next_page w m2) as [m3 more]. cbn [fst] in H3.
  pose proof (carries_on_trans _ _ _ (carries_on_trans _ _ _ H1 H2) H3) as H13.
  destruct more.
  - apply IH in H; [|apply H3]. exact (carries_on_trans _ _ _ H13 H).
  - now inversion H; subst.
Qed.

Lemma campaign_ends_on_start_window_lemma
        (MAX_TABS MAX_CONNECTIONS : Z) (max_tabs max_connections : option Z)
        (w : world) (fuel : nat) (m m' : manager) (r : campaign_result) :
  (forall tab, tab_enterable w tab = true) ->
  is_open (current (drv m)) (drv m) = true ->
  run_connection_campaign MAX_TABS MAX_CONNECTIONS max_tabs max_connections
                          w fuel m = Some (m', r) ->
  r = Statistics (connection_count m')
                 (match max_connections with
                  | Some n => n
                  | None => MAX_CONNECTIONS
                  end)
  /\ current (drv m') = current (drv m)
  /\ main_window m' = Some (current (drv m))
  /\ (forall h, is_open h (drv m') = true <-> h = current (drv m))
  /\ connection_count m <= connection_count m'.
Proof.
  intros Hent Hopen Hrun.
  unfold run_connection_campaign in Hrun. cbn [drv] in Hrun.
  assert (Hcur : current_window_handle (drv m) = Some (current (drv m)))
    by (unfold current_window_handle; now rewrite Hopen).
  rewrite Hcur in Hrun.
  set (limit := match max_connections with Some n => n | None => MAX_CONNECTIONS end) in *.
  pose proof (CampaignFacts.campaign_start_settled m limit _ Hcur) as Hs0.
  set (m0 := with_driver _ _) in *.
  destruct (campaign_loop fuel w _ m0) as [m1|] eqn:Hloop; [|discriminate].
  apply campaign_loop_carries_on in Hloop; [|exact Hent|exact Hs0].
  pose proof (finally_drain_carries_on w m1 (proj1 Hloop)
                                       (enterable_all w _ Hent)) as Hfin.
  pose proof (carries_on_trans _ _ _ Hloop Hfin) as (Hs & Hrw & Hmax & Hcount).
  inversion Hrun; subst m' r; clear Hrun.
  change (results_window (drv m0)) with (current (drv m)) in Hrw.
  change (Connections.max_connections m0) with limit in Hmax.
  change (connection_count m0) with (connection_count m) in Hcount.
  destruct Hs as (Hmw & Hcur' & Hopen').
  split; [now rewrite Hmax|]. split; [congruence|]. split; [congruence|].
  split; [|exact Hcount].
  intros h. split.
  - intros Hh.
    (* the last drain of the [finally] clause left the main window only *)
    unfold finally_drain in Hh.
    destruct (back_to_main_quietly_frame (fst (process_opened_tabs w m1)))
      as [_ Hsame].
    apply is_open_In in Hh. rewrite Hsame in Hh. apply is_open_In in Hh.
    destruct Hloop as ((Hmw1 & Hcur1 & Hopen1) & Hrw1 & _).
    assert (Hmain1 : main_of m1 = current (drv m)).
    { unfold main_of. rewrite Hmw1. exact Hrw1. }
    assert (Hin1 : is_open (main_of m1) (drv m1) = true).
    { unfold main_of. rewrite Hmw1, <- Hcur1. exact Hopen1. }
    destruct (process_opened_tabs_handles w m1 Hin1 (enterable_all w _ Hent))
      as (_ & _ & Honly).
    rewrite <- Hmain1. now apply Honly.
  - intros ->. rewrite <- Hrw, <- Hcur'. exact Hopen'.
Qed.

(** X8. As long as every profile tab can be entered, a connection
    campaign started on an open window, whatever the limit, the tab
    maximum and the pages, returns (when it returns) statistics that
    repeat the limit and the counter, with the driver back on the window
    it started from, that window still open and recorded as main window,
    every other window closed, and a counter that has not gone down. *)
Theorem campaign_ends_on_start_window
        (MAX_TABS MAX_CONNECTIONS : Z) (max_tabs max_connections : option Z)
        (w : world) (fuel : nat) (m m' : manager) (r : campaign_result) :
  (forall tab, tab_enterable w tab = true) ->
  is_open (current (drv m)) (drv m) = true ->
  run_connection_campaign MAX_TABS MAX_CONNECTIONS max_tabs max_connections
                          w fuel m = Some (m', r) ->
  r = Statistics (connection_count m')
                 (match max_connections with
                  | Some n => n
                  | None => MAX_CONNECTIONS
                  end)
  /\ current (drv m') = current (drv m)
  /\ main_window m' = Some (current (drv m))
  /\ (forall h, is_open h (drv m') = true <-> h = current (drv m))
  /\ connection_count m <= connection_count m'.
Proof.
  exact (campaign_ends_on_start_window_lemma
           MAX_TABS MAX_CONNECTIONS max_tabs max_connections w fuel m m' r).
Qed.

(** X8 on the run in which a drained tab sends a request beyond the
    limit: the driver still ends on window 0, alone. *)
Lemma campaign_ends_on_start_window_witness :
  exists m' r,
    run_connection_campaign 3 60 (Some 3) (Some 1) follow_then_connect 2
                            (new_manager 60 one_window) = Some (m', r)
    /\ r = Statistics (connection_count m') 1
    /\ current (drv m') = 0%nat
    /\ main_window m' = Some 0%nat
    /\ (forall h, is_open h (drv m') = true <-> h = 0%nat)
    /\ 0 <= connection_count m'.
Proof.
  eexists. eexists. split; [reflexivity|].
  apply (campaign_ends_on_start_window 3 60 (Some 3) (Some 1)
           follow_then_connect 2 (new_manager 60 one_window));
    [intros tab; reflexivity | reflexivity | reflexivity].
Defined.

End CampaignMore.

(** ** A campaign that opens no tab keeps its limit *)

Module LimitFacts.

Import Connections ConnectionsFacts Tabs TabsFacts CampaignMore.
Local Open Scope Z_scope.

Lemma process_button_no_tab (b : button) (m : manager) :
  opens_tab b = false -> drv (process_button b m) = drv m.
Proof.
  destruct b as [[|takes_focus]|click sent| | |]; cbn; try reflexivity;
    try discriminate.
  now destruct click, sent.
Qed.

Lemma process_buttons_no_tab (button_list : list button) :
  forallb (fun b => negb (opens_tab b)) button_list = true ->
  forall m, drv (fst (process_buttons button_list m)) = drv m.
Proof.
  induction button_list as [|b rest IH]; intros Hall m; cbn [process_buttons];
    [reflexivity|].
  cbn [forallb] in Hall. apply andb_true_iff in Hall. destruct Hall as [Hb Hrest].
  apply negb_true_iff in Hb.
  destruct (limit_reached m); [reflexivity|].
  rewrite (IH Hrest). now apply process_button_no_tab.
Qed.

Lemma only_main_same_windows (m m' : manager) :
  window_handles (drv m') = window_handles (drv m) ->
  results_window (drv m') = results_window (drv m) ->
  only_main m -> only_main m'.
Proof.
  intros Hh Hr Honly h Hopen. rewrite Hr. apply Honly.
  apply is_open_In. rewrite <- Hh. now apply is_open_In.
Qed.

Section Within.

Variable w : world.
Variable L : Z.
Hypothesis L_positive : 0 < L.
Hypothesis no_tab : no_tab_opened w.

Lemma within_logged (e : event) (m : manager) : within L m -> within L (logged e m).
Proof.
  intros (Hs & Ho & Hm & Hc). unfold within.
  split_ands; [now apply settled_logged | exact Ho | exact Hm | exact Hc].
Qed.

Lemma process_connection_buttons_within (button_list : list button)
      (m : manager) :
  forallb (fun b => negb (opens_tab b)) button_list = true ->
  within L m -> within L (fst (process_connection_buttons button_list m)).
Proof.
  intros Hall (Hs & Ho & Hm & Hc).
  pose proof (process_connection_buttons_carries_on button_list m Hs)
    as (Hs' & Hrw & Hmax & _).
  unfold process_connection_buttons in *.
  destruct button_list as [|b rest]; [unfold within; now split_ands|].
  pose proof Hs as (Hmw & _). rewrite Hmw in *.
  pose proof (process_buttons_accounting (b :: rest) m) as Hacc.
  cbv zeta in Hacc. destruct Hacc as (_ & _ & _ & _ & Hlim).
  pose proof (process_buttons_no_tab (b :: rest) Hall m) as Hdrv.
  destruct (process_buttons (b :: rest) m) as [m1 r]. cbn [fst] in *.
  unfold within. split_ands; [exact Hs' | | congruence |].
  - apply (only_main_same_windows m); [now rewrite Hdrv | exact Hrw | exact Ho].
  - rewrite <- Hm. apply Hlim; rewrite Hm; [exact L_positive | exact Hc].
Qed.

Lemma go_to_next_page_within (m : manager) :
  within L m -> within L (fst (go_to_next_page w m)).
Proof.
  intros (Hs & Ho & Hm & Hc).
  pose proof (go_to_next_page_carries_on w m Hs) as (Hs' & Hrw & Hmax & _).
  unfold within. split_ands; [exact Hs' | | congruence |].
  - apply (only_main_same_windows m); [|exact Hrw | exact Ho].
    unfold go_to_next_page.
    now destruct (on_results (drv m) && next_ok (pages w (results_page (drv m)))).
  - unfold go_to_next_page.
    now destruct (on_results (drv m) && next_ok (pages w (results_page (drv m)))).
Qed.

Lemma find_and_process_within (m : manager) :
  within L m -> within L (fst (find_and_process_buttons w m)).
Proof.
  intros Hw. pose proof Hw as (Hs & _).
  unfold find_and_process_buttons, find_connection_buttons.
  rewrite (on_results_settled m Hs).
  pose proof (within_logged (EvSearch (results_page (drv m))) m Hw) as H1.
  set (m1 := logged (EvSearch (results_page (drv m))) m) in *.
  destruct (no_tab (results_page (drv m))) as [Hfirst Hretry].
  assert (Hbuttons : forall bs m0,
             forallb (fun b => negb (opens_tab b)) bs = true ->
             within L m0 ->
             within L (fst (let '(m3, r) := process_connection_buttons bs m0
                            in (m3, truthy r)))).
  { intros bs m0 Hall H0.
    pose proof (process_connection_buttons_within bs m0 Hall H0) as H.
    now destruct (process_connection_buttons bs m0). }
  destruct (found_first (pages w (results_page (drv m)))) as [|b bs] eqn:Ef.
  - change (drv m1) with (drv m). rewrite (on_results_settled m Hs).
    pose proof (within_logged (EvSearch (results_page (drv m))) m1 H1) as H2.
    set (m2 := logged (EvSearch (results_page (drv m))) m1) in *.
    destruct (found_retry (pages w (results_page (drv m)))) as [|b bs] eqn:Er.
    + exact (go_to_next_page_within m2 H2).
    + now apply Hbuttons.
  - now apply Hbuttons.
Qed.

Lemma secondary_tabs_only_main (m : manager) :
  settled m -> only_main m -> secondary_tabs (main_of m) (drv m) = [].
Proof.
  intros (Hmw & _) Honly. unfold secondary_tabs, main_of. rewrite Hmw.
  assert (Hall : forall h, In h (window_handles (drv m)) ->
                           h = results_window (drv m)).
  { intros h Hin. apply Honly. now apply is_open_In. }
  induction (window_handles (drv m)) as [|x l IH]; cbn; [reflexivity|].
  rewrite (Hall x (or_introl eq_refl)), Nat.eqb_refl. cbn.
  apply IH. intros h Hin. apply Hall. now right.
Qed.

(** With no tab open there is nothing a drain could fail to enter. *)
Lemma no_tab_to_enter (m : manager) :
  settled m -> only_main m ->
  enterable w (secondary_tabs (main_of m) (drv m)).
Proof.
  intros Hs Ho. rewrite (secondary_tabs_only_main m Hs Ho). constructor.
Qed.

Lemma process_opened_tabs_within (m : manager) :
  within L m ->
  within L (fst (process_opened_tabs w m))
  /\ carries_on m (fst (process_opened_tabs w m)).
Proof.
  intros (Hs & Ho & Hm & Hc).
  pose proof (no_tab_to_enter m Hs Ho) as Hent.
  pose proof (process_opened_tabs_carries_on w m Hs Hent) as Hcarry.
  split; [|exact Hcarry].
  destruct Hcarry as (Hs' & Hrw & Hmax & _).
  pose proof (process_opened_tabs_made w m) as Hmade.
  pose proof Hs as (Hmw & Hcur & Hopen).
  assert (Hin : is_open (main_of m) (drv m) = true).
  { unfold main_of. rewrite Hmw, <- Hcur. exact Hopen. }
  destruct (process_opened_tabs_handles w m Hin Hent) as (_ & _ & Honly).
  rewrite (secondary_tabs_only_main m Hs Ho) in Hmade.
  destruct (process_opened_tabs w m) as [m' made]. cbn [fst] in *.
  unfold within. split_ands; [exact Hs' | | congruence |].
  - intros h Hh. rewrite Hrw. specialize (Honly h Hh).
    unfold main_of in Honly. now rewrite Hmw in Honly.
  - cbn in Hmade. lia.
Qed.

Lemma campaign_loop_within (max_tabs : Z) (fuel : nat) :
  forall m m',
    within L m -> campaign_loop fuel w max_tabs m = Some m' ->
    within L m' /\ carries_on m m'.
Proof.
  induction fuel as [|fuel IH]; intros m m' Hw H; [discriminate|].
  cbn [campaign_loop] in H.
  pose proof (find_and_process_within m Hw) as H1.
  pose proof (find_and_process_carries_on w m (proj1 Hw)) as C1.
  destruct (find_and_process_buttons w m) as [m1 continue]. cbn [fst] in H1, C1.
  destruct continue; cbn [negb] in H; [|now inversion H; subst].
  set (m2 := if _ >=? max_tabs then fst (process_opened_tabs w m1) else m1) in H.
  assert (H2 : within L m2 /\ carries_on m1 m2).
  { subst m2. destruct (_ >=? max_tabs);
      [now apply process_opened_tabs_within
      | split; [exact H1 | apply carries_on_refl, H1]]. }
  destruct H2 as [H2 C2].
  pose proof (go_to_next_page_within m2 H2) as H3.
  pose proof (go_to_next_page_carries_on w m2 (proj1 H2)) as C3.
  destruct (go_to_next_page w m2) as [m3 more]. cbn [fst] in H3, C3.
  pose proof (carries_on_trans _ _ _ (carries_on_trans _ _ _ C1 C2) C3) as C13.
  destruct more.
  - destruct (IH m3 m' H3 H) as [Hw' C']. split; [exact Hw'|].
    exact (carries_on_trans _ _ _ C13 C').
  - inversion H; subst. now split.
Qed.

Lemma finally_drain_within (m : manager) :
  within L m ->
  within L (finally_drain w m) /\ carries_on m (finally_drain w m).
Proof.
  intros Hw.
  pose proof (process_opened_tabs_within m Hw) as ((Hs1 & Ho1 & Hm1 & Hc1) & Hcarry1).
  pose proof Hw as (Hs & Ho & _).
  pose proof (finally_drain_carries_on w m Hs (no_tab_to_enter m Hs Ho)) as Hcarry.
  split; [|exact Hcarry].
  destruct Hcarry as (Hs' & Hrw & Hmax & _).
  unfold finally_drain in *.
  set (m1 := fst (process_opened_tabs w m)) in *.
  destruct (back_to_main_quietly_frame m1) as [Hcount Hhandles].
  destruct Hcarry1 as (_ & Hrw1 & _).
  unfold within. split_ands; [exact Hs' | | | lia].
  - apply (only_main_same_windows m1);
      [exact Hhandles | rewrite Hrw; symmetry; exact Hrw1 | exact Ho1].
  - destruct Hw as (_ & _ & Hm & _). congruence.
Qed.

End Within.

(** X9. With a positive limit, on pages that show no 'Follow' button
    whose profile opens in a tab, a campaign started in a browser with a
    single window and a counter within the limit never sends more
    requests than the limit allows. *)
Theorem campaign_without_tabs_keeps_limit
        (MAX_TABS MAX_CONNECTIONS : Z) (max_tabs : option Z) (L : Z)
        (w : world) (fuel : nat) (m m' : manager) (r : campaign_result) :
  0 < L ->
  no_tab_opened w ->
  is_open (current (drv m)) (drv m) = true ->
  (forall h, is_open h (drv m) = true -> h = current (drv m)) ->
  connection_count m <= L ->
  run_connection_campaign MAX_TABS MAX_CONNECTIONS max_tabs (Some L)
                          w fuel m = Some (m', r) ->
  r = Statistics (connection_count m') L
  /\ connection_count m <= connection_count m' <= L.
Proof.
  intros HL Hno Hopen Hsingle Hcount Hrun.
  unfold run_connection_campaign in Hrun. cbn [drv] in Hrun.
  assert (Hcur : current_window_handle (drv m) = Some (current (drv m)))
    by (unfold current_window_handle; now rewrite Hopen).
  rewrite Hcur in Hrun.
  pose proof (CampaignFacts.campaign_start_settled m L _ Hcur) as Hs0.
  set (m0 := with_driver _ _) in *.
  assert (Hw0 : Tabs.within L m0).
  { unfold within. split_ands; [exact Hs0 | | reflexivity | exact Hcount].
    intros h Hh. apply Hsingle. exact Hh. }
  destruct (campaign_loop fuel w _ m0) as [m1|] eqn:Hloop; [|discriminate].
  apply (campaign_loop_within w L HL Hno) in Hloop; [|exact Hw0].
  destruct Hloop as [Hw1 Hcarry1].
  pose proof (finally_drain_within w L m1 Hw1) as ((_ & _ & Hmax & Hfin) & Hcarry2).
  pose proof (carries_on_trans _ _ _ Hcarry1 Hcarry2) as (_ & _ & _ & Hup).
  change (connection_count m0) with (connection_count m) in Hup.
  inversion Hrun; subst m' r. rewrite Hmax.
  split; [reflexivity|]. split; [exact Hup | exact Hfin].
Qed.

(** X9 on two pages with two working 'Connect' buttons each and a limit
    of 3. *)
Lemma campaign_without_tabs_keeps_limit_witness :
  exists m' r,
    run_connection_campaign 3 60 None (Some 3) connect_only 3
                            (new_manager 60 one_window) = Some (m', r)
    /\ r = Statistics (connection_count m') 3
    /\ 0 <= connection_count m' <= 3.
Proof.
  eexists. eexists. split; [reflexivity|].
  apply (campaign_without_tabs_keeps_limit 3 60 None 3 connect_only 3
           (new_manager 60 one_window)).
  - lia.
  - intros p. destruct p as [|[|p]]; split; try reflexivity;
      destruct p; reflexivity.
  - reflexivity.
  - intros h Hh. cbn in *. destruct h as [|h]; [reflexivity | discriminate].
  - cbn. lia.
  - reflexivity.
Defined.

End LimitFacts.

(** ** The invitation dialog *)

Module ModalFacts.

Import Modal.

(** Two tries at most: the click goes through when the first or the
    second try does, and otherwise the second exception comes out. *)
Lemma find_and_click_found (c : clicks) :
  find_and_click (Found c)
  = match c 0%nat with
    | None => None
    | Some _ => c 1%nat
    end.
Proof.
  unfold find_and_click, wait_to_click, Retry.wrapper, click_body. cbn.
  destruct (c 0%nat); [|reflexivity].
  now destruct (c 1%nat).
Qed.

(** X10. [send_connection_request] reports success exactly when it
    clicked one of the two send buttons, and it clicks at most one control.
    The 'Send' button is tried only after the lookup or the click of 'Send
    without a note' ended in [NoSuchElementException].  'Dismiss' is
    clicked only after another kind of failure there, and the result is
    then [False].  [None] comes back only when the 'Send' fallback failed
    with something else than [NoSuchElementException]; nothing was clicked
    then, the dialog is left as it is. *)
Theorem request_reported_iff_sent (d : dialog) :
  let '(r, clicked) := send_connection_request d in
  (r = Some true <-> existsb is_send clicked = true)
  /\ (List.length clicked <= 1)%nat
  /\ (In Send clicked ->
      find_and_click (send_without_note d) = Some NoSuchElementException)
  /\ (In Dismiss clicked ->
      r = Some false
      /\ exists e, find_and_click (send_without_note d) = Some e
                   /\ e <> NoSuchElementException)
  /\ (r = None ->
      clicked = []
      /\ find_and_click (send_without_note d) = Some NoSuchElementException
      /\ exists e, find_and_click (send d) = Some e
                   /\ e <> NoSuchElementException).
Proof.
  unfold send_connection_request.
  destruct (find_and_click (send_without_note d)) as [[]|];
    cbn [is_no_such_element];
    [destruct (find_and_click (send d)) as [[]|]
    |destruct (find_and_click (dismiss d))
    |destruct (find_and_click (dismiss d))
    |destruct (find_and_click (dismiss d))
    |destruct (find_and_click (dismiss d))
    |];
    cbn [is_no_such_element existsb is_send orb List.length In];
    (split; [split; intros H; (discriminate || reflexivity)|]);
    (split; [lia|]);
    (split; [intros H; try reflexivity;
             repeat (destruct H as [H|H]; try discriminate); contradiction|]);
    (split; [intros H;
             try (repeat (destruct H as [H|H]; try discriminate);
                  contradiction);
             (split; [reflexivity|]);
             eexists; (split; [reflexivity | discriminate])|]);
    intros H; try discriminate;
    (split; [reflexivity|]); (split; [reflexivity|]);
    eexists; (split; [reflexivity | discriminate]).
Qed.

(** No 'Send without a note' button, a 'Send' button under an overlay:
    [None], and the dialog stays open. *)
Example send_fallback_covered :
  send_connection_request (mkDialog absent covered clickable) = (None, []).
Proof. reflexivity. Qed.

(** A 'Send without a note' button under an overlay: the dialog is
    dismissed. *)
Example send_covered_dismissed :
  send_connection_request (mkDialog covered clickable clickable)
  = (Some false, [Dismiss]).
Proof. reflexivity. Qed.

End ModalFacts.

(** ** The job campaign: limit and totals *)

Module JobsMore.

Import Jobs JobsFacts Forms.
Local Open Scope Z_scope.

(** One card: the limit stays, the counters do not go down, and an
    application is always counted as a view too. *)
Lemma apply_to_job_counts (card : job_card) (m : job_manager) :
  application_count (apply_to_job card m)
  = application_count m + applied_on [card]
  /\ viewed_jobs_count (apply_to_job card m)
     = viewed_jobs_count m + viewed_on [card]
  /\ 0 <= applied_on [card] <= viewed_on [card]
  /\ viewed_on [card] <= 1.
Proof. destruct card; cbn; lia. Qed.

Lemma applied_le_viewed (cards : list job_card) :
  0 <= applied_on cards <= viewed_on cards.
Proof.
  induction cards as [|card rest IH]; [cbn; lia|].
  destruct card; cbn [applied_on viewed_on]; lia.
Qed.

(** A run of cards under the limit [L]: the counter of applications does
    not go down, grows by no more than the counter of views does, and
    does not pass a positive limit it was within. *)
Lemma apply_to_cards_sound (L : Z) (cards : list job_card) :
  forall m,
    max_applications m = L ->
    application_count m <= application_count (apply_to_cards cards m)
    /\ application_count (apply_to_cards cards m) - application_count m
       <= viewed_jobs_count (apply_to_cards cards m) - viewed_jobs_count m
    /\ (0 < L -> application_count m <= L ->
        application_count (apply_to_cards cards m) <= L).
Proof.
  induction cards as [|card rest IH]; intros m Hmax;
    cbn [apply_to_cards]; [lia|].
  destruct (limit_reached m) eqn:Hlim; [lia|].
  destruct (apply_to_job_counts card m) as (Ha & Hv & Hb & Hone).
  destruct (apply_to_job_frame card m) as [Hmax' _].
  destruct (IH (apply_to_job card m)) as (I1 & I2 & I3); [congruence|].
  split; [lia|]. split; [lia|].
  intros HL Hle. apply I3; [exact HL|].
  unfold limit_reached in Hlim. rewrite Hmax in Hlim.
  apply andb_false_iff in Hlim. destruct Hlim as [Hl|Hl].
  - rewrite Z.gtb_ltb in Hl. apply Z.ltb_ge in Hl. lia.
  - rewrite Z.geb_leb in Hl. apply Z.leb_gt in Hl. lia.
Qed.

Lemma job_loop_sound (L : Z) (w : job_world) (fuel : nat) :
  forall m m',
    max_applications m = L ->
    campaign_loop fuel w m = Some m' ->
    max_applications m' = L
    /\ application_count m <= application_count m'
    /\ application_count m' - application_count m
       <= viewed_jobs_count m' - viewed_jobs_count m
    /\ (0 < L -> application_count m <= L -> application_count m' <= L)
    /\ (0 < L -> L <= application_count m -> m' = m).
Proof.
  induction fuel as [|fuel IH]; intros m m' Hmax H; [discriminate|].
  cbn [campaign_loop] in H.
  destruct (limit_reached m) eqn:Hlim.
  { inversion H; subst m'. repeat split; try lia; exact Hmax. }
  assert (Hunder : 0 < L -> L <= application_count m -> False).
  { intros HL Hle. unfold limit_reached in Hlim. rewrite Hmax in Hlim.
    apply andb_false_iff in Hlim. destruct Hlim as [Hl|Hl].
    - rewrite Z.gtb_ltb in Hl. apply Z.ltb_ge in Hl. lia.
    - rewrite Z.geb_leb in Hl. apply Z.leb_gt in Hl. lia. }
  assert (Hstep : forall m1,
             max_applications m1 = L ->
             application_count m <= application_count m1 ->
             application_count m1 - application_count m
             <= viewed_jobs_count m1 - viewed_jobs_count m ->
             (0 < L -> application_count m <= L -> application_count m1 <= L) ->
             (let '(m2, ok) := go_to_next_page w m1 in
              if ok then campaign_loop fuel w m2 else Some m2) = Some m' ->
             max_applications m' = L
             /\ application_count m <= application_count m'
             /\ application_count m' - application_count m
                <= viewed_jobs_count m' - viewed_jobs_count m
             /\ (0 < L -> application_count m <= L -> application_count m' <= L)
             /\ (0 < L -> L <= application_count m -> m' = m)).
  { intros m1 Hmax1 Hup1 Hdiff1 Hlim1 Hgo. unfold go_to_next_page in Hgo.
    destruct (job_next_ok (w (job_results_page m1))).
    - apply IH in Hgo; [|exact Hmax1].
      cbn [application_count viewed_jobs_count] in Hgo.
      destruct Hgo as (G1 & G2 & G3 & G4 & _).
      split; [exact G1|]. split; [lia|]. split; [lia|].
      split; [|intros HL Hle; exfalso; now apply Hunder].
      intros HL Hle. apply G4; [exact HL | now apply Hlim1].
    - inversion Hgo; subst m'.
      split; [exact Hmax1|]. split; [exact Hup1|]. split; [exact Hdiff1|].
      split; [exact Hlim1|]. intros HL Hle. exfalso. now apply Hunder. }
  destruct (listings (w (job_results_page m))) as [|card cards].
  - apply (Hstep m); try assumption; try lia.
  - destruct (apply_to_cards_sound L (card :: cards) m Hmax) as (A1 & A2 & A3).
    apply (Hstep (apply_to_cards (card :: cards) m)); try assumption.
    rewrite (proj1 (apply_to_cards_frame (card :: cards) m)). exact Hmax.
Qed.

(** X11. A job campaign goes on from the counters the manager already
    holds.  Its statistics repeat the limit it was given (or the
    configured default); the number of applications has not gone down and
    has grown by no more than the number of jobs viewed; with a positive
    limit it is at most the larger of the limit and the number before the
    campaign, and a campaign started at or above the limit leaves both
    counters as they were.  On a manager whose counters are 0, as after
    its creation, the statistics show no more applications than jobs
    viewed and, with a positive limit, no more than the limit.  Without a
    place to start from the statistics show 0 and 0. *)
Theorem job_campaign_keeps_limit (MAX_APPLICATIONS : Z) (has_start : bool)
        (limit : option Z) (w : job_world) (fuel : nat) (m : job_manager)
        (s : job_stats) :
  run_job_campaign MAX_APPLICATIONS has_start limit w fuel m = Some s ->
  let L := match limit with Some n => n | None => MAX_APPLICATIONS end in
  stats_max_applications s = L
  /\ (has_start = false -> successful_applications s = 0 /\ viewed_jobs s = 0)
  /\ (has_start = true ->
      application_count m <= successful_applications s
      /\ successful_applications s - application_count m
         <= viewed_jobs s - viewed_jobs_count m
      /\ (0 < L ->
          successful_applications s <= Z.max L (application_count m))
      /\ (0 < L -> L <= application_count m ->
          successful_applications s = application_count m
          /\ viewed_jobs s = viewed_jobs_count m)
      /\ (application_count m = 0 -> viewed_jobs_count m = 0 ->
          0 <= successful_applications s <= viewed_jobs s
          /\ (0 < L -> successful_applications s <= L))).
Proof.
  intros Hrun. cbv zeta. unfold run_job_campaign in Hrun.
  set (L := match limit with Some n => n | None => MAX_APPLICATIONS end) in *.
  destruct has_start.
  - destruct (campaign_loop fuel w _) as [m'|] eqn:Hloop; [|discriminate].
    apply (job_loop_sound L) in Hloop; [|reflexivity].
    cbn [application_count viewed_jobs_count] in Hloop.
    destruct Hloop as (H1 & H2 & H3 & H4 & H5).
    inversion Hrun; subst s.
    cbn [successful_applications viewed_jobs stats_max_applications].
    split; [exact H1|]. split; [discriminate|]. intros _.
    split; [exact H2|]. split; [exact H3|]. split; [|split].
    + intros HL.
      destruct (Z.le_gt_cases (application_count m) L) as [Hle|Hgt].
      * specialize (H4 HL Hle). lia.
      * rewrite (H5 HL) by lia. cbn. lia.
    + intros HL Hle. rewrite (H5 HL Hle). now cbn.
    + intros Ha Hv. split; [lia|]. intros HL. apply H4; [exact HL | lia].
  - inversion Hrun; subst s. cbn.
    split; [reflexivity|]. split; [now split | discriminate].
Qed.

(** X11 on three pages with one successful application each and a limit
    of 2, on a manager that has applied to one job before. *)
Lemma job_campaign_keeps_limit_witness :
  exists s,
    run_job_campaign 10 true (Some 2) three_job_pages 4 (mkJobManager 1 1 10 0)
    = Some s
    /\ stats_max_applications s = 2
    /\ 1 <= successful_applications s
    /\ successful_applications s - 1 <= viewed_jobs s - 1
    /\ successful_applications s <= Z.max 2 1.
Proof.
  eexists. split; [reflexivity|].
  destruct (job_campaign_keeps_limit 10 true (Some 2) three_job_pages 4
                                     (mkJobManager 1 1 10 0) _ eq_refl)
    as (H1 & _ & H3).
  destruct (H3 eq_refl) as (A & B & C & _).
  split; [exact H1|]. split; [exact A|]. split; [exact B|].
  apply C. lia.
Defined.






End JobsMore.

(** ** Substrings *)

Module StrFacts.

Import Py.
Local Open Scope string_scope.

Lemma append_assoc (a b c : string) : (a ++ b) ++ c = a ++ (b ++ c).
Proof. induction a as [|x a IH]; cbn; [reflexivity | now rewrite IH]. Qed.

Lemma prefix_empty (s : string) : prefix EmptyString s = true.
Proof. now destruct s. Qed.

Lemma prefix_iff (p : string) :
  forall s, prefix p s = true <-> exists t, s = p ++ t.
Proof.
  induction p as [|a p IH]; intros s.
  - rewrite prefix_empty. split; [intros _; now exists s | reflexivity].
  - destruct s as [|b s]; cbn.
    + split; [discriminate | intros [t Ht]; discriminate].
    + destruct (ascii_dec a b) as [->|Hne].
      * rewrite IH. split; intros [t Ht]; exists t; congruence.
      * split; [discriminate | intros [t Ht]; congruence].
Qed.

(** [str_in p s] holds exactly when [p] occurs in [s]. *)
Lemma str_in_iff (p s : string) :
  str_in p s = true <-> exists a b, s = a ++ p ++ b.
Proof.
  induction s as [|c s IH]; cbn [str_in].
  - rewrite orb_false_r, prefix_iff. split.
    + intros [t Ht]. now exists EmptyString, t.
    + intros [a [b H]]. destruct a; [now exists b | discriminate].
  - rewrite orb_true_iff, prefix_iff, IH. split.
    + intros [[t Ht]|[a [b H]]].
      * now exists EmptyString, t.
      * exists (String c a), b. cbn. congruence.
    + intros [a [b H]]. destruct a as [|x a]; cbn in H.
      * left. now exists b.
      * right. exists a, b. congruence.
Qed.

Lemma str_in_trans (p q s : string) :
  str_in p q = true -> str_in q s = true -> str_in p s = true.
Proof.
  rewrite !str_in_iff. intros [a [b ->]] [a' [b' ->]].
  exists (a' ++ a), (b ++ b'). now rewrite !append_assoc.
Qed.

Lemma str_in_empty (s : string) : str_in EmptyString s = true.
Proof. destruct s; reflexivity. Qed.

End StrFacts.

(** ** Matching labels, options and boxes *)

Module FormsFacts.

Import Py PyFacts Jobs JobsFacts Forms StrFacts.
Local Open Scope string_scope.

Lemma walk_mappings_sound (mappings : list (string * string))
      (field_label : string) (profile_data : dict) (k : string) :
  walk_mappings mappings field_label profile_data = Some k ->
  get_truthy profile_data k = true.
Proof.
  induction mappings as [|rule rest IH]; cbn; [discriminate|].
  destruct (rule_applies field_label profile_data rule) eqn:Hr; [|exact IH].
  intros H. inversion H; subst.
  unfold rule_applies in Hr. now apply andb_true_iff in Hr.
Qed.

Lemma walk_profile_keys_sound (ks : list string) (field_label : string)
      (profile_data : dict) (k : string) :
  walk_profile_keys ks field_label profile_data = Some k ->
  get_truthy profile_data k = true
  /\ str_in (replace_char "_" " " k) field_label = true
  /\ In k ks.
Proof.
  induction ks as [|key rest IH]; cbn; [discriminate|].
  destruct (str_in (replace_char "_" " " key) field_label
            && get_truthy profile_data key) eqn:Hr.
  - intros H. inversion H; subst. apply andb_true_iff in Hr.
    repeat split; try tauto; now left.
  - intros H. destruct (IH H) as (H1 & H2 & H3). repeat split; auto.
Qed.

Lemma walk_profile_keys_none (ks : list string) (field_label : string)
      (profile_data : dict) :
  walk_profile_keys ks field_label profile_data = None
  <-> Forall (fun key => str_in (replace_char "_" " " key) field_label
                         && get_truthy profile_data key = false) ks.
Proof.
  induction ks as [|key rest IH]; cbn.
  - split; [constructor | reflexivity].
  - destruct (str_in (replace_char "_" " " key) field_label
              && get_truthy profile_data key) eqn:Hr.
    + split; [discriminate | intros H; inversion H; congruence].
    + rewrite IH. split; [now constructor | intros H; now inversion H].
Qed.

Lemma get_truthy_value (d : dict) (k : string) :
  get_truthy d k = true <-> exists v, get d k = Some v /\ nonempty v = true.
Proof.
  unfold get_truthy. destruct (get d k) as [v|].
  - split; [intros H; now exists v | intros [v' [H1 H2]]; congruence].
  - split; [discriminate | intros [v' [H1 _]]; discriminate].
Qed.

Lemma resolve_input_label_is_resolve_label (label : string) (d : dict) :
  resolve_input_label label d = resolve_label field_mappings label d.
Proof. reflexivity. Qed.

Lemma resolve_label_sound (mappings : list (string * string))
      (label : string) (profile_data : dict) (k : string) :
  resolve_label mappings label profile_data = Some k ->
  get_truthy profile_data k = true.
Proof.
  unfold resolve_label.
  destruct (key_truthy (walk_mappings mappings (lower label) profile_data)).
  - apply walk_mappings_sound.
  - intros H. now apply walk_profile_keys_sound in H.
Qed.

(** X13. Whatever the rule table, a label never resolves to a key that
    is missing from the profile or whose value is empty: the key returned
    by the two matching loops always carries a non-empty value.  This
    holds for text inputs, dropdowns, textareas and radio groups alike. *)
Theorem resolved_key_has_value (mappings : list (string * string))
        (label : string) (profile_data : dict) (k : string) :
  resolve_label mappings label profile_data = Some k ->
  exists v, get profile_data k = Some v /\ v <> EmptyString.
Proof.
  intros H. apply resolve_label_sound, get_truthy_value in H.
  destruct H as [v [Hget Hne]]. exists v. split; [exact Hget|].
  intros ->. discriminate.
Qed.

(** X13 on the text-input table. *)
Lemma resolved_key_has_value_witness :
  exists v, get [("phone", "555 0100")] "phone" = Some v /\ v <> EmptyString.
Proof.
  apply (resolved_key_has_value field_mappings "Mobile phone number"
                                [("phone", "555 0100")] "phone").
  reflexivity.
Defined.

(** X14. With a table whose rules all target non-empty keys (as the four
    tables of the source do), a label stays unresolved exactly when no
    rule has its pattern in the lowercased label together with a filled
    key, and no profile key with a value, its underscores read as spaces,
    occurs in the lowercased label. *)
Theorem unresolved_iff_nothing_applies (mappings : list (string * string))
        (label : string) (profile_data : dict) :
  Forall (fun rule => nonempty (snd rule) = true) mappings ->
  (resolve_label mappings label profile_data = None
   <-> Forall (fun rule => str_in (fst rule) (lower label)
                           && get_truthy profile_data (snd rule) = false)
              mappings
       /\ Forall (fun key => str_in (replace_char "_" " " key) (lower label)
                             && get_truthy profile_data key = false)
                 (keys profile_data)).
Proof.
  intros Hkeys. unfold resolve_label.
  destruct (walk_mappings mappings (lower label) profile_data) as [k|] eqn:Hw.
  - assert (Hk : nonempty k = true).
    { clear -Hw Hkeys. induction mappings as [|rule rest IH]; [discriminate|].
      cbn in Hw. inversion Hkeys; subst.
      destruct (rule_applies (lower label) profile_data rule);
        [now inversion Hw; subst | now apply IH]. }
    cbn [key_truthy]. rewrite Hk. split; [discriminate|].
    intros [Hnone _]. apply walk_mappings_none in Hnone. congruence.
  - cbn [key_truthy]. rewrite walk_profile_keys_none.
    apply walk_mappings_none in Hw. tauto.
Qed.

(** X14 on the four tables of the source. *)
Lemma unresolved_iff_nothing_applies_witness :
  (resolve_label field_mappings "Favorite Color" [("full_name", "Ed")] = None
   <-> Forall (fun rule => str_in (fst rule) (lower "Favorite Color")
                           && get_truthy [("full_name", "Ed")] (snd rule) = false)
              field_mappings
       /\ Forall (fun key => str_in (replace_char "_" " " key)
                                    (lower "Favorite Color")
                             && get_truthy [("full_name", "Ed")] key = false)
                 (keys [("full_name", "Ed")]))
  /\ Forall (fun rule => nonempty (snd rule) = true) dropdown_mappings
  /\ Forall (fun rule => nonempty (snd rule) = true) textarea_mappings
  /\ Forall (fun rule => nonempty (snd rule) = true) radio_mappings.
Proof.
  split; [|repeat split; repeat constructor].
  apply (unresolved_iff_nothing_applies field_mappings "Favorite Color"
                                        [("full_name", "Ed")]).
  repeat constructor.
Defined.

(** A rule that can only apply when an earlier rule applies never
    decides, and can be dropped. *)
Lemma walk_mappings_drop (before after : list (string * string))
      (rule : string * string) (field_label : string) (profile_data : dict) :
  (rule_applies field_label profile_data rule = true ->
   Exists (fun r => rule_applies field_label profile_data r = true) before) ->
  walk_mappings (before ++ rule :: after) field_label profile_data
  = walk_mappings (before ++ after) field_label profile_data.
Proof.
  induction before as [|r before IH]; intros Hshadow; cbn.
  - destruct (rule_applies field_label profile_data rule); [|reflexivity].
    specialize (Hshadow eq_refl). inversion Hshadow.
  - destruct (rule_applies field_label profile_data r) eqn:Hr; [reflexivity|].
    apply IH. intros Happ. specialize (Hshadow Happ).
    inversion Hshadow; subst; [congruence | assumption].
Qed.

(** X15. The text-input rules for "first name" and "last name" never
    decide anything: every label resolves to the same key with and
    without them, because a label that contains one of them contains
    "name", whose rule comes first and targets the same key. *)
Theorem first_and_last_name_rules_are_dead (label : string)
        (profile_data : dict) :
  resolve_label field_mappings_short label profile_data
  = resolve_input_label label profile_data.
Proof.
  unfold resolve_input_label, resolve_label.
  assert (Hname : forall pattern,
             str_in "name" pattern = true ->
             rule_applies (lower label) profile_data (pattern, "full_name") = true ->
             Exists (fun r => rule_applies (lower label) profile_data r = true)
                    [("name", "full_name")]).
  { intros pattern Hin Happ. constructor.
    unfold rule_applies in *. cbn [fst snd] in *.
    apply andb_true_iff in Happ. destruct Happ as [Hp Hv].
    rewrite Hv, (str_in_trans "name" pattern (lower label) Hin Hp).
    reflexivity. }
  assert (Hsame : walk_mappings field_mappings (lower label) profile_data
                  = walk_mappings field_mappings_short (lower label) profile_data).
  { unfold field_mappings, field_mappings_short.
    etransitivity.
    - exact (walk_mappings_drop [("name", "full_name")] _
                                ("first name", "full_name") _ _
                                (Hname "first name" eq_refl)).
    - exact (walk_mappings_drop [("name", "full_name")] _
                                ("last name", "full_name") _ _
                                (Hname "last name" eq_refl)). }
  now rewrite Hsame.
Qed.

Lemma soft_skills_resolution (label : string) (profile_data : dict) :
  str_in "soft skills" (lower label) = true ->
  get_truthy profile_data "technical_skills" = true ->
  resolve_label textarea_mappings label profile_data = Some "technical_skills"
  \/ resolve_label textarea_mappings label profile_data
     = Some "reason_for_leaving".
Proof.
  intros Hsoft Htech.
  assert (Hskills : str_in "skills" (lower label) = true)
    by (apply (str_in_trans "skills" "soft skills"); [reflexivity | exact Hsoft]).
  unfold resolve_label, textarea_mappings. cbn [walk_mappings].
  unfold rule_applies. cbn [fst snd].
  destruct (str_in "reason" (lower label)
            && get_truthy profile_data "reason_for_leaving"); [now right|].
  destruct (str_in "leaving" (lower label)
            && get_truthy profile_data "reason_for_leaving"); [now right|].
  rewrite Hskills, Htech. now left.
Qed.

(** X16. A textarea whose label mentions "soft skills" is never filled
    from [soft_skills] while [technical_skills] has a value: the rule for
    "skills" comes first, so the text typed is the value of
    [technical_skills], or that of [reason_for_leaving] when one of the
    two rules before it applies. *)
Theorem soft_skills_rule_is_shadowed (label : string) (c : config) (d : dict) :
  CONFIG_profile c = Some d ->
  str_in "soft skills" (lower label) = true ->
  get_truthy d "technical_skills" = true ->
  exists key value,
    fill_textarea true (Some label) c = (Filled key value, c)
    /\ get d key = Some value
    /\ (key = "technical_skills" \/ key = "reason_for_leaving").
Proof.
  intros Hprofile Hsoft Htech.
  unfold fill_textarea. cbv zeta. rewrite Hprofile. cbn [profile_or_empty].
  destruct label as [|x label]; [discriminate|].
  pose proof (soft_skills_resolution (String x label) d Hsoft Htech) as Hres.
  assert (Hkey : exists key,
             resolve_label textarea_mappings (String x label) d = Some key
             /\ nonempty key = true
             /\ (key = "technical_skills" \/ key = "reason_for_leaving")).
  { destruct Hres as [H|H]; eexists; (split; [exact H|]); split;
      try reflexivity; tauto. }
  destruct Hkey as (key & Hr & Hne & Hwhich). rewrite Hr.
  destruct (proj1 (get_truthy_value d key) (resolve_label_sound _ _ _ _ Hr))
    as (value & Hget & Hv).
  rewrite Hget, Hne, Hv. cbn [andb].
  exists key, value. repeat split; assumption.
Qed.

(** X16 on the label "Soft skills". *)
Lemma soft_skills_rule_is_shadowed_witness :
  exists key value,
    fill_textarea true (Some "Soft skills")
                  (mkConfig (Some [("technical_skills", "Rocq");
                                   ("soft_skills", "listening")]) NoFile)
    = (Filled key value,
       mkConfig (Some [("technical_skills", "Rocq");
                       ("soft_skills", "listening")]) NoFile)
    /\ get [("technical_skills", "Rocq"); ("soft_skills", "listening")] key
       = Some value
    /\ (key = "technical_skills" \/ key = "reason_for_leaving").
Proof.
  apply (soft_skills_rule_is_shadowed
           "Soft skills"
           (mkConfig (Some [("technical_skills", "Rocq");
                            ("soft_skills", "listening")]) NoFile)
           [("technical_skills", "Rocq"); ("soft_skills", "listening")]);
    reflexivity.
Defined.

(** X17. A checkbox whose key (the lowercased label with spaces turned
    into underscores) has a non-empty value ends, when the click goes
    through, checked exactly when the lowercased value is one of "yes",
    "true", "1", "checked", whatever its state before; it is clicked only
    when its state differs from that, a second pass never clicks it again,
    the configuration is not touched, and a click that fails leaves it as
    it was. *)
Theorem checkbox_reaches_wanted_state (label value : string)
        (is_selected : bool) (c : config) (d : dict) :
  label <> EmptyString ->
  CONFIG_profile c = Some d ->
  get d (checkbox_key label) = Some value ->
  value <> EmptyString ->
  fill_checkbox true (Some label) is_selected true c
  = (if Bool.eqb (should_check value) is_selected then BoxLeft else BoxClicked,
     should_check value, c)
  /\ fill_checkbox true (Some label) (should_check value) true c
     = (BoxLeft, should_check value, c)
  /\ fill_checkbox true (Some label) is_selected false c
     = (if Bool.eqb (should_check value) is_selected
        then BoxLeft else BoxClickFailed,
        is_selected, c).
Proof.
  intros Hlabel Hprofile Hget Hvalue.
  unfold fill_checkbox. rewrite Hprofile. cbn [profile_or_empty].
  destruct label as [|x label]; [congruence|].
  rewrite Hget.
  destruct value as [|y value]; [congruence|]. cbn [nonempty].
  set (wanted := should_check (String y value)).
  rewrite Bool.eqb_reflx.
  destruct wanted, is_selected; cbn; repeat split; reflexivity.
Qed.

(** X17 on a box "Remote work" that is checked while the profile says
    "No". *)
Lemma checkbox_reaches_wanted_state_witness :
  let c := mkConfig (Some [("remote_work", "No")]) NoFile in
  fill_checkbox true (Some "Remote work") true true c = (BoxClicked, false, c).
Proof.
  cbv zeta.
  apply (proj1 (checkbox_reaches_wanted_state
                  "Remote work" "No" true
                  (mkConfig (Some [("remote_work", "No")]) NoFile)
                  [("remote_work", "No")]
                  ltac:(discriminate) eq_refl eq_refl ltac:(discriminate))).
Defined.

(** *** The alphabet of keys *)

Lemma key_char_plain (c : ascii) :
  is_key_char c = true ->
  lower_ascii c = c /\ is_space c = false
  /\ Ascii.eqb c " " = false /\ Ascii.eqb c "-" = false.
Proof.
  destruct c as [[] [] [] [] [] [] [] []]; vm_compute; intros H;
    try discriminate; repeat split; reflexivity.
Qed.

Lemma filter_chars_alphabet (keep : ascii -> bool) (s : string) :
  any_char (fun c => negb (keep c)) (filter_chars keep s) = false.
Proof.
  induction s as [|c s IH]; cbn; [reflexivity|].
  destruct (keep c) eqn:Hc; cbn; [now rewrite Hc | exact IH].
Qed.

(** On a string made of key characters the steps of the normalization
    change nothing. *)
Lemma plain_steps (s : string) :
  any_char (fun c => negb (is_key_char c)) s = false ->
  lower s = s /\ lstrip s = s /\ rstrip s = s
  /\ replace_char " " "_" s = s /\ replace_char "-" "_" s = s
  /\ filter_chars is_key_char s = s.
Proof.
  induction s as [|c s IH]; cbn [any_char]; [now cbn|].
  intros H. apply orb_false_iff in H. destruct H as [Hc Hs].
  apply negb_false_iff in Hc.
  destruct (key_char_plain c Hc) as (H1 & H2 & H3 & H4).
  destruct (IH Hs) as (I1 & I2 & I3 & I4 & I5 & I6).
  cbn [lower lstrip rstrip replace_char filter_chars].
  rewrite H1, H2, H3, H4, Hc, I1, I3, I4, I5, I6.
  repeat split; try reflexivity.
  destruct s; reflexivity.
Qed.

Lemma normalize_key_alphabet (label : string) :
  any_char (fun c => negb (is_key_char c)) (normalize_key label) = false.
Proof. unfold normalize_key. apply filter_chars_alphabet. Qed.

(** X18. The key derived from a label consists of the characters a-z,
    0-9 and underscore only, and deriving a key from a key gives the key
    back: what is written to the profile is stable under the
    normalization. *)
Theorem normalize_key_stable (label : string) :
  any_char (fun c => negb (is_key_char c)) (normalize_key label) = false
  /\ normalize_key (normalize_key label) = normalize_key label.
Proof.
  split; [apply normalize_key_alphabet|].
  pose proof (normalize_key_alphabet label) as Hplain.
  set (k := normalize_key label) in *.
  destruct (plain_steps k Hplain) as (H1 & H2 & H3 & H4 & H5 & H6).
  unfold normalize_key, strip. now rewrite H1, H2, H3, H4, H5, H6.
Qed.

Lemma any_char_replace (q : ascii -> bool) (a b : ascii) (s : string) :
  any_char (fun c => q c && negb (Ascii.eqb c a)) s = true ->
  any_char q (replace_char a b s) = true.
Proof.
  induction s as [|c s IH]; cbn; [discriminate|].
  intros H. apply orb_true_iff in H. apply orb_true_iff.
  destruct H as [H|H]; [left | right; now apply IH].
  apply andb_true_iff in H. destruct H as [Hq Hne].
  apply negb_true_iff in Hne. now rewrite Hne.
Qed.

(** X19. When the lowercased label of a checkbox contains a character
    other than a-z, 0-9, underscore and space (a question mark, a hyphen,
    a bracket), the key under which the checkbox looks for its value is
    not the key that [_add_missing_field_to_config] writes for that
    label: giving the written key a value in the profile does not change
    what the checkbox finds. *)
Theorem checkbox_key_never_written (label : string) :
  any_char odd_char (lower label) = true ->
  checkbox_key label <> normalize_key (lower label)
  /\ forall (d : dict) (v : string),
       get (set d (normalize_key (lower label)) v) (checkbox_key label)
       = get d (checkbox_key label).
Proof.
  intros Hodd.
  assert (Hne : checkbox_key label <> normalize_key (lower label)).
  { intros Heq.
    pose proof (normalize_key_alphabet (lower label)) as Hplain.
    rewrite <- Heq in Hplain. unfold checkbox_key in Hplain.
    rewrite (any_char_replace (fun c => negb (is_key_char c)) " " "_"
                              (lower label) Hodd) in Hplain.
    discriminate. }
  split; [exact Hne|].
  intros d v. now apply get_set_other.
Qed.

(** X19 on the label "Over 18?". *)
Lemma checkbox_key_never_written_witness :
  checkbox_key "Over 18?" <> normalize_key (lower "Over 18?")
  /\ forall (d : dict) (v : string),
       get (set d (normalize_key (lower "Over 18?")) v)
           (checkbox_key "Over 18?")
       = get d (checkbox_key "Over 18?").
Proof.
  apply (checkbox_key_never_written "Over 18?"). reflexivity.
Defined.

(** *** Options *)

Lemma first_match_bound (test : string -> bool) (items : list string) (i : nat) :
  first_match test items = Some i ->
  exists item,
    nth_error items i = Some item /\ test (lower item) = true
    /\ forall j other, (j < i)%nat -> nth_error items j = Some other ->
                       test (lower other) = false.
Proof.
  revert i. induction items as [|x items IH]; intros i; cbn; [discriminate|].
  destruct (test (lower x)) eqn:Hx.
  - intros H. inversion H; subst. exists x. repeat split; auto.
    intros j other Hj. lia.
  - destruct (first_match test items) as [i'|]; [|discriminate].
    cbn. intros H. inversion H; subst.
    destruct (IH i' eq_refl) as (item & H1 & H2 & H3).
    exists item. repeat split; auto.
    intros [|j] other Hj Hnth; cbn in Hnth.
    + congruence.
    + apply (H3 j); [lia | exact Hnth].
Qed.

Lemma first_match_exists (test : string -> bool) (before after : list string)
      (item : string) :
  test (lower item) = true ->
  exists i, first_match test (before ++ item :: after) = Some i
            /\ (i <= List.length before)%nat.
Proof.
  intros Hitem. induction before as [|x before IH]; cbn.
  - rewrite Hitem. exists O. split; [reflexivity | lia].
  - destruct (test (lower x)); [exists O; split; [reflexivity | lia]|].
    destruct IH as (i & Hi & Hle). rewrite Hi. exists (S i). cbn.
    split; [reflexivity | lia].
Qed.

(** X20. A dropdown whose list has an option with empty text never
    ends with a value and nothing to click: the empty text is contained
    in every value, so an option is chosen, at the latest that one (a
    leading empty option is always the one chosen).  In general the
    option chosen is the first whose lowercased text contains the
    lowercased value or is contained in it, the value being the non-empty
    one the profile holds under the resolved key, and choosing leaves the
    configuration as it is. *)
Theorem dropdown_empty_option_always_fits (aliased : bool)
        (raw_label : option string) (c : config) :
  (forall before after : list string,
      match fst (fill_dropdown aliased raw_label
                               (before ++ EmptyString :: after) c) with
      | NoneFits _ => False
      | Chosen _ i => (i <= List.length before)%nat
      | _ => True
      end)
  /\ forall (options : list string) (key : string) (i : nat) (c' : config),
       fill_dropdown aliased raw_label options c = (Chosen key i, c') ->
       c' = c
       /\ exists value text,
           get (profile_view aliased c) key = Some value
           /\ value <> EmptyString
           /\ nth_error options i = Some text
           /\ (str_in (lower text) (lower value) = true
               \/ str_in (lower value) (lower text) = true)
           /\ forall j other,
               (j < i)%nat -> nth_error options j = Some other ->
               str_in (lower other) (lower value) = false
               /\ str_in (lower value) (lower other) = false.
Proof.
  unfold fill_dropdown, profile_view. cbv zeta.
  destruct raw_label as [[|x label]|];
    try (split; [intros; exact I | intros ? ? ? ? H; discriminate]).
  destruct (resolve_label dropdown_mappings _ _) as [k|];
    try (split; [intros; exact I | intros ? ? ? ? H; discriminate]).
  destruct (get _ k) as [v|] eqn:Hget;
    try (split; [intros; exact I | intros ? ? ? ? H; discriminate]).
  destruct (nonempty k && nonempty v) eqn:Hne;
    try (split; [intros; exact I | intros ? ? ? ? H; discriminate]).
  apply andb_true_iff in Hne. destruct Hne as [_ Hv].
  split.
  - intros before after.
    assert (Hempty : option_matches (lower v) (lower EmptyString) = true).
    { unfold option_matches. cbn [lower]. now rewrite str_in_empty. }
    destruct (first_match_exists _ before after EmptyString Hempty)
      as (i & Hi & Hle).
    rewrite Hi. exact Hle.
  - intros options key i c' H.
    destruct (first_match (option_matches (lower v)) options) as [i'|] eqn:Hm;
      [|discriminate].
    inversion H; subst. split; [reflexivity|].
    destruct (first_match_bound _ _ _ Hm) as (text & H1 & H2 & H3).
    exists v, text. split; [exact Hget|].
    split; [intros ->; discriminate|]. split; [exact H1|]. split.
    + unfold option_matches in H2. now apply orb_true_iff in H2.
    + intros j other Hj Hnth. specialize (H3 j other Hj Hnth).
      unfold option_matches in H3. now apply orb_false_iff in H3.
Qed.

Lemma str_in_of_empty (p : string) :
  str_in p EmptyString = true -> p = EmptyString.
Proof. destruct p; [reflexivity | discriminate]. Qed.

Lemma replace_char_empty (a b : ascii) (s : string) :
  replace_char a b s = EmptyString -> s = EmptyString.
Proof. destruct s; cbn; [reflexivity|]. destruct (Ascii.eqb a0 a); discriminate. Qed.

Lemma walk_mappings_pattern (mappings : list (string * string))
      (field_label : string) (profile_data : dict) (k : string) :
  walk_mappings mappings field_label profile_data = Some k ->
  exists pattern, In (pattern, k) mappings
                  /\ str_in pattern field_label = true.
Proof.
  induction mappings as [|[pattern key] rest IH]; cbn; [discriminate|].
  destruct (rule_applies field_label profile_data (pattern, key)) eqn:Hr.
  - intros H. inversion H; subst. exists pattern. split; [now left|].
    unfold rule_applies in Hr. now apply andb_true_iff in Hr.
  - intros H. destruct (IH H) as (p & Hin & Hp). exists p. split; [now right | exact Hp].
Qed.

(** X21. In a radio group the label clicked is the first whose
    lowercased text contains the lowercased value, or shares "yes" with
    it, or shares "no" with it; the value is the non-empty one held under
    the resolved key and the configuration is left as it is.  A group
    whose legend has no text is not skipped, unlike the other field
    kinds: it counts as a field without data, and nothing is added to
    the configuration for it. *)
Theorem radio_group_choice (aliased : bool) (c : config) :
  (forall (legend : option string) (labels : list string) (key : string)
          (i : nat) (c' : config),
      fill_radio_group aliased legend labels c = (Chosen key i, c') ->
      c' = c
      /\ exists value text,
          get (profile_view aliased c) key = Some value
          /\ value <> EmptyString
          /\ nth_error labels i = Some text
          /\ (str_in (lower value) (lower text) = true
              \/ (str_in "yes" (lower value) = true
                  /\ str_in "yes" (lower text) = true)
              \/ (str_in "no" (lower value) = true
                  /\ str_in "no" (lower text) = true))
          /\ forall j other,
              (j < i)%nat -> nth_error labels j = Some other ->
              radio_matches (lower value) (lower other) = false)
  /\ forall labels : list string,
       fill_radio_group aliased (Some EmptyString) labels c
       = (ChoiceNoData, c).
Proof.
  split.
  - unfold fill_radio_group, profile_view. cbv zeta.
    intros legend labels key i c' H.
    destruct legend as [label|]; [|discriminate].
    destruct (resolve_label radio_mappings _ _) as [k|]; [|discriminate].
    destruct (get _ k) as [v|] eqn:Hget; [|discriminate].
    destruct (nonempty k && nonempty v) eqn:Hne; [|discriminate].
    apply andb_true_iff in Hne. destruct Hne as [_ Hv].
    destruct (first_match (radio_matches (lower v)) labels) as [i'|] eqn:Hm;
      [|discriminate].
    inversion H; subst. split; [reflexivity|].
    destruct (first_match_bound _ _ _ Hm) as (text & H1 & H2 & H3).
    exists v, text. split; [exact Hget|].
    split; [intros ->; discriminate|]. split; [exact H1|].
    split; [|exact H3].
    unfold radio_matches in H2.
    apply orb_true_iff in H2. destruct H2 as [H2|H2]; [now left|].
    apply orb_true_iff in H2.
    destruct H2 as [H2|H2]; apply andb_true_iff in H2; tauto.
  - intros labels. unfold fill_radio_group. cbv zeta.
    set (d := if aliased then profile_or_empty (CONFIG_profile c) else []).
    assert (Hadd : _add_missing_field_to_config (lower EmptyString) c = c)
      by reflexivity.
    destruct (resolve_label radio_mappings EmptyString d) as [k|] eqn:Hr;
      [|now rewrite Hadd].
    assert (Hk : k = EmptyString).
    { unfold resolve_label in Hr. cbn [lower] in Hr.
      destruct (walk_mappings radio_mappings EmptyString d) as [k'|] eqn:Hw.
      - apply walk_mappings_pattern in Hw. destruct Hw as (p & Hin & Hp).
        apply str_in_of_empty in Hp. subst p.
        cbn in Hin. repeat (destruct Hin as [Hin|Hin]; [discriminate|]).
        destruct Hin.
      - cbn [key_truthy] in Hr. apply walk_profile_keys_sound in Hr.
        destruct Hr as (_ & Hp & _). apply str_in_of_empty in Hp.
        now apply replace_char_empty in Hp. }
    subst k. destruct (get d EmptyString) as [v|]; now rewrite ?Hadd.
Qed.

End FormsFacts.

(** ** A pass over the text inputs of a form *)

Module FormPassFacts.

Import Py PyFacts Jobs JobsFacts Forms FormsFacts.
Local Open Scope string_scope.

Lemma get_app (d e : dict) (k : string) :
  get (d ++ e)%list k
  = match get d k with Some v => Some v | None => get e k end.
Proof.
  induction d as [|[k' v'] d IH]; cbn; [reflexivity|].
  now destruct (String.eqb k' k).
Qed.

Lemma get_empties (e : dict) (k v : string) :
  Forall (fun kv => snd kv = EmptyString) e ->
  get e k = Some v -> v = EmptyString.
Proof.
  induction 1 as [|[k' v'] e Hx He IH]; cbn; [discriminate|].
  cbn in Hx. destruct (String.eqb k' k); [congruence | exact IH].
Qed.

Lemma grown_refl (d : dict) : grown_by_empties d d.
Proof.
  exists []. rewrite app_nil_r.
  split; [reflexivity|]. split; [constructor | intros k []].
Qed.

Lemma grown_get (d d' : dict) (k v : string) :
  grown_by_empties d d' -> get d k = Some v -> get d' k = Some v.
Proof. intros (e & -> & _ & _) H. now rewrite get_app, H. Qed.

Lemma grown_get_back (d d' : dict) (k v : string) :
  grown_by_empties d d' -> get d' k = Some v ->
  get d k = Some v \/ (get d k = None /\ v = EmptyString).
Proof.
  intros (e & -> & He & _). rewrite get_app.
  destruct (get d k); [now left|].
  intros H. right. split; [reflexivity|]. now apply (get_empties e k).
Qed.

Lemma grown_get_truthy (d d' : dict) (k : string) :
  grown_by_empties d d' -> get_truthy d' k = get_truthy d k.
Proof.
  intros Hg. unfold get_truthy. destruct (get d' k) as [v|] eqn:H'.
  - destruct (grown_get_back _ _ _ _ Hg H') as [H|[H ->]];
      rewrite H; reflexivity.
  - destruct (get d k) as [v|] eqn:H; [|reflexivity].
    rewrite (grown_get _ _ _ _ Hg H) in H'. discriminate.
Qed.

Lemma grown_trans (d1 d2 d3 : dict) :
  grown_by_empties d1 d2 -> grown_by_empties d2 d3 ->
  grown_by_empties d1 d3.
Proof.
  intros (e & -> & He & Hn) (e' & -> & He' & Hn').
  exists (e ++ e')%list. split; [now rewrite app_assoc|].
  split; [apply Forall_app; now split|].
  intros k Hk. unfold keys in Hk. rewrite map_app in Hk.
  apply in_app_or in Hk. destruct Hk as [Hk|Hk]; [now apply Hn|].
  specialize (Hn' k Hk). rewrite get_app in Hn'.
  destruct (get d1 k); [discriminate | reflexivity].
Qed.

Lemma grown_set (d : dict) (k : string) :
  get d k = None -> grown_by_empties d (set d k EmptyString).
Proof.
  intros H. exists [(k, EmptyString)]. split; [now apply set_absent|].
  split; [repeat constructor|]. intros k' [<-|[]]. exact H.
Qed.

Lemma grown_walk_mappings (mappings : list (string * string))
      (l : string) (d d' : dict) :
  grown_by_empties d d' ->
  walk_mappings mappings l d' = walk_mappings mappings l d.
Proof.
  intros Hg. induction mappings as [|r rest IH]; cbn; [reflexivity|].
  unfold rule_applies. now rewrite (grown_get_truthy _ _ _ Hg), IH.
Qed.

Lemma walk_profile_keys_app (ks1 ks2 : list string) (l : string) (d : dict) :
  walk_profile_keys (ks1 ++ ks2) l d
  = match walk_profile_keys ks1 l d with
    | Some k => Some k
    | None => walk_profile_keys ks2 l d
    end.
Proof.
  induction ks1 as [|k ks1 IH]; cbn; [reflexivity|].
  now destruct (str_in (replace_char "_" " " k) l && get_truthy d k).
Qed.

Lemma grown_walk_keys (ks : list string) (l : string) (d d' : dict) :
  grown_by_empties d d' ->
  walk_profile_keys ks l d' = walk_profile_keys ks l d.
Proof.
  intros Hg. induction ks as [|k ks IH]; cbn; [reflexivity|].
  now rewrite (grown_get_truthy _ _ _ Hg), IH.
Qed.

Lemma grown_walk_profile_keys (l : string) (d d' : dict) :
  grown_by_empties d d' ->
  walk_profile_keys (keys d') l d' = walk_profile_keys (keys d) l d.
Proof.
  intros Hg. pose proof Hg as (e & Hd' & He & Hn).
  rewrite Hd' at 1. unfold keys at 1. rewrite map_app.
  fold (keys d) (keys e). rewrite walk_profile_keys_app.
  rewrite (grown_walk_keys (keys d) l _ _ Hg).
  assert (Hnone : walk_profile_keys (keys e) l d' = None).
  { apply walk_profile_keys_none. apply Forall_forall. intros k Hk.
    rewrite (grown_get_truthy _ _ k Hg). unfold get_truthy.
    rewrite (Hn k Hk). apply andb_false_r. }
  rewrite Hnone. now destruct (walk_profile_keys (keys d) l d).
Qed.

(** Keys with empty values never decide how a label is resolved. *)
Lemma grown_resolve (l : string) (d d' : dict) :
  grown_by_empties d d' ->
  resolve_input_label l d' = resolve_input_label l d.
Proof.
  intros Hg. unfold resolve_input_label. cbv zeta.
  now rewrite (grown_walk_mappings _ _ _ _ Hg),
              (grown_walk_profile_keys _ _ _ Hg).
Qed.

Lemma add_missing_grows (l : string) (c : config) :
  grown_by_empties
    (profile_or_empty (CONFIG_profile c))
    (profile_or_empty (CONFIG_profile (_add_missing_field_to_config l c))).
Proof.
  pose proof (add_missing_field_cases l c) as H. cbv zeta in H.
  destruct H as [H|[Hn Ha]].
  - rewrite H. apply grown_refl.
  - rewrite Ha. cbn [profile_or_empty]. now apply grown_set.
Qed.

Lemma add_missing_profile_kept (l : string) (c : config) :
  CONFIG_profile c <> None ->
  CONFIG_profile (_add_missing_field_to_config l c) <> None.
Proof.
  pose proof (add_missing_field_cases l c) as H. cbv zeta in H.
  destruct H as [H|[Hn Ha]]; [now rewrite H | rewrite Ha; discriminate].
Qed.

Lemma add_missing_none_same (l : string) (c : config) :
  CONFIG_profile (_add_missing_field_to_config l c) = None ->
  _add_missing_field_to_config l c = c.
Proof.
  pose proof (add_missing_field_cases l c) as H. cbv zeta in H.
  destruct H as [H|[Hn Ha]]; [easy | rewrite Ha; discriminate].
Qed.

(** A label observed once is never added again to a configuration that
    holds what the first observation left. *)
Lemma add_missing_fixed (l : string) (c cf : config) :
  grown_by_empties
    (profile_or_empty (CONFIG_profile (_add_missing_field_to_config l c)))
    (profile_or_empty (CONFIG_profile cf)) ->
  CONFIG_profile cf <> None ->
  _add_missing_field_to_config l cf = cf.
Proof.
  intros Hg Hcf. unfold _add_missing_field_to_config in *.
  destruct (String.length l <? 3)%nat; [reflexivity|].
  destruct (CONFIG_profile cf) as [df|]; [|congruence].
  cbn [profile_or_empty] in Hg.
  assert (Hin : contains df (normalize_key l) = true).
  { unfold contains.
    destruct (CONFIG_profile c) as [p|] eqn:Hp.
    - destruct (contains p (normalize_key l)) eqn:Hc.
      + rewrite Hp in Hg.
        cbn [profile_or_empty CONFIG_profile] in Hg. unfold contains in Hc.
        destruct (get p (normalize_key l)) as [v|] eqn:Hget; [|discriminate].
        now rewrite (grown_get _ _ _ _ Hg Hget).
      + cbn [profile_or_empty CONFIG_profile] in Hg.
        now rewrite (grown_get _ _ _ _ Hg (get_set_same p _ _)).
    - cbn [profile_or_empty CONFIG_profile] in Hg.
      now rewrite (grown_get _ _ _ _ Hg (get_set_same [] _ _)). }
  now rewrite Hin.
Qed.

Lemma fill_input_field_config (aliased : bool) (l : option string)
      (c : config) :
  snd (fill_input_field aliased l c) = c
  \/ exists fl, snd (fill_input_field aliased l c)
                = _add_missing_field_to_config fl c.
Proof.
  unfold fill_input_field. cbv zeta.
  destruct l as [[|x label]|]; [now left | | now left].
  destruct (resolve_input_label _ _) as [k|]; [|right; eexists; reflexivity].
  destruct (get _ k) as [v|]; [|right; eexists; reflexivity].
  destruct (nonempty k && nonempty v); [now left | right; eexists; reflexivity].
Qed.

Lemma fill_input_field_filled (aliased : bool) (l : option string)
      (c c1 : config) (k v : string) :
  fill_input_field aliased l c = (Filled k v, c1) ->
  get (profile_view aliased c) k = Some v /\ nonempty v = true /\ c1 = c.
Proof.
  unfold fill_input_field, profile_view. cbv zeta.
  destruct l as [[|x label]|]; [discriminate | | discriminate].
  destruct (resolve_input_label _ _) as [k'|]; [|discriminate].
  destruct (get _ k') as [v'|] eqn:Hget; [|discriminate].
  destruct (nonempty k' && nonempty v') eqn:Hne; [|discriminate].
  intros H. inversion H; subst. apply andb_true_iff in Hne. tauto.
Qed.

Lemma fill_input_field_grows (aliased : bool) (l : option string)
      (c : config) :
  let c1 := snd (fill_input_field aliased l c) in
  grown_by_empties (profile_or_empty (CONFIG_profile c))
                   (profile_or_empty (CONFIG_profile c1))
  /\ (CONFIG_profile c <> None -> CONFIG_profile c1 <> None)
  /\ (CONFIG_profile c1 = None -> c1 = c)
  /\ (in_sync c -> in_sync c1).
Proof.
  cbv zeta.
  destruct (fill_input_field_config aliased l c) as [H|[fl H]]; rewrite H.
  - split; [apply grown_refl | tauto].
  - split; [apply add_missing_grows|].
    split; [apply add_missing_profile_kept|].
    split; [apply add_missing_none_same|].
    intros (d & Hm & Hf). unfold _add_missing_field_to_config.
    destruct (String.length fl <? 3)%nat; [now exists d|].
    rewrite Hm, Hf.
    destruct (contains d (normalize_key fl)); [now exists d|].
    eexists. cbn. split; reflexivity.
Qed.

Lemma fill_input_fields_grow (aliased : bool) (labels : list (option string)) :
  forall c : config,
    let c2 := snd (fill_input_fields aliased labels c) in
    grown_by_empties (profile_or_empty (CONFIG_profile c))
                     (profile_or_empty (CONFIG_profile c2))
    /\ (CONFIG_profile c <> None -> CONFIG_profile c2 <> None)
    /\ (CONFIG_profile c2 = None -> c2 = c)
    /\ (in_sync c -> in_sync c2).
Proof.
  induction labels as [|l rest IH]; intros c; cbn.
  - split; [apply grown_refl | tauto].
  - pose proof (fill_input_field_grows aliased l c) as H1. cbv zeta in H1.
    destruct (fill_input_field aliased l c) as [a c1]. cbn [snd] in H1.
    specialize (IH c1). cbv zeta in IH.
    destruct (fill_input_fields aliased rest c1) as [acts c2].
    cbn [snd] in *.
    destruct H1 as (G1 & S1 & N1 & Y1). destruct IH as (G2 & S2 & N2 & Y2).
    split; [exact (grown_trans _ _ _ G1 G2)|].
    split; [tauto|]. split; [|tauto].
    intros Hnone. pose proof (N2 Hnone) as ->. now apply N1.
Qed.

Lemma fill_input_fields_filled (aliased : bool)
      (labels : list (option string)) :
  forall (c : config) (k v : string),
    In (Filled k v) (fst (fill_input_fields aliased labels c)) ->
    get (profile_or_empty (CONFIG_profile c)) k = Some v
    /\ v <> EmptyString.
Proof.
  induction labels as [|l rest IH]; intros c k v; cbn; [intros []|].
  pose proof (fill_input_field_grows aliased l c) as H1. cbv zeta in H1.
  destruct (fill_input_field aliased l c) as [a c1] eqn:Hf. cbn [snd] in H1.
  specialize (IH c1 k v).
  destruct (fill_input_fields aliased rest c1) as [acts c2].
  cbn [fst] in *. intros [Ha|Hin].
  - subst a. apply fill_input_field_filled in Hf.
    destruct Hf as (Hget & Hne & _). unfold profile_view in Hget.
    destruct aliased; [|discriminate].
    split; [exact Hget | intros ->; discriminate].
  - destruct (IH Hin) as [Hget Hne]. split; [|exact Hne].
    destruct (grown_get_back _ _ _ _ (proj1 H1) Hget) as [H|[_ H]];
      [exact H | contradiction].
Qed.

Lemma fill_input_fields_length (aliased : bool)
      (labels : list (option string)) :
  forall c : config,
    List.length (fst (fill_input_fields aliased labels c))
    = List.length labels.
Proof.
  induction labels as [|l rest IH]; intros c; cbn; [reflexivity|].
  destruct (fill_input_field aliased l c) as [a c1].
  specialize (IH c1).
  destruct (fill_input_fields aliased rest c1) as [acts c2].
  cbn in *. now rewrite IH.
Qed.

(** X22. In a pass over the text inputs, every value typed into a field
    is a non-empty value that the profile held under that key before the
    pass began; the pass keeps every entry of the profile, and whatever it
    adds carries the empty value.  One action is reported per field. *)
Theorem form_pass_types_profile_values (labels : list (option string))
        (c : config) :
  let acts := fst (_fill_form_inputs labels c) in
  let before := profile_or_empty (CONFIG_profile c) in
  let after := profile_or_empty (CONFIG_profile (snd (_fill_form_inputs labels c))) in
  (forall k v, In (Filled k v) acts ->
               get before k = Some v /\ v <> EmptyString)
  /\ (forall k v, get before k = Some v -> get after k = Some v)
  /\ (forall k v, get after k = Some v ->
                  get before k = Some v \/ v = EmptyString)
  /\ List.length acts = List.length labels.
Proof.
  cbv zeta. unfold _fill_form_inputs.
  set (aliased := match CONFIG_profile c with Some _ => true | None => false end).
  pose proof (fill_input_fields_grow aliased labels c) as H. cbv zeta in H.
  destruct H as (Hg & _).
  split; [apply fill_input_fields_filled|].
  split; [intros k v; now apply grown_get|].
  split; [|apply fill_input_fields_length].
  intros k v Hget.
  destruct (grown_get_back _ _ _ _ Hg Hget) as [H|[_ H]]; [now left | now right].
Qed.



Lemma fill_input_field_again (aliased : bool) (l : option string)
      (c c1 cf : config) (a : fill_action) :
  fill_input_field aliased l c = (a, c1) ->
  grown_by_empties (profile_view aliased c)
                   (profile_or_empty (CONFIG_profile cf)) ->
  grown_by_empties (profile_or_empty (CONFIG_profile c1))
                   (profile_or_empty (CONFIG_profile cf)) ->
  CONFIG_profile cf <> None ->
  fill_input_field true l cf = (a, cf).
Proof.
  unfold fill_input_field, profile_view. cbv zeta.
  intros H Hview Hafter Hcf.
  destruct l as [[|x label]|];
    [inversion H; reflexivity | | inversion H; reflexivity].
  rewrite (grown_resolve _ _ _ Hview).
  destruct (resolve_input_label _ _) as [k|].
  - destruct (get (if aliased then _ else _) k) as [v|] eqn:Hget.
    + rewrite (grown_get _ _ _ _ Hview Hget).
      destruct (nonempty k && nonempty v).
      * inversion H; reflexivity.
      * inversion H; subst. f_equal. now apply (add_missing_fixed _ c).
    + inversion H; subst.
      assert (Hfix : _add_missing_field_to_config (lower (String x label)) cf = cf)
        by now apply (add_missing_fixed _ c).
      destruct (get (profile_or_empty (CONFIG_profile cf)) k) as [v'|] eqn:Hget'.
      * destruct (grown_get_back _ _ _ _ Hview Hget') as [Hx|[_ ->]];
          [congruence|].
        rewrite andb_false_r. now rewrite Hfix.
      * now rewrite Hfix.
  - inversion H; subst. f_equal. now apply (add_missing_fixed _ c).
Qed.

Lemma fill_input_fields_again (labels : list (option string)) :
  forall (aliased : bool) (c c2 cf : config) (acts : list fill_action),
    fill_input_fields aliased labels c = (acts, c2) ->
    grown_by_empties (profile_view aliased c)
                     (profile_or_empty (CONFIG_profile cf)) ->
    grown_by_empties (profile_or_empty (CONFIG_profile c2))
                     (profile_or_empty (CONFIG_profile cf)) ->
    CONFIG_profile cf <> None ->
    fill_input_fields true labels cf = (acts, cf).
Proof.
  induction labels as [|l rest IH]; intros aliased c c2 cf acts; cbn.
  - intros H _ _ _. now inversion H.
  - destruct (fill_input_field aliased l c) as [a c1] eqn:H1.
    pose proof (fill_input_fields_grow aliased rest c1) as Hg. cbv zeta in Hg.
    destruct (fill_input_fields aliased rest c1) as [acts' c2'] eqn:H2.
    cbn [snd] in Hg. destruct Hg as (Hg & _).
    intros H Hview Hafter Hcf. inversion H; subst.
    assert (Hc1 : grown_by_empties (profile_or_empty (CONFIG_profile c1))
                                   (profile_or_empty (CONFIG_profile cf)))
      by exact (grown_trans _ _ _ Hg Hafter).
    rewrite (fill_input_field_again aliased l c c1 cf a H1 Hview Hc1 Hcf).
    rewrite (IH aliased c1 c2 cf acts' H2); auto.
    unfold profile_view in *. destruct aliased; assumption.
Qed.

(** X24. A second pass over the same text inputs, started from the
    configuration the first pass left, takes the same action on every
    field and changes nothing more: the keys added by the first pass,
    having the empty value, never alter how a label is resolved, and are
    not added again. *)
Theorem form_pass_twice (labels : list (option string)) (c : config) :
  _fill_form_inputs labels (snd (_fill_form_inputs labels c))
  = _fill_form_inputs labels c.
Proof.
  unfold _fill_form_inputs.
  set (aliased := match CONFIG_profile c with Some _ => true | None => false end).
  pose proof (fill_input_fields_grow aliased labels c) as Hg. cbv zeta in Hg.
  destruct (fill_input_fields aliased labels c) as [acts c2] eqn:Hpass.
  cbn [snd] in *. destruct Hg as (Hg & Hsome & Hnone & _).
  destruct (CONFIG_profile c2) as [d2|] eqn:Hc2.
  - apply (fill_input_fields_again labels aliased c c2 c2 acts Hpass).
    + rewrite Hc2. cbn [profile_or_empty].
      unfold profile_view, aliased.
      cbn [profile_or_empty] in Hg.
      destruct (CONFIG_profile c); exact Hg.
    + apply grown_refl.
    + rewrite Hc2. discriminate.
  - pose proof (Hnone eq_refl) as Hsame. subst c2.
    assert (Ha : aliased = false) by (unfold aliased; now rewrite Hc2).
    rewrite Ha in Hpass. exact Hpass.
Qed.

End FormPassFacts.
